(** * D2Q9 lattice Boltzmann solver for the lid-driven cavity (cavity_opt1.py)

    A shallow embedding of [simulators/parallel_lid_drive_cavity/cavity_opt1.py]
    and the properties of its collision, streaming, wall, halo-exchange and
    partitioning code.

    Numbers are exact rationals; the one partial operation of the program,
    the division by the density in [collide], yields [Undef] on a zero
    divisor (numpy stores nan or inf there), and [Undef] propagates through
    every later operation as nan does. *)

From Stdlib Require Import ZArith QArith Qcanon Lia.
From stdpp Require Import base numbers list strings pretty.

(** ** Cell values *)

Inductive val := Num (q : Qc) | Undef.

Global Instance val_eq_dec : EqDecision val.
Proof. solve_decision. Defined.

Global Instance val_inhabited : Inhabited val := populate Undef.

Definition lift2 (op : Qc → Qc → Qc) (a b : val) : val :=
  match a, b with
  | Num x, Num y => Num (op x y)
  | _, _ => Undef
  end.

Definition vadd : val → val → val := lift2 Qcplus.
Definition vsub : val → val → val := lift2 Qcminus.
Definition vmul : val → val → val := lift2 Qcmult.

Definition vdiv (a b : val) : val :=
  match a, b with
  | Num x, Num y => if decide (y = Q2Qc 0) then Undef else Num (Qcdiv x y)
  | _, _ => Undef
  end.

Definition vopp (a : val) : val :=
  match a with Num x => Num (Qcopp x) | Undef => Undef end.

(** [x**2] *)
Definition vsq (a : val) : val := vmul a a.

Definition val_of_Z (z : Z) : val := Num (Qc_of_Z z).
Definition val_to_Z (a : val) : option Z :=
  match a with
  | Num q => if decide (Qden (this q) = 1%positive) then Some (Qnum (this q)) else None
  | Undef => None
  end.

Declare Scope arr_scope.
Delimit Scope arr_scope with arr.
Number Notation val val_of_Z val_to_Z : arr_scope.

(** ** Elementwise array arithmetic

    numpy applies [+ - * /] and [**2] cell by cell; a scalar operand is
    broadcast over the array.  Arrays are nested lists, outermost axis
    first.  The operands of every binary operation of the program live on
    the same grid, so two lists are combined position by position. *)

Class Elementwise (A : Type) := {
  emap : (val → val) → A → A;
  ezip : (val → val → val) → A → A → A
}.

Global Instance val_elementwise : Elementwise val :=
  {| emap f := f; ezip f := f |}.

Global Instance list_elementwise `{Elementwise A} : Elementwise (list A) :=
  {| emap f := fmap (emap f); ezip f := zip_with (ezip f) |}.

Notation "a + b" := (ezip vadd a b) : arr_scope.
Notation "a - b" := (ezip vsub a b) : arr_scope.
Notation "a * b" := (ezip vmul a b) : arr_scope.
Notation "a / b" := (ezip vdiv a b) : arr_scope.
Notation "- a" := (emap vopp a) : arr_scope.
Notation "a **2" := (emap vsq a) (at level 1, format "a **2") : arr_scope.
(** a scalar, on the dotted side, is broadcast over the array on the other *)
Notation "s ·+ a" := (emap (vadd s) a) (at level 50, left associativity) : arr_scope.
Notation "s ·- a" := (emap (vsub s) a) (at level 50, left associativity) : arr_scope.
Notation "s ·* a" := (emap (vmul s) a) (at level 40, left associativity) : arr_scope.
Notation "a *· s" := (emap (λ x, vmul x s) a) (at level 40, left associativity) : arr_scope.

(** [vec]: one axis; [grid]: [g[k][l]], x-position then y-position;
    [dist]: [f[i][k][l]], channel first. *)
Abbreviation vec := (list val).
Abbreviation grid := (list (list val)).
Abbreviation dist := (list (list (list val))).

(** [np.sum(f, axis=0)].  For an array without channels numpy returns
    zeros of the inner shape, which a list does not carry. *)
Definition sum_axis0 (f : dist) : grid :=
  match f with
  | [] => []
  | g :: gs => foldl (ezip vadd) g gs
  end.

(** [np.ones(shape)], [np.zeros(shape)] *)
Definition full (nx ny : nat) (a : val) : grid := replicate nx (replicate ny a).

(** Reading single cells, for stating properties. *)
Definition gcell {A} (g : list (list A)) (k l : nat) : option A :=
  c ← g !! k; c !! l.
Definition cell {A} (f : list (list (list A))) (i k l : nat) : option A :=
  g ← f !! i; gcell g k l.

Definition shape2 {A} (nx ny : nat) (g : list (list A)) : Prop :=
  length g = nx ∧ Forall (λ c, length c = ny) g.
Definition shape3 {A} (n nx ny : nat) (f : list (list (list A))) : Prop :=
  length f = n ∧ Forall (shape2 nx ny) f.

Global Instance shape2_dec {A} nx ny (g : list (list A)) : Decision (shape2 nx ny g).
Proof. unfold shape2. apply _. Defined.
Global Instance shape3_dec {A} n nx ny (f : list (list (list A))) :
  Decision (shape3 n nx ny f).
Proof. unfold shape3. apply _. Defined.

(** ** Exceptions and the in-place store

    Every function of the program mutates the array it is given.  A
    computation takes the store and returns its outcome with the store as
    the call leaves it, also when it raises. *)

Inductive exn := IndexError | ValueError | NameError (name : string) | MPIError.

Inductive outcome (A : Type) := Ok (a : A) | Raise (e : exn).
Global Arguments Ok {A} a.
Global Arguments Raise {A} e.

Definition obind {A B} (m : outcome A) (k : A → outcome B) : outcome B :=
  match m with Ok a => k a | Raise e => Raise e end.

Definition M (St A : Type) : Type := St → outcome A * St.

Definition ret {St A} (a : A) : M St A := λ s, (Ok a, s).
Definition bind {St A B} (m : M St A) (k : A → M St B) : M St B := λ s,
  match m s with
  | (Ok a, s') => k a s'
  | (Raise e, s') => (Raise e, s')
  end.

Notation "'let!' x := y 'in' z" := (obind y (λ x, z))
  (at level 10, x name, y at level 100, z at level 200, only parsing).

Declare Scope prog_scope.
Delimit Scope prog_scope with P.
Bind Scope prog_scope with M.
Notation "x ← y ; z" := (bind y (λ x, z))
  (at level 20, y at level 100, z at level 200, only parsing) : prog_scope.
Notation "x ;; z" := (bind x (λ _, z))
  (at level 100, z at level 200, only parsing, right associativity) : prog_scope.

Definition get {St} : M St St := λ s, (Ok s, s).
Definition put {St} (s : St) : M St unit := λ _, (Ok tt, s).
Definition lift {St A} (o : outcome A) : M St A := λ s, (o, s).
(** an assignment into the store: nothing is written when it raises *)
Definition store {St} (wr : St → outcome St) : M St unit := λ s,
  match wr s with Ok s' => (Ok tt, s') | Raise e => (Raise e, s) end.
(** an expression read off the store *)
Definition fetch {St A} (rd : St → outcome A) : M St A := λ s, (rd s, s).

(** [for b in l: body(b)] *)
Fixpoint for_ {St B} (l : list B) (body : B → M St unit) : M St unit :=
  match l with
  | [] => ret tt
  | b :: l => (body b;; for_ l body)%P
  end.

(** ** Python indexing *)

(** An index [k] into an axis of length [n]: negative indices count from
    the end; anything else out of range raises IndexError. *)
Definition index (n : nat) (k : Z) : outcome nat :=
  if decide (0 ≤ k < Z.of_nat n)%Z then Ok (Z.to_nat k)
  else if decide (- Z.of_nat n ≤ k < 0)%Z then Ok (Z.to_nat (Z.of_nat n + k))
  else Raise IndexError.

(** [l[k]] and [l[k] = a] *)
Definition getitem {A} `{Inhabited A} (l : list A) (k : Z) : outcome A :=
  let! j := index (length l) k in Ok (l !!! j).
Definition setitem {A} (k : Z) (a : A) (l : list A) : outcome (list A) :=
  let! j := index (length l) k in Ok (<[j:=a]> l).

(** The lengths of the three axes of [f_ikl].  A list carries no length
    for the inner axes of an array whose outer axis is empty. *)
Definition len0 (f : dist) : nat := length f.
Definition len1 (f : dist) : nat := from_option length 0%nat (head f).
Definition len2 (f : dist) : nat := from_option length 0%nat (head f ≫= head).

(** [f[:, :, l]] and [f[:, k, :]] (the program copies both) *)
Definition slice_l (j : nat) (f : dist) : list vec :=
  (λ g : grid, (λ c : vec, c !!! j) <$> g) <$> f.
Definition slice_k (j : nat) (f : dist) : list vec :=
  (λ g : grid, g !!! j) <$> f.
Definition get_l (l : Z) (f : dist) : outcome (list vec) :=
  let! j := index (len2 f) l in Ok (slice_l j f).
Definition get_k (k : Z) (f : dist) : outcome (list vec) :=
  let! j := index (len1 f) k in Ok (slice_k j f).
(** [f[i, :, l]] *)
Definition get_il (i l : Z) (f : dist) : outcome vec :=
  let! g := getitem f i in let! j := index (len2 f) l in Ok ((λ c : vec, c !!! j) <$> g).

(** A slice assignment stores, at every cell the index expression
    selects, the matching element of the right-hand side. *)
Definition assign (sel : nat → nat → nat → option val) (f : dist) : dist :=
  imap (λ i, imap (λ k, imap (λ l a, default a (sel i k l)))) f.

(** The cells an index expression selects, with the element stored there:
    [[i, :, l]] takes a vector along x, [[i, k, :]] a vector along y,
    [[i, k, l]] a single value, [[:, k, :]] and [[:, :, l]] a layer of all
    channels. *)
Definition sel_il (i l : nat) (v : vec) (a b c : nat) : option val :=
  if decide (a = i ∧ c = l) then v !! b else None.
Definition sel_ik (i k : nat) (v : vec) (a b c : nat) : option val :=
  if decide (a = i ∧ b = k) then v !! c else None.
Definition sel_ikl (i k l : nat) (x : val) (a b c : nat) : option val :=
  if decide (a = i ∧ b = k ∧ c = l) then Some x else None.
Definition sel_k (k : nat) (buf : list vec) (a b c : nat) : option val :=
  if decide (b = k) then buf !! a ≫= (.!! c) else None.
Definition sel_l (l : nat) (buf : list vec) (a b c : nat) : option val :=
  if decide (c = l) then buf !! a ≫= (.!! b) else None.

(** [f[i, :, l] = v] *)
Definition set_il (i l : Z) (v : vec) (f : dist) : outcome dist :=
  let! i' := index (len0 f) i in let! l' := index (len2 f) l in
  if decide (length v = len1 f) then Ok (assign (sel_il i' l' v) f)
  else Raise ValueError.
(** [f[i, k, :] = v] *)
Definition set_ik (i k : Z) (v : vec) (f : dist) : outcome dist :=
  let! i' := index (len0 f) i in let! k' := index (len1 f) k in
  if decide (length v = len2 f) then Ok (assign (sel_ik i' k' v) f)
  else Raise ValueError.
(** [f[i, k, l] = x] *)
Definition set_ikl (i k l : Z) (x : val) (f : dist) : outcome dist :=
  let! i' := index (len0 f) i in let! k' := index (len1 f) k in
  let! l' := index (len2 f) l in
  Ok (assign (sel_ikl i' k' l' x) f).
(** [f[:, k, :] = buf] and [f[:, :, l] = buf] *)
Definition set_k (k : Z) (buf : list vec) (f : dist) : outcome dist :=
  let! k' := index (len1 f) k in
  if decide (length buf = len0 f ∧ Forall (λ v, length v = len2 f) buf)
  then Ok (assign (sel_k k' buf) f)
  else Raise ValueError.
Definition set_l (l : Z) (buf : list vec) (f : dist) : outcome dist :=
  let! l' := index (len2 f) l in
  if decide (length buf = len0 f ∧ Forall (λ v, length v = len1 f) buf)
  then Ok (assign (sel_l l' buf) f)
  else Raise ValueError.

Notation "a .[ i ]" := (getitem a i) (at level 1, left associativity, format "a .[ i ]").
Notation "a .[ i , j ]" := (let! r := getitem a i in getitem r j)
  (at level 1, left associativity, format "a .[ i ,  j ]").

(** The statements [f_ikl[i, :, l] = e], [f_ikl[i, k, :] = e] and
    [f_ikl[i, k, l] = e]: the right-hand side is evaluated first. *)
Definition put_il (i l : Z) (e : outcome vec) : M dist unit :=
  bind (lift e) (λ v, store (set_il i l v)).
Definition put_ik (i k : Z) (e : outcome vec) : M dist unit :=
  bind (lift e) (λ v, store (set_ik i k v)).
Definition put_ikl (i k l : Z) (e : outcome val) : M dist unit :=
  bind (lift e) (λ x, store (set_ikl i k l x)).

(** ** Parameters and lattice constants *)

Local Open Scope arr_scope.

(** [D = IntEnum('D', 'E N W S NE NW SW SE')]: the members count from 1. *)
Module D.
Definition E : Z := 1.
Definition N : Z := 2.
Definition W : Z := 3.
Definition S : Z := 4.
Definition NE : Z := 5.
Definition NW : Z := 6.
Definition SW : Z := 7.
Definition SE : Z := 8.
End D.

(** [c_ic[i]]: the velocity of channel [i], x component then y component *)
Definition c_ic : list (Z * Z) :=
  [(0, 0); (1, 0); (0, 1); (-1, 0); (0, -1); (1, 1); (-1, 1); (-1, -1); (1, -1)]%Z.

Definition w_0 : val := 4 / 9.
Definition w_1234 : val := 1 / 9.
Definition w_5678 : val := 1 / 36.
Definition w_i : vec :=
  [w_0; w_1234; w_1234; w_1234; w_1234; w_5678; w_5678; w_5678; w_5678].

(** ** Compute functions *)

(** The arguments are arrays on one grid; as in numpy the function does not
    depend on their number of axes (a single cell is an array of none). *)
Definition equilibrium `{Elementwise A} (rho_kl ux_kl uy_kl : A) : list A :=
  let cu5_kl := ux_kl + uy_kl in
  let cu6_kl := - ux_kl + uy_kl in
  let cu7_kl := - ux_kl - uy_kl in
  let cu8_kl := ux_kl - uy_kl in
  let uu_kl := ux_kl**2 + uy_kl**2 in
  [ w_0 ·* rho_kl * (1 ·- 3/2 ·* uu_kl);
    w_1234 ·* rho_kl * (1 ·+ 3 ·* ux_kl + 9/2 ·* ux_kl**2 - 3/2 ·* uu_kl);
    w_1234 ·* rho_kl * (1 ·+ 3 ·* uy_kl + 9/2 ·* uy_kl**2 - 3/2 ·* uu_kl);
    w_1234 ·* rho_kl * (1 ·- 3 ·* ux_kl + 9/2 ·* ux_kl**2 - 3/2 ·* uu_kl);
    w_1234 ·* rho_kl * (1 ·- 3 ·* uy_kl + 9/2 ·* uy_kl**2 - 3/2 ·* uu_kl);
    w_5678 ·* rho_kl * (1 ·+ 3 ·* cu5_kl + 9/2 ·* cu5_kl**2 - 3/2 ·* uu_kl);
    w_5678 ·* rho_kl * (1 ·+ 3 ·* cu6_kl + 9/2 ·* cu6_kl**2 - 3/2 ·* uu_kl);
    w_5678 ·* rho_kl * (1 ·+ 3 ·* cu7_kl + 9/2 ·* cu7_kl**2 - 3/2 ·* uu_kl);
    w_5678 ·* rho_kl * (1 ·+ 3 ·* cu8_kl + 9/2 ·* cu8_kl**2 - 3/2 ·* uu_kl) ].

Local Open Scope prog_scope.

Definition collide (omega : val) : M dist (grid * grid * grid) :=
  f_ikl ← get;
  let rho_kl := sum_axis0 f_ikl in
  f1 ← lift (getitem f_ikl 1); f2 ← lift (getitem f_ikl 2);
  f3 ← lift (getitem f_ikl 3); f4 ← lift (getitem f_ikl 4);
  f5 ← lift (getitem f_ikl 5); f6 ← lift (getitem f_ikl 6);
  f7 ← lift (getitem f_ikl 7); f8 ← lift (getitem f_ikl 8);
  let ux_kl := (f1 - f3 + f5 - f6 - f7 + f8) / rho_kl in
  let uy_kl := (f2 - f4 + f5 + f6 - f7 - f8) / rho_kl in
  put (f_ikl + omega ·* (equilibrium rho_kl ux_kl uy_kl - f_ikl));;
  ret (rho_kl, ux_kl, uy_kl).

(** [np.roll(a, shift)] along one axis: the element at [j] moves to
    [(j + shift) mod n]. *)
Definition roll {A} (l : list A) (shift : Z) : list A :=
  rotate (Z.to_nat ((- shift) `mod` Z.of_nat (length l))) l.

(** [np.roll(g, shift, axis=(0, 1))] *)
Definition roll2 {A} (g : list (list A)) (shift : Z * Z) : list (list A) :=
  roll ((λ c, roll c shift.2) <$> g) shift.1.

(** [stream] with the velocity set as an argument; the program's [stream]
    is its instance at [c_ic]. *)
Definition stream_by (c : list (Z * Z)) : M dist unit :=
  for_ (seqZ 1 8) (λ i,
    f_ikl ← get;
    f_i ← lift (getitem f_ikl i);
    c_i ← lift (getitem c i);
    store (setitem i (roll2 f_i c_i))).

Definition stream : M dist unit := stream_by c_ic.

Definition stream_and_bounce_back (u0 : val) : M dist unit :=
  fbottom_ik ← fetch (get_l 0);
  ftop_ik ← fetch (get_l (-1));

  fleft_il ← fetch (get_k 0);
  fright_il ← fetch (get_k (-1));

  stream;;

  (* Bottom boundary *)
  put_il D.N 0 fbottom_ik.[D.S];;
  put_il D.NE 0 fbottom_ik.[D.SW];;
  put_il D.NW 0 fbottom_ik.[D.SE];;

  (* Top boundary - sliding lid *)
  t_NW ← lift ftop_ik.[D.NW]; t_N ← lift ftop_ik.[D.N]; t_NE ← lift ftop_ik.[D.NE];
  f_NW ← fetch (get_il D.NW (-1)); f_N ← fetch (get_il D.N (-1));
  f_NE ← fetch (get_il D.NE (-1));
  f_W ← fetch (get_il D.W (-1)); f_0 ← fetch (get_il 0 (-1)); f_E ← fetch (get_il D.E (-1));
  let rhobottom_k := t_NW + t_N + t_NE + f_NW + f_N + f_NE + f_W + f_0 + f_E in
  put_il D.S (-1) ftop_ik.[D.N];;
  put_il D.SE (-1)
    (let! t := ftop_ik.[D.NW] in let! w := w_i.[D.SE] in
     Ok (t + 6 * w ·* rhobottom_k *· u0));;
  put_il D.SW (-1)
    (let! t := ftop_ik.[D.NE] in let! w := w_i.[D.SW] in
     Ok (t - 6 * w ·* rhobottom_k *· u0));;

  (* Left boundary *)
  put_ik D.E 0 fleft_il.[D.W];;
  put_ik D.NE 0 fleft_il.[D.SW];;
  put_ik D.SE 0 fleft_il.[D.NW];;

  (* Right boundary *)
  put_ik D.W (-1) fright_il.[D.E];;
  put_ik D.NW (-1) fright_il.[D.SE];;
  put_ik D.SW (-1) fright_il.[D.NE];;

  (* Bottom-left corner *)
  put_ikl D.N 0 0 fbottom_ik.[D.S, 0];;
  put_ikl D.E 0 0 fbottom_ik.[D.W, 0];;
  put_ikl D.NE 0 0 fbottom_ik.[D.SW, 0];;

  (* Bottom-right corner *)
  put_ikl D.N (-1) 0 fbottom_ik.[D.S, -1];;
  put_ikl D.W (-1) 0 fbottom_ik.[D.E, -1];;
  put_ikl D.NW (-1) 0 fbottom_ik.[D.SE, -1];;

  (* Top-left corner *)
  put_ikl D.S 0 (-1) ftop_ik.[D.N, 0];;
  put_ikl D.E 0 (-1) ftop_ik.[D.W, 0];;
  put_ikl D.SE 0 (-1) ftop_ik.[D.NW, 0];;

  (* Top-right corner *)
  put_ikl D.S (-1) (-1) ftop_ik.[D.N, -1];;
  put_ikl D.W (-1) (-1) ftop_ik.[D.E, -1];;
  put_ikl D.SW (-1) (-1) ftop_ik.[D.NE, -1].

(** ** The Cartesian communicator

    [MPI.COMM_WORLD.Create_cart((ndx, ndy), periods=(False, False))]: ranks
    are laid out row by row, rank [px*ndy + py] at coordinates [(px, py)];
    outside the grid there is no process, which MPI reports as the
    negative rank [MPI.PROC_NULL]. *)

Definition PROC_NULL : Z := -1.

Definition cart_rank (ndx ndy px py : Z) : Z :=
  if decide (0 ≤ px < ndx ∧ 0 ≤ py < ndy)%Z then (px * ndy + py)%Z else PROC_NULL.

(** [comm.Get_coords(rank)] *)
Definition Get_coords (ndy rank : Z) : Z * Z := ((rank `div` ndy)%Z, (rank `mod` ndy)%Z).

(** [comm.Shift(direction, disp)] at [(px, py)]: the rank to receive from
    and the rank to send to *)
Definition Shift (ndx ndy px py : Z) (direction disp : Z) : Z * Z :=
  if decide (direction = 0)%Z
  then (cart_rank ndx ndy (px - disp) py, cart_rank ndx ndy (px + disp) py)
  else (cart_rank ndx ndy px (py - disp), cart_rank ndx ndy px (py + disp)).

Record neighbours := {
  left_src : Z; left_dst : Z;
  right_src : Z; right_dst : Z;
  bottom_src : Z; bottom_dst : Z;
  top_src : Z; top_dst : Z
}.

Definition neighbours_at (ndx ndy px py : Z) : neighbours :=
  let '(left_src, left_dst) := Shift ndx ndy px py 0 (-1) in
  let '(right_src, right_dst) := Shift ndx ndy px py 0 1 in
  let '(bottom_src, bottom_dst) := Shift ndx ndy px py 1 (-1) in
  let '(top_src, top_dst) := Shift ndx ndy px py 1 1 in
  {| left_src := left_src; left_dst := left_dst;
     right_src := right_src; right_dst := right_dst;
     bottom_src := bottom_src; bottom_dst := bottom_dst;
     top_src := top_src; top_dst := top_dst |}.

(** The neighbours of every rank, in rank order. *)
Definition topology (ndx ndy : Z) : list neighbours :=
  (λ rank, let '(px, py) := Get_coords ndy rank in neighbours_at ndx ndy px py)
    <$> seqZ 0 (ndx * ndy).

(** ** Local grids *)

Record slice := Slice { start : Z; stop : Z }.

(** [a[slice(start, stop)]] for the bounds the program builds (not
    negative): the positions from [start] up to [stop], as far as they
    exist. *)
Definition apply_slice {A} (s : slice) (a : list A) : list A :=
  take (Z.to_nat (stop s - start s)) (drop (Z.to_nat (start s)) a).

(** [g[sx, sy]] *)
Definition crop {A} (sx sy : slice) (g : list (list A)) : list (list A) :=
  apply_slice sy <$> apply_slice sx g.

(** The share of an axis of [n] points that a process owns, of [nd]
    processes along the axis; [hi_dst] is its neighbour up the axis.  *)
Definition owned_extent (n nd hi_dst : Z) : Z :=
  let local_n := (n `div` nd)%Z in
  if decide (hi_dst < 0)%Z then (n - local_n * (nd - 1))%Z else local_n.

Record geometry := {
  local_nx : Z; local_ny : Z;
  without_ghosts_x : slice; without_ghosts_y : slice
}.

Definition partition (nx ny ndx ndy : Z) (nb : neighbours) : geometry :=
  let local_nx := owned_extent nx ndx (right_dst nb) in
  let without_ghosts_x := Slice 0 local_nx in
  let local_nx := if decide (right_dst nb >= 0)%Z then (local_nx + 1)%Z else local_nx in
  let '(local_nx, without_ghosts_x) :=
    if decide (left_dst nb >= 0)%Z
    then let local_nx := (local_nx + 1)%Z in (local_nx, Slice 1 (local_nx + 1))
    else (local_nx, without_ghosts_x) in
  let local_ny := owned_extent ny ndy (top_dst nb) in
  let without_ghosts_y := Slice 0 local_ny in
  let local_ny := if decide (top_dst nb >= 0)%Z then (local_ny + 1)%Z else local_ny in
  let '(local_ny, without_ghosts_y) :=
    if decide (bottom_dst nb >= 0)%Z
    then let local_ny := (local_ny + 1)%Z in (local_ny, Slice 1 (local_ny + 1))
    else (local_ny, without_ghosts_y) in
  {| local_nx := local_nx; local_ny := local_ny;
     without_ghosts_x := without_ghosts_x; without_ghosts_y := without_ghosts_y |}.

(** ** Halo exchange

    Every process runs the same four [Sendrecv] calls in the same order.
    A [Sendrecv] returns once its message is sent and the one it waits for
    has arrived, and between two processes messages arrive in the order
    sent, so the k-th call of a process receives what its source posted in
    its own k-th call.  The processes are therefore taken through the four
    calls together: [world] holds the array of every rank. *)

(** One [Sendrecv] round: [posts] holds, per rank, the send buffer, the
    destination, the receive buffer and the source.  The result is the
    receive buffer of every rank after the call. *)
Definition deliver (posts : list (list vec * Z * list vec * Z)) (rank : nat)
    (post : list vec * Z * list vec * Z) : outcome (list vec) :=
  let '(_, _, recvbuf, source) := post in
  if decide (source < 0)%Z then Ok recvbuf
  else match posts !! Z.to_nat source with
       | Some (sendbuf, dest, _, _) =>
           if decide (dest = Z.of_nat rank ∧ length <$> sendbuf = length <$> recvbuf)
           then Ok sendbuf else Raise MPIError
       | None => Raise MPIError
       end.

Fixpoint sequence {A} (os : list (outcome A)) : outcome (list A) :=
  match os with
  | [] => Ok []
  | o :: os => let! a := o in let! l := sequence os in Ok (a :: l)
  end.

Definition Sendrecv_all (posts : list (list vec * Z * list vec * Z)) : outcome (list (list vec)) :=
  sequence (imap (deliver posts) posts).

(** One of the four blocks of [communicate], for all ranks: the layer
    [recv_at] is copied as receive buffer, the layer [send_at] is sent to
    [dst], and what arrives from [src] is stored at [recv_at]. *)
Definition exchange
    (get : Z → dist → outcome (list vec)) (set : Z → list vec → dist → outcome dist)
    (recv_at send_at : Z) (dst src : neighbours → Z)
    (topo : list neighbours) (world : list dist) : outcome (list dist) :=
  let! posts := sequence (zip_with (λ nb f_ikl,
      let! recvbuf := get recv_at f_ikl in
      let! sendbuf := get send_at f_ikl in
      Ok (sendbuf, dst nb, recvbuf, src nb)) topo world) in
  let! recvbufs := Sendrecv_all posts in
  sequence (zip_with (λ recvbuf f_ikl, set recv_at recvbuf f_ikl) recvbufs world).

Definition communicate (topo : list neighbours) (world : list dist) : outcome (list dist) :=
  (* Send to left *)
  let! world := exchange get_k set_k (-1) 1 left_dst left_src topo world in
  (* Send to right *)
  let! world := exchange get_k set_k 0 (-2) right_dst right_src topo world in
  (* Send to bottom *)
  let! world := exchange get_l set_l (-1) 1 bottom_dst bottom_src topo world in
  (* Send to top *)
  exchange get_l set_l 0 (-2) top_dst top_src topo world.

(** ** The program *)

(** Number of steps, dump interval, relaxation parameter; [u0=0.1] is the
    default argument of [stream_and_bounce_back]. *)
Definition nsteps : Z := 100000.
Definition dump_freq : Z := 10000.
Definition omega : val := 17 / 10.
Definition u0_default : val := 1 / 10.

(** Run one function in every process. *)
Definition run_all {A} (m : M dist A) (world : list dist) : outcome (list A * list dist) :=
  let! rs := sequence ((λ f_ikl,
      match m f_ikl with
      | (Ok a, f_ikl) => Ok (a, f_ikl)
      | (Raise e, _) => Raise e
      end) <$> world) in
  Ok (rs.*1, rs.*2).

(** What the program has bound by the end of a loop iteration, besides
    the names fixed at start-up: the arrays, the macroscopic fields of the
    last collision, the loop variable, and the files written so far (a
    file is its name with the contributions of the ranks, in rank order). *)
Record prog := {
  world : list dist;
  fields : option (list (grid * grid * grid));
  loop_i : option Z;
  files : list (string * list grid)
}.

Inductive obj :=
  | Int (z : Z)
  | Arrays3 (a : list dist)
  | Arrays2 (a : list grid)
  | Other.

(** The module's global names.  Those bound before the main loop: *)
Definition startup_names : list string :=
  ["sys"; "IntEnum"; "MPI"; "np"; "save_mpiio"; "ndx"; "ndy"; "nx"; "ny"; "dtype";
   "nsteps"; "dump_freq"; "omega"; "D"; "c_ic"; "w_0"; "w_1234"; "w_5678"; "w_i";
   "equilibrium"; "collide"; "stream"; "stream_and_bounce_back"; "communicate";
   "size"; "rank"; "comm"; "left_src"; "left_dst"; "right_src"; "right_dst";
   "bottom_src"; "bottom_dst"; "top_src"; "top_dst"; "local_nx"; "local_ny";
   "without_ghosts_x"; "without_ghosts_y"; "mpix"; "mpiy"].

Definition globals (st : prog) : list (string * obj) :=
  ((λ x, (x, Other)) <$> startup_names)
  ++ [("f_ikl", Arrays3 (world st))]
  ++ from_option (λ i, [("i", Int i)]) [] (loop_i st)
  ++ from_option (λ r, [("rho_kl", Arrays2 (r.*1.*1)); ("ux_kl", Arrays2 (r.*1.*2));
                         ("uy_kl", Arrays2 (r.*2))]) [] (fields st).

(** Reading a global name: NameError when nothing is bound to it. *)
Definition global (x : string) : M prog obj := λ st,
  match list_find (λ b, b.1 = x) (globals st) with
  | Some (_, (_, v)) => (Ok v, st)
  | None => (Raise (NameError x), st)
  end.

(** Modelled from the spec: the snapshot writer [save_mpiio], which the
    program imports from [PyLB.IO] and which is not among the sources.  Given
    the communicator, a file name and the owned-region array of every
    process, it persists one file per call, assembled from the contributions
    of the processes into one global array. *)
Definition save_mpiio (name : string) (a : list grid) : M prog unit := λ st,
  (Ok tt, {| world := world st; fields := fields st; loop_i := loop_i st;
             files := files st ++ [(name, a)] |}).

Definition raise {St A} (e : exn) : M St A := λ st, (Raise e, st).

(** ['ux_{}.npy'.format(i)] *)
Definition npy (field : string) (i : Z) : string := field +:+ "_" +:+ pretty i +:+ ".npy".

(** One pass of the main loop at step [i] (the progress line written to
    the terminal at a dump is left out). *)
Definition loop_body (topo : list neighbours) (geo : list geometry) (i : Z) : M prog unit :=
  λ st,
  match
    (let! w := communicate topo (world st) in
     let! r := run_all (stream_and_bounce_back u0_default) w in
     run_all (collide omega) r.2)
  with
  | Raise e => (Raise e, st)
  | Ok (r, w) =>
      let st := {| world := w; fields := Some r; loop_i := Some i; files := files st |} in
      if decide (i `mod` dump_freq = 0)%Z then
        (save_mpiio (npy "ux" i)
           (zip_with (λ g a, crop (without_ghosts_x g) (without_ghosts_y g) a) geo (r.*1.*2));;
         save_mpiio (npy "uy" i)
           (zip_with (λ g a, crop (without_ghosts_x g) (without_ghosts_y g) a) geo (r.*2))) st
      else (Ok tt, st)
  end.

(** The dump after the loop.  The arguments of a call are evaluated from
    left to right before the call. *)
Definition final_dump_of (field : string) (c : Z) (geo : list geometry) : M prog unit :=
  _ ← global "save_mpiio";
  _ ← global "comm";
  i ← global "i";
  u_ckl ← global "u_ckl";
  _ ← global "without_ghosts_x";
  _ ← global "without_ghosts_y";
  match i, u_ckl with
  | Int i, Arrays3 a =>
      a_c ← lift (sequence ((λ u, getitem u c) <$> a));
      save_mpiio (npy field i)
        (zip_with (λ g a, crop (without_ghosts_x g) (without_ghosts_y g) a) geo a_c)
  | _, _ => raise ValueError
  end.

Definition final_dump (geo : list geometry) : M prog unit :=
  final_dump_of "ux" 0 geo;;
  final_dump_of "uy" 1 geo.

Definition main_for (steps : Z) (ndx ndy nx ny : Z) : outcome unit * prog :=
  let topo := topology ndx ndy in
  let geo := partition nx ny ndx ndy <$> topo in
  let init := (λ g,
    equilibrium (full (Z.to_nat (local_nx g)) (Z.to_nat (local_ny g)) 1)
                (full (Z.to_nat (local_nx g)) (Z.to_nat (local_ny g)) 0)
                (full (Z.to_nat (local_nx g)) (Z.to_nat (local_ny g)) 0)) <$> geo in
  (for_ (seqZ 0 steps) (loop_body topo geo);; final_dump geo)
    {| world := init; fields := None; loop_i := None; files := [] |}.

Definition main : Z → Z → Z → Z → outcome unit * prog := main_for nsteps.

Local Close Scope prog_scope.
Local Close Scope arr_scope.

(** ** Notions used to state the properties *)

(** The 9 channel values of one cell and their sum, the zeroth moment. *)
Definition sum9 (vs : list val) : val := foldr vadd (val_of_Z 0) vs.
Definition cells9 (f : dist) (k l : nat) : option (list val) :=
  mapM (λ i, cell f i k l) (seq 0 9).
Definition cellsum (f : dist) (k l : nat) : option val := sum9 <$> cells9 f k l.

(** A grid of numbers as an array of cell values. *)
Definition num (g : list (list Qc)) : grid := (λ c : list Qc, Num <$> c) <$> g.

(** The value of a cell that exists. *)
Definition cellv (f : dist) (i k l : nat) : val := ((f !!! i) !!! k) !!! l.

(** The velocity set negated: shifting by it undoes [stream]. *)
Definition neg_c_ic : list (Z * Z) := (λ c : Z * Z, (- c.1, - c.2)%Z) <$> c_ic.

(** [m] keeps [P] true of the store, whether it returns or raises. *)
Definition preserves {St A} (P : St → Prop) (m : M St A) : Prop :=
  ∀ s, P s → P (m s).2.

(** The extents the ranks along one axis own, up the axis: along x at a
    given [py], along y at a given [px]. *)
Definition owned_x (nx ndx ndy py : Z) : list Z :=
  (λ px, owned_extent nx ndx (right_dst (neighbours_at ndx ndy px py))) <$> seqZ 0 ndx.
Definition owned_y (ny ndx ndy px : Z) : list Z :=
  (λ py, owned_extent ny ndy (top_dst (neighbours_at ndx ndy px py))) <$> seqZ 0 ndy.
Definition sumZ (l : list Z) : Z := foldr Z.add 0%Z l.

(** The ghost cells of the local array, of [nx] by [ny] cells, of a process
    with the neighbours [nb]: the outermost layer on every side with a
    neighbour ([left_dst >= 0] and the like, the tests of the partitioning),
    the layer the partitioning adds and [communicate] receives into.  The
    other cells are the ones the process owns. *)
Definition ghost_cell (nb : neighbours) (nx ny k l : nat) : Prop :=
  ((left_dst nb >= 0)%Z ∧ k = 0) ∨ ((right_dst nb >= 0)%Z ∧ k = nx - 1)
  ∨ ((bottom_dst nb >= 0)%Z ∧ l = 0) ∨ ((top_dst nb >= 0)%Z ∧ l = ny - 1).

Global Instance ghost_cell_dec nb nx ny k l : Decision (ghost_cell nb nx ny k l).
Proof. unfold ghost_cell. apply _. Defined.

(** The channels that the wall blocks of [stream_and_bounce_back] write at
    the cell [(k, l)] for the sides without a neighbour, where the edge of
    the local array is the boundary of the global domain: E, NE, SE at the
    left wall, W, NW, SW at the right wall, N, NE, NW at the bottom wall and
    S, SW, SE at the lid. *)
Definition wall_channels (nb : neighbours) (nx ny k l : nat) : list nat :=
  (if decide ((left_dst nb < 0)%Z ∧ k = 0) then [1; 5; 8] else [])
  ++ (if decide ((right_dst nb < 0)%Z ∧ k = nx - 1) then [3; 6; 7] else [])
  ++ (if decide ((bottom_dst nb < 0)%Z ∧ l = 0) then [2; 5; 6] else [])
  ++ (if decide ((top_dst nb < 0)%Z ∧ l = ny - 1) then [4; 7; 8] else []).

(** The density at the lid above column [k], from the pre-stream values of
    the channels NW, N, NE and the values plain streaming gives the channels
    NW, N, NE, W, rest, E, all at the top row [top]. *)
Definition rho_wall (f : dist) (k top : nat) : val :=
  let s0 := (stream f).2 in
  let pre_NW := cellv f 6 k top in
  let pre_N := cellv f 2 k top in
  let pre_NE := cellv f 5 k top in
  let post_NW := cellv s0 6 k top in
  let post_N := cellv s0 2 k top in
  let post_NE := cellv s0 5 k top in
  let post_W := cellv s0 3 k top in
  let post_0 := cellv s0 0 k top in
  let post_E := cellv s0 1 k top in
  (pre_NW + pre_N + pre_NE + post_NW + post_N + post_NE + post_W + post_0 + post_E)%arr.

(** The lid term [6*w*rho*u0] of the diagonal channels. *)
Definition lid_term (f : dist) (k top : nat) (u0 : val) : val :=
  (6 * w_5678 * rho_wall f k top * u0)%arr.

(** Channel 0 of the store is [g0]. *)
Definition rest_is (g0 : option grid) (s : dist) : Prop := s !! 0 = g0.

(** Arrays to evaluate the functions on: the same value in every cell of
    every channel, the channel number in every cell of a channel, and the
    number [100 i + 10 k + l] in cell [(k, l)] of channel [i]. *)
Definition uniform (nx ny : nat) (a : val) : dist := replicate 9 (full nx ny a).
Definition by_channel (nx ny : nat) : dist :=
  (λ i, full nx ny (val_of_Z i)) <$> seqZ 0 9.
Definition numbered (nx ny : nat) : dist :=
  (λ i, (λ k, (λ l, val_of_Z (100 * i + 10 * k + l)) <$> seqZ 0 (Z.of_nat ny))
          <$> seqZ 0 (Z.of_nat nx)) <$> seqZ 0 9.

(** ** Notions used to state the further properties *)

(** The first moments of a cell: the channel values weighted with the
    components of the channel velocities. *)
Definition moment (proj : Z * Z → Z) (vs : list val) : val :=
  sum9 (zip_with (λ c a, vmul (val_of_Z (proj c)) a) c_ic vs).
Definition cellmom_x (f : dist) (k l : nat) : option val := moment fst <$> cells9 f k l.
Definition cellmom_y (f : dist) (k l : nat) : option val := moment snd <$> cells9 f k l.

(** The density [rhobottom_k] that the lid block of [stream_and_bounce_back]
    computes from the array [f] it is called on, whose top row is [top]:
    from the top row before streaming and the top row after streaming and
    the three writes of the bottom wall.  With it, the term
    [6*w_i*rhobottom_k*u0] that the block adds to channel SE and takes from
    channel SW. *)
Definition rhobottom_k (f : dist) (top : nat) : vec :=
  let ftop_ik := slice_l top f in
  let fbottom_ik := slice_l 0 f in
  let s3 := assign (sel_il 6 0 (fbottom_ik !!! 8))
             (assign (sel_il 5 0 (fbottom_ik !!! 7))
               (assign (sel_il 2 0 (fbottom_ik !!! 4)) (stream f).2)) in
  let row (i : nat) : vec := (λ c : vec, c !!! top) <$> (s3 !!! i) in
  let t_NW : vec := ftop_ik !!! 6 in
  let t_N : vec := ftop_ik !!! 2 in
  let t_NE : vec := ftop_ik !!! 5 in
  let f_NW := row 6 in let f_N := row 2 in let f_NE := row 5 in
  let f_W := row 3 in let f_0 := row 0 in let f_E := row 1 in
  (t_NW + t_N + t_NE + f_NW + f_N + f_NE + f_W + f_0 + f_E)%arr.
Definition lid_momentum (f : dist) (top : nat) (u0 : val) : vec :=
  (6 * w_5678 ·* rhobottom_k f top *· u0)%arr.

(** [np.sum] of a vector and of a whole array of occupation numbers: the
    total mass on the grid. *)
Definition vsum (v : vec) : val := foldr vadd (val_of_Z 0) v.
Definition total_mass (f : dist) : val := vsum ((λ g : grid, vsum (vsum <$> g)) <$> f).

(** An array all of whose cells hold numbers. *)
Definition numeric (f : dist) : Prop := Forall (Forall (Forall (λ a, a ≠ Undef))) f.

(** The sum of [c 0], ..., [c (n - 1)]. *)
Fixpoint qsum (n : nat) (c : nat → Qc) : Qc :=
  match n with
  | O => Q2Qc 0
  | S n => (qsum n c + c n)%Qc
  end.
Definition qsum2 (nx ny : nat) (c : nat → nat → Qc) : Qc :=
  qsum nx (λ k, qsum ny (λ l, c k l)).

(** The number a cell holds. *)
Definition qval (x : val) : Qc := match x with Num q => q | Undef => Q2Qc 0 end.

(** The vector [v] holds a number at position [k]. *)
Definition num_at (k : nat) (v : vec) : Prop := ∃ q, v !! k = Some (Num q).

(** The names of the files the main loop writes when it runs through the
    steps [l]: two at every step that is a multiple of [dump_freq]. *)
Definition dump_names (l : list Z) : list string :=
  concat ((λ i, [npy "ux" i; npy "uy" i]) <$> filter (λ i, (i `mod` dump_freq = 0)%Z) l).

(** [n] calls of [m] in a row. *)
Definition times {St} (n : nat) (m : M St unit) : M St unit := for_ (seq 0 n) (λ _, m).

(** * Properties *)

(** ** Arithmetic on cell values *)

Ltac qc_field :=
  apply Qc_is_canon;
  unfold Qcdiv, Qcminus, Qcplus, Qcmult, Qcopp, Qcinv, Qc_of_Z;
  cbn [this Q2Qc];
  rewrite ?Qred_correct;
  try (field; auto).

Lemma Qc_of_Z_neq_0 (z : Z) : z ≠ 0%Z → Qc_of_Z z ≠ Q2Qc 0.
Proof.
  intros Hz H. apply (f_equal this) in H. cbn in H.
  injection H as H. done.
Qed.

Lemma vdiv_Num (x y : Qc) : y ≠ Q2Qc 0 → vdiv (Num x) (Num y) = Num (Qcdiv x y).
Proof. intros Hy. unfold vdiv. by destruct (decide (y = Q2Qc 0)). Qed.

Lemma vdiv_Z (a b : Z) :
  b ≠ 0%Z → vdiv (val_of_Z a) (val_of_Z b) = Num (Qcdiv (Qc_of_Z a) (Qc_of_Z b)).
Proof. intros Hb. apply vdiv_Num. by apply Qc_of_Z_neq_0. Qed.

(** ** Cells of elementwise expressions *)

Section cells.
Context {A : Type}.
Implicit Types (g : list (list A)) (f : list (list (list A))).

Lemma cell_cons_0 g f k l : cell (g :: f) 0 k l = gcell g k l.
Proof. done. Qed.
Lemma cell_cons_S g f i k l : cell (g :: f) (S i) k l = cell f i k l.
Proof. done. Qed.

Lemma gcell_Some_lt nx ny g k l a :
  shape2 nx ny g → gcell g k l = Some a → k < nx ∧ l < ny.
Proof.
  intros [Hx Hy] Hc. unfold gcell in Hc.
  destruct (g !! k) as [c|] eqn:Hk; [simpl in Hc|done].
  split.
  - rewrite <-Hx. by eapply lookup_lt_Some.
  - rewrite Forall_lookup in Hy. rewrite <-(Hy _ _ Hk). by eapply lookup_lt_Some.
Qed.

Lemma gcell_lt_Some nx ny g k l :
  shape2 nx ny g → k < nx → l < ny → is_Some (gcell g k l).
Proof.
  intros [Hx Hy] Hk Hl. unfold gcell.
  destruct (lookup_lt_is_Some_2 g k) as [c Hc]; [lia|].
  rewrite Hc. simpl. apply lookup_lt_is_Some_2.
  rewrite Forall_lookup in Hy. by rewrite (Hy _ _ Hc).
Qed.

Lemma cell_lt_Some n nx ny f i k l :
  shape3 n nx ny f → i < n → k < nx → l < ny → is_Some (cell f i k l).
Proof.
  intros [Hn Hf] Hi Hk Hl. unfold cell.
  destruct (lookup_lt_is_Some_2 f i) as [g Hg]; [lia|].
  rewrite Hg. simpl. rewrite Forall_lookup in Hf.
  eapply gcell_lt_Some; eauto.
Qed.

Lemma cell_Some_lt n nx ny f i k l a :
  shape3 n nx ny f → cell f i k l = Some a → i < n ∧ k < nx ∧ l < ny.
Proof.
  intros [Hn Hf] Hc. unfold cell in Hc.
  destruct (f !! i) as [g|] eqn:Hg; [simpl in Hc|done].
  rewrite Forall_lookup in Hf. split.
  - rewrite <-Hn. by eapply lookup_lt_Some.
  - eapply gcell_Some_lt; eauto.
Qed.
End cells.

Lemma gcell_emap (h : val → val) (g : grid) k l :
  gcell (emap h g) k l = h <$> gcell g k l.
Proof.
  unfold gcell. cbn. rewrite list_lookup_fmap.
  destruct (g !! k) as [c|]; [|done]. cbn. by rewrite list_lookup_fmap.
Qed.

Lemma gcell_ezip (h : val → val → val) (g1 g2 : grid) k l :
  gcell (ezip h g1 g2) k l = a ← gcell g1 k l; b ← gcell g2 k l; Some (h a b).
Proof.
  unfold gcell. cbn. rewrite lookup_zip_with.
  destruct (g1 !! k) as [c1|]; [|done]. cbn.
  destruct (g2 !! k) as [c2|]; cbn.
  - rewrite lookup_zip_with. by destruct (c1 !! l).
  - by destruct (c1 !! l).
Qed.

Lemma cell_emap (h : val → val) (f : dist) i k l :
  cell (emap h f) i k l = h <$> cell f i k l.
Proof.
  unfold cell. cbn. rewrite list_lookup_fmap.
  destruct (f !! i) as [g|]; [|done]. cbn. apply gcell_emap.
Qed.

Lemma cell_ezip (h : val → val → val) (f1 f2 : dist) i k l :
  cell (ezip h f1 f2) i k l = a ← cell f1 i k l; b ← cell f2 i k l; Some (h a b).
Proof.
  unfold cell. cbn. rewrite lookup_zip_with.
  destruct (f1 !! i) as [g1|]; [|done]. cbn.
  destruct (f2 !! i) as [g2|]; cbn.
  - apply gcell_ezip.
  - by destruct (gcell g1 k l).
Qed.

Lemma gcell_num (g : list (list Qc)) k l : gcell (num g) k l = Num <$> gcell g k l.
Proof.
  unfold gcell, num. rewrite list_lookup_fmap.
  destruct (g !! k) as [c|]; [|done]. cbn. by rewrite list_lookup_fmap.
Qed.

Ltac vdiv_consts :=
  repeat match goal with
  | |- context [vdiv (Num ?x) (Num ?y)] =>
      rewrite (vdiv_Num x y) by (intros HH; apply (f_equal this) in HH; discriminate HH)
  end.

Lemma equilibrium_Num (r u v : Qc) :
  ∃ e0 e1 e2 e3 e4 e5 e6 e7 e8 : Qc,
    equilibrium (Num r) (Num u) (Num v)
    = [Num e0; Num e1; Num e2; Num e3; Num e4; Num e5; Num e6; Num e7; Num e8]
    ∧ (e0 + e1 + e2 + e3 + e4 + e5 + e6 + e7 + e8)%Qc = r.
Proof.
  do 9 eexists. split.
  - unfold equilibrium, w_0, w_1234, w_5678.
    cbn [ezip emap val_elementwise]. vdiv_consts.
    cbn [vadd vsub vmul vsq vopp lift2]. reflexivity.
  - qc_field.
Qed.

(** Without a velocity no channel of the equilibrium is a number. *)
Lemma equilibrium_Undef (r : Qc) : equilibrium (Num r) Undef Undef = replicate 9 Undef.
Proof.
  unfold equilibrium, w_0, w_1234, w_5678.
  cbn [ezip emap val_elementwise]. vdiv_consts. reflexivity.
Qed.

Lemma cell_equilibrium (rho ux uy : grid) i k l :
  cell (equilibrium rho ux uy) i k l
  = r ← gcell rho k l; u ← gcell ux k l; v ← gcell uy k l; equilibrium r u v !! i.
Proof.
  unfold equilibrium.
  do 9 (destruct i as [|i];
    [rewrite ?cell_cons_S, cell_cons_0, ?gcell_ezip, ?gcell_emap, ?gcell_ezip, ?gcell_emap;
     by destruct (gcell rho k l), (gcell ux k l), (gcell uy k l)|]).
  rewrite !cell_cons_S. unfold cell. cbn.
  by destruct (gcell rho k l), (gcell ux k l), (gcell uy k l).
Qed.

Lemma vadd_Num_inv a b s :
  vadd a b = Num s → ∃ x y, a = Num x ∧ b = Num y ∧ s = (x + y)%Qc.
Proof. destruct a, b; cbn; intros; simplify_eq. eauto. Qed.

Lemma index_nat n j : j < n → index n (Z.of_nat j) = Ok j.
Proof.
  intros Hj. unfold index. rewrite decide_True by lia. by rewrite Nat2Z.id.
Qed.

Lemma index_neg n j : 0 < j ≤ n → index n (- Z.of_nat j) = Ok (n - j).
Proof.
  intros Hj. unfold index. rewrite decide_False, decide_True by lia.
  f_equal. lia.
Qed.

Lemma collide_run omega (g0 g1 g2 g3 g4 g5 g6 g7 g8 : grid) :
  let f := [g0; g1; g2; g3; g4; g5; g6; g7; g8] in
  let rho := sum_axis0 f in
  let ux := ((g1 - g3 + g5 - g6 - g7 + g8) / rho)%arr in
  let uy := ((g2 - g4 + g5 + g6 - g7 - g8) / rho)%arr in
  collide omega f = (Ok (rho, ux, uy), (f + omega ·* (equilibrium rho ux uy - f))%arr).
Proof. reflexivity. Qed.

Lemma cells9_Num (f : dist) k l s :
  cellsum f k l = Some (Num s) →
  ∃ a0 a1 a2 a3 a4 a5 a6 a7 a8 : Qc,
    (∀ i, i < 9 → cell f i k l = [Num a0; Num a1; Num a2; Num a3; Num a4; Num a5; Num a6; Num a7; Num a8] !! i)
    ∧ s = (a0 + a1 + a2 + a3 + a4 + a5 + a6 + a7 + a8)%Qc.
Proof.
  unfold cellsum, cells9. cbn [seq mapM].
  intros H.
  repeat match type of H with
  | context [cell f ?i k l] =>
     let c := fresh "c" in destruct (cell f i k l) as [c|] eqn:? ; [cbn in H|done]
  end.
  injection H as H.
  repeat match goal with
  | H : vadd _ _ = Num _ |- _ =>
      apply vadd_Num_inv in H as (? & ? & -> & ? & ->)
  end.
  do 9 eexists. split.
  - intros i Hi. do 9 (destruct i as [|i]; [eassumption|]). lia.
  - injection H as <-. qc_field.
Qed.

Lemma sum9_Num (a0 a1 a2 a3 a4 a5 a6 a7 a8 : Qc) :
  sum9 [Num a0; Num a1; Num a2; Num a3; Num a4; Num a5; Num a6; Num a7; Num a8]
  = Num (a0 + a1 + a2 + a3 + a4 + a5 + a6 + a7 + a8)%Qc.
Proof. cbn. f_equal. qc_field. Qed.

Lemma cellsum_cells (f : dist) k l (vs : list val) :
  length vs = 9 →
  (∀ i, i < 9 → cell f i k l = vs !! i) →
  cellsum f k l = Some (sum9 vs).
Proof.
  intros Hl H. unfold cellsum, cells9. cbn [seq mapM].
  rewrite !H by lia.
  do 9 (destruct vs as [|? vs]; [done|]). by destruct vs.
Qed.

Lemma equilibrium_cellsum nx ny (rho ux uy : list (list Qc)) k l r :
  shape2 nx ny rho → shape2 nx ny ux → shape2 nx ny uy →
  gcell rho k l = Some r →
  cellsum (equilibrium (num rho) (num ux) (num uy)) k l = Some (Num r).
Proof.
  intros Hrho Hux Huy Hr.
  destruct (gcell_Some_lt _ _ _ _ _ _ Hrho Hr) as [Hk Hl].
  destruct (gcell_lt_Some _ _ _ k l Hux Hk Hl) as [u Hu].
  destruct (gcell_lt_Some _ _ _ k l Huy Hk Hl) as [v Hv].
  destruct (equilibrium_Num r u v) as (e0&e1&e2&e3&e4&e5&e6&e7&e8&He&Hs).
  erewrite cellsum_cells; [by rewrite sum9_Num, Hs|done|].
  intros i _. rewrite cell_equilibrium, !gcell_num, Hr, Hu, Hv. cbn.
  by rewrite He.
Qed.

(** C1 (amended): for every 9-channel array f, every relaxation rate and
    every cell whose 9 channels are numbers, collide(f, omega) returns; if
    the 9 channels do not sum to zero, the sum over the 9 channels at that
    cell is afterwards exactly what it was (under exact arithmetic); if they
    sum to zero, the velocity is a quotient by zero and none of the 9
    channels of the cell is a number afterwards. *)
Theorem collide_conserves_mass nx ny (f : dist) (w : Qc) k l s :
  shape3 9 nx ny f →
  cellsum f k l = Some (Num s) →
  ∃ fields f', collide (Num w) f = (Ok fields, f')
    ∧ (s ≠ Q2Qc 0 → cellsum f' k l = Some (Num s))
    ∧ (s = Q2Qc 0 → ∀ i, i < 9 → cell f' i k l = Some Undef).
Proof.
  intros [Hlen _] Hsum.
  destruct (cells9_Num _ _ _ _ Hsum) as (a0&a1&a2&a3&a4&a5&a6&a7&a8&Hc&->).
  do 9 (destruct f as [|? f]; [done|]). destruct f; [|done].
  rewrite collide_run. do 2 eexists. split; [reflexivity|].
  pose proof (Hc 0 ltac:(lia)) as H0. pose proof (Hc 1 ltac:(lia)) as H1.
  pose proof (Hc 2 ltac:(lia)) as H2. pose proof (Hc 3 ltac:(lia)) as H3.
  pose proof (Hc 4 ltac:(lia)) as H4. pose proof (Hc 5 ltac:(lia)) as H5.
  pose proof (Hc 6 ltac:(lia)) as H6. pose proof (Hc 7 ltac:(lia)) as H7.
  pose proof (Hc 8 ltac:(lia)) as H8.
  cbn [cell lookup list_lookup mbind option_bind] in H0, H1, H2, H3, H4, H5, H6, H7, H8.
  set (rho := sum_axis0 _). set (ux := (_ / rho)%arr). set (uy := (_ / rho)%arr).
  assert (Hrho : gcell rho k l = Some (Num (a0 + a1 + a2 + a3 + a4 + a5 + a6 + a7 + a8)%Qc)).
  { subst rho. cbn [sum_axis0 foldl]. rewrite !gcell_ezip, H0, H1, H2, H3, H4, H5, H6, H7, H8.
    reflexivity. }
  split.
  - intros Hs.
    assert (∃ u, gcell ux k l = Some (Num u)) as [u Hu].
    { subst ux. rewrite !gcell_ezip, Hrho, H1, H3, H5, H6, H7, H8.
      cbn [mbind option_bind vadd vsub lift2]. rewrite vdiv_Num by done. eauto. }
    assert (∃ v, gcell uy k l = Some (Num v)) as [v Hv].
    { subst uy. rewrite !gcell_ezip, Hrho, H2, H4, H5, H6, H7, H8.
      cbn [mbind option_bind vadd vsub lift2]. rewrite vdiv_Num by done. eauto. }
    destruct (equilibrium_Num (a0 + a1 + a2 + a3 + a4 + a5 + a6 + a7 + a8) u v)
      as (e0&e1&e2&e3&e4&e5&e6&e7&e8&He&Hsum').
    rewrite (cellsum_cells _ _ _
      ((λ ae : Qc * Qc, Num (ae.1 + w * (ae.2 - ae.1))%Qc) <$>
        [(a0,e0);(a1,e1);(a2,e2);(a3,e3);(a4,e4);(a5,e5);(a6,e6);(a7,e7);(a8,e8)])); [|done|].
    + cbn [fmap list_fmap fst snd]. rewrite sum9_Num. do 2 f_equal.
      replace e0 with ((a0 + a1 + a2 + a3 + a4 + a5 + a6 + a7 + a8)
                       - (e1 + e2 + e3 + e4 + e5 + e6 + e7 + e8))%Qc
        by (rewrite <-Hsum'; ring).
      ring.
    + intros i Hi.
      rewrite cell_ezip, cell_emap, cell_ezip, cell_equilibrium, Hrho, Hu, Hv.
      cbn [mbind option_bind]. rewrite He.
      do 9 (destruct i as [|i];
        [cbn [cell lookup list_lookup mbind option_bind];
         rewrite ?H0, ?H1, ?H2, ?H3, ?H4, ?H5, ?H6, ?H7, ?H8; reflexivity|]).
      lia.
  - intros Hs i Hi.
    assert (Hu : gcell ux k l = Some Undef).
    { subst ux. rewrite !gcell_ezip, Hrho, H1, H3, H5, H6, H7, H8.
      cbn [mbind option_bind vadd vsub lift2]. unfold vdiv.
      by rewrite decide_True by done. }
    assert (Hv : gcell uy k l = Some Undef).
    { subst uy. rewrite !gcell_ezip, Hrho, H2, H4, H5, H6, H7, H8.
      cbn [mbind option_bind vadd vsub lift2]. unfold vdiv.
      by rewrite decide_True by done. }
    rewrite cell_ezip, cell_emap, cell_ezip, cell_equilibrium, Hrho, Hu, Hv.
    cbn [mbind option_bind]. rewrite equilibrium_Undef.
    do 9 (destruct i as [|i];
      [cbn [cell lookup list_lookup mbind option_bind replicate];
       rewrite ?H0, ?H1, ?H2, ?H3, ?H4, ?H5, ?H6, ?H7, ?H8; reflexivity|]).
    lia.
Qed.

(** ** Rolling *)

Section roll.
Context {A : Type}.
Implicit Types (l : list A) (g : list (list A)).

Lemma rotate_nil n : rotate n (@nil A) = [].
Proof. unfold rotate. by rewrite drop_nil, take_nil. Qed.

Lemma rotate_rotate n1 n2 l : rotate n1 (rotate n2 l) = rotate (n1 + n2) l.
Proof.
  destruct (decide (length l = 0)) as [Hl|Hl].
  { apply nil_length_inv in Hl as ->. by rewrite !rotate_nil. }
  apply list_eq_same_length with (length l); rewrite ?length_rotate; [done..|].
  intros i x y Hi.
  assert (rotate_nat_add n1 i (length l) < length l)
    by (apply rotate_nat_add_lt; lia).
  rewrite (lookup_rotate_r (rotate n2 l)), length_rotate by (by rewrite length_rotate).
  rewrite !lookup_rotate_r by done.
  intros H1 H2.
  assert (Some x = Some y) as Hxy; [|by injection Hxy].
  rewrite <-H1, <-H2. f_equal.
  unfold rotate_nat_add. f_equal.
  rewrite Z2Nat.id by (apply Z.mod_pos_bound; lia).
  rewrite Zplus_mod_idemp_r. f_equal. lia.
Qed.

Lemma rotate_multiple n l : n `mod` length l = 0 → rotate n l = l.
Proof. intros H. unfold rotate. rewrite H. cbn. by rewrite app_nil_r. Qed.

Lemma length_roll l s : length (roll l s) = length l.
Proof. apply length_rotate. Qed.

Lemma roll_inv l s : roll (roll l s) (- s) = l.
Proof.
  unfold roll. rewrite length_rotate, rotate_rotate.
  destruct (decide (length l = 0)) as [Hl|Hl].
  { apply nil_length_inv in Hl as ->. by rewrite !rotate_nil. }
  apply rotate_multiple.
  set (n := Z.of_nat (length l)). assert (0 < n)%Z by lia.
  pose proof (Z.mod_pos_bound (- - s) n ltac:(done)).
  pose proof (Z.mod_pos_bound (- s) n ltac:(done)).
  apply Nat2Z.inj. rewrite Nat2Z.inj_mod, Nat2Z.inj_add, !Z2Nat.id by lia.
  fold n. rewrite <-Zplus_mod, Z.opp_involutive.
  replace (s + - s)%Z with 0%Z by lia. done.
Qed.

End roll.

Section roll2.
Context {A : Type}.
Implicit Types (g : list (list A)).

Lemma roll2_inv g (c : Z * Z) : roll2 (roll2 g c) (- c.1, - c.2)%Z = g.
Proof.
  unfold roll2. cbn [fst snd].
  assert (∀ (h : list A → list A) (l : list (list A)) s, h <$> roll l s = roll (h <$> l) s) as Hfmap.
  { intros h l s. unfold roll, rotate.
    by rewrite fmap_app, fmap_drop, fmap_take, length_fmap. }
  rewrite Hfmap, roll_inv, <-list_fmap_compose.
  rewrite <-(list_fmap_id g) at 2. apply list_fmap_ext.
  intros _ c' _. apply roll_inv.
Qed.

Lemma shape2_roll2 nx ny g c : shape2 nx ny g → shape2 nx ny (roll2 g c).
Proof.
  intros [Hx Hy]. unfold roll2, roll. split.
  - by rewrite length_rotate, length_fmap.
  - apply Forall_forall. intros x Hin.
    rewrite elem_of_rotate in Hin. apply list_elem_of_fmap in Hin as (y & -> & Hy').
    rewrite length_rotate. rewrite Forall_forall in Hy. auto.
Qed.
End roll2.

Lemma stream_by_run (c0 c1 c2 c3 c4 c5 c6 c7 c8 : Z * Z) (g0 g1 g2 g3 g4 g5 g6 g7 g8 : grid) :
  stream_by [c0; c1; c2; c3; c4; c5; c6; c7; c8] [g0; g1; g2; g3; g4; g5; g6; g7; g8]
  = (Ok tt, [g0; roll2 g1 c1; roll2 g2 c2; roll2 g3 c3; roll2 g4 c4;
             roll2 g5 c5; roll2 g6 c6; roll2 g7 c7; roll2 g8 c8]).
Proof. reflexivity. Qed.

(** C8: for every array f of 9 channels, stream followed by the shift of
    every channel from 1 to 8 by its negated velocity returns and restores f
    exactly, every channel and cell. *)
Theorem stream_inverse (f : dist) :
  length f = 9 →
  bind stream (λ _, stream_by neg_c_ic) f = (Ok tt, f).
Proof.
  intros Hf.
  do 9 (destruct f as [|? f]; [done|]). destruct f; [|done].
  unfold bind, stream, neg_c_ic, c_ic. cbn [fmap list_fmap].
  rewrite stream_by_run, stream_by_run.
  by rewrite !(roll2_inv _ (_, _)).
Qed.

(** ** Shapes, slices and assignments *)

Lemma shape3_lookup n nx ny (f : dist) i g :
  shape3 n nx ny f → f !! i = Some g → shape2 nx ny g.
Proof. intros [_ Hf] Hg. rewrite Forall_lookup in Hf. eauto. Qed.

Lemma shape3_len n nx ny (f : dist) :
  shape3 n nx ny f → 0 < n → 0 < nx → len0 f = n ∧ len1 f = nx ∧ len2 f = ny.
Proof.
  intros [Hn Hf] ? ?. unfold len0, len1, len2.
  destruct f as [|g f]; [cbn in Hn; lia|].
  apply Forall_cons in Hf as [[Hx Hy] _]. cbn.
  destruct g as [|c g]; [cbn in Hx; lia|].
  apply Forall_cons in Hy as [Hy _]. done.
Qed.

Lemma shape3_total n nx ny (f : dist) i :
  shape3 n nx ny f → i < n → shape2 nx ny (f !!! i).
Proof.
  intros Hf Hi. destruct (lookup_lt_is_Some_2 f i) as [g Hg]; [destruct Hf; lia|].
  rewrite (list_lookup_total_correct _ _ _ Hg). eapply shape3_lookup; eauto.
Qed.

Lemma shape_assign n nx ny sel (f : dist) :
  shape3 n nx ny f → shape3 n nx ny (assign sel f).
Proof.
  intros [Hn Hf]. unfold assign. split; [by rewrite length_imap|].
  rewrite Forall_lookup in Hf. apply Forall_lookup. intros i g.
  rewrite list_lookup_imap. destruct (f !! i) as [g'|] eqn:Hg; [|done].
  intros [= <-]. destruct (Hf _ _ Hg) as [Hx Hy]. split; [by rewrite length_imap|].
  rewrite Forall_lookup in Hy. apply Forall_lookup. intros k c.
  rewrite list_lookup_imap. destruct (g' !! k) as [c'|] eqn:Hc; [|done].
  intros [= <-]. rewrite length_imap. eauto.
Qed.

Lemma cell_assign sel (f : dist) i k l :
  cell (assign sel f) i k l = (λ a, default a (sel i k l)) <$> cell f i k l.
Proof.
  unfold cell, gcell, assign. rewrite list_lookup_imap.
  destruct (f !! i) as [g|]; [|done]. cbn. rewrite list_lookup_imap.
  destruct (g !! k) as [c|]; [|done]. cbn. by rewrite list_lookup_imap.
Qed.

Lemma assign_lookup_id sel (f : dist) i :
  (∀ k l, sel i k l = None) → assign sel f !! i = f !! i.
Proof.
  intros Hsel. unfold assign. rewrite list_lookup_imap.
  destruct (f !! i) as [g|]; [|done]. cbn. f_equal.
  rewrite <-(list_fmap_id g) at 2. rewrite <-(imap_const id g).
  apply imap_ext. intros k c _. cbn.
  rewrite <-(list_fmap_id c) at 2. rewrite <-(imap_const id c).
  apply imap_ext. intros l a _. by rewrite Hsel.
Qed.

Lemma cell_cellv n nx ny (f : dist) i k l :
  shape3 n nx ny f → i < n → k < nx → l < ny → cell f i k l = Some (cellv f i k l).
Proof.
  intros Hf Hi Hk Hl.
  destruct (cell_lt_Some _ _ _ _ _ _ _ Hf Hi Hk Hl) as [a Ha]. rewrite Ha. f_equal.
  unfold cell, gcell, cellv in *.
  destruct (f !! i) as [g|] eqn:Hg; [|done]. cbn in Ha.
  destruct (g !! k) as [c|] eqn:Hc; [|done]. cbn in Ha.
  rewrite (list_lookup_total_correct _ _ _ Hg), (list_lookup_total_correct _ _ _ Hc).
  by rewrite (list_lookup_total_correct _ _ _ Ha).
Qed.

Section slices.
Context (n nx ny : nat) (f : dist).
Context (Hf : shape3 n nx ny f).

Lemma length_slice_l j : length (slice_l j f) = n.
Proof. unfold slice_l. rewrite length_fmap. by destruct Hf. Qed.
Lemma length_slice_k j : length (slice_k j f) = n.
Proof. unfold slice_k. rewrite length_fmap. by destruct Hf. Qed.

Lemma slice_l_total j i :
  i < n → slice_l j f !!! i = (λ c : vec, c !!! j) <$> (f !!! i).
Proof.
  intros Hi. unfold slice_l. apply list_lookup_total_correct.
  rewrite list_lookup_fmap.
  destruct (lookup_lt_is_Some_2 f i) as [g Hg]; [destruct Hf; lia|].
  by rewrite Hg, (list_lookup_total_correct _ _ _ Hg).
Qed.

Lemma length_row_l j i : i < n → length ((λ c : vec, c !!! j) <$> (f !!! i)) = nx.
Proof.
  intros Hi. rewrite length_fmap. by destruct (shape3_total _ _ _ _ _ Hf Hi).
Qed.

Lemma row_l_lookup j i k :
  i < n → j < ny → ((λ c : vec, c !!! j) <$> (f !!! i)) !! k = cell f i k j.
Proof.
  intros Hi Hj. rewrite list_lookup_fmap. unfold cell, gcell.
  destruct (lookup_lt_is_Some_2 f i) as [g Hg]; [destruct Hf; lia|].
  rewrite Hg, (list_lookup_total_correct _ _ _ Hg). cbn.
  destruct (g !! k) as [c|] eqn:Hc; [|done]. cbn.
  destruct (shape3_lookup _ _ _ _ _ _ Hf Hg) as [_ Hy].
  rewrite Forall_lookup in Hy.
  destruct (lookup_lt_is_Some_2 c j) as [a Ha]; [by rewrite (Hy _ _ Hc)|].
  by rewrite Ha, (list_lookup_total_correct _ _ _ Ha).
Qed.

Lemma slice_k_total j i : i < n → slice_k j f !!! i = (f !!! i) !!! j.
Proof.
  intros Hi. unfold slice_k. apply list_lookup_total_correct.
  rewrite list_lookup_fmap.
  destruct (lookup_lt_is_Some_2 f i) as [g Hg]; [destruct Hf; lia|].
  by rewrite Hg, (list_lookup_total_correct _ _ _ Hg).
Qed.

Lemma length_row_k j i : i < n → j < nx → length ((f !!! i) !!! j) = ny.
Proof.
  intros Hi Hj. destruct (shape3_total _ _ _ _ _ Hf Hi) as [Hx Hy].
  destruct (lookup_lt_is_Some_2 (f !!! i) j) as [c Hc]; [lia|].
  rewrite (list_lookup_total_correct _ _ _ Hc).
  rewrite Forall_lookup in Hy. eauto.
Qed.

Lemma row_k_lookup j i l : i < n → j < nx → ((f !!! i) !!! j) !! l = cell f i j l.
Proof.
  intros Hi Hj. unfold cell, gcell.
  destruct (lookup_lt_is_Some_2 f i) as [g Hg]; [destruct Hf; lia|].
  rewrite Hg, (list_lookup_total_correct _ _ _ Hg). cbn.
  destruct (shape3_lookup _ _ _ _ _ _ Hf Hg) as [Hx _].
  destruct (lookup_lt_is_Some_2 g j) as [c Hc]; [lia|].
  by rewrite Hc, (list_lookup_total_correct _ _ _ Hc).
Qed.
End slices.

(** ** Running the store operations on an array of known shape *)

Lemma bind_ok {St A B} (m : M St A) (k : A → M St B) s a s' :
  m s = (Ok a, s') → bind m k s = k a s'.
Proof. intros H. unfold bind. by rewrite H. Qed.

Lemma fetch_ok {St A} (rd : St → outcome A) s a : rd s = Ok a → fetch rd s = (Ok a, s).
Proof. intros H. unfold fetch. by rewrite H. Qed.

Lemma store_ok {St} (wr : St → outcome St) s s' : wr s = Ok s' → store wr s = (Ok tt, s').
Proof. intros H. unfold store. by rewrite H. Qed.

Lemma lift_ok {St A} (e : outcome A) a (s : St) : e = Ok a → lift e s = (Ok a, s).
Proof. by intros ->. Qed.

Lemma index_0 n : 0 < n → index n 0 = Ok 0.
Proof. intros. unfold index. by rewrite decide_True by lia. Qed.

Lemma index_m1 n : 0 < n → index n (-1) = Ok (n - 1).
Proof.
  intros. unfold index. rewrite decide_False, decide_True by lia. f_equal. lia.
Qed.

Lemma index_lt n k j : index n k = Ok j → j < n.
Proof. unfold index. repeat case_decide; intros; simplify_eq; lia. Qed.

Lemma getitem_ok {A} `{Inhabited A} (l : list A) k j :
  index (length l) k = Ok j → getitem l k = Ok (l !!! j).
Proof. intros Hj. unfold getitem. by rewrite Hj. Qed.

Lemma length_emap_vec (h : val → val) (v : vec) : length (emap h v) = length v.
Proof. cbn. by rewrite length_fmap. Qed.
Lemma length_ezip_vec (h : val → val → val) (v1 v2 : vec) :
  length v1 = length v2 → length (ezip h v1 v2) = length v1.
Proof. intros Hl. cbn. rewrite length_zip_with. lia. Qed.
Lemma length_ezip_vec_n (h : val → val → val) (v1 v2 : vec) n :
  length v1 = n → length v2 = n → length (ezip h v1 v2) = n.
Proof. intros H1 H2. rewrite length_ezip_vec; congruence. Qed.
Lemma length_emap_vec_n (h : val → val) (v : vec) n :
  length v = n → length (emap h v) = n.
Proof. intros H1. by rewrite length_emap_vec. Qed.
Lemma lookup_emap_vec (h : val → val) (v : vec) k : emap h v !! k = h <$> v !! k.
Proof. cbn. by rewrite list_lookup_fmap. Qed.
Lemma lookup_ezip_vec (h : val → val → val) (v1 v2 : vec) k :
  ezip h v1 v2 !! k = a ← v1 !! k; b ← v2 !! k; Some (h a b).
Proof. cbn. rewrite lookup_zip_with. by destruct (v1 !! k). Qed.

Section run.
Context (nx ny : nat) (Hnx : 0 < nx) (Hny : 0 < ny).
Implicit Types (s : dist).

Lemma get_l_ok s l j :
  shape3 9 nx ny s → index ny l = Ok j → fetch (get_l l) s = (Ok (slice_l j s), s).
Proof.
  intros Hs Hj. apply fetch_ok. unfold get_l.
  destruct (shape3_len _ _ _ _ Hs) as (_ & _ & ->); [lia..|]. by rewrite Hj.
Qed.

Lemma get_k_ok s k j :
  shape3 9 nx ny s → index nx k = Ok j → fetch (get_k k) s = (Ok (slice_k j s), s).
Proof.
  intros Hs Hj. apply fetch_ok. unfold get_k.
  destruct (shape3_len _ _ _ _ Hs) as (_ & -> & _); [lia..|]. by rewrite Hj.
Qed.

Lemma get_il_ok s i l i' j :
  shape3 9 nx ny s → index 9 i = Ok i' → index ny l = Ok j →
  fetch (get_il i l) s = (Ok ((λ c : vec, c !!! j) <$> (s !!! i')), s).
Proof.
  intros Hs Hi Hj. apply fetch_ok. unfold get_il.
  destruct (shape3_len _ _ _ _ Hs) as (Hn & _ & ->); [lia..|].
  rewrite (getitem_ok _ _ i') by (by rewrite <-Hn in Hi). cbn. by rewrite Hj.
Qed.

Lemma put_il_ok s i l e v i' l' :
  shape3 9 nx ny s → e = Ok v → length v = nx →
  index 9 i = Ok i' → index ny l = Ok l' →
  put_il i l e s = (Ok tt, assign (sel_il i' l' v) s).
Proof.
  intros Hs -> Hv Hi Hl. unfold put_il.
  erewrite bind_ok by (by apply lift_ok). apply store_ok. unfold set_il.
  destruct (shape3_len _ _ _ _ Hs) as (-> & -> & ->); [lia..|].
  rewrite Hi, Hl. cbn. by rewrite decide_True.
Qed.

Lemma put_ik_ok s i k e v i' k' :
  shape3 9 nx ny s → e = Ok v → length v = ny →
  index 9 i = Ok i' → index nx k = Ok k' →
  put_ik i k e s = (Ok tt, assign (sel_ik i' k' v) s).
Proof.
  intros Hs -> Hv Hi Hk. unfold put_ik.
  erewrite bind_ok by (by apply lift_ok). apply store_ok. unfold set_ik.
  destruct (shape3_len _ _ _ _ Hs) as (-> & -> & ->); [lia..|].
  rewrite Hi, Hk. cbn. by rewrite decide_True.
Qed.

Lemma put_ikl_ok s i k l e x i' k' l' :
  shape3 9 nx ny s → e = Ok x →
  index 9 i = Ok i' → index nx k = Ok k' → index ny l = Ok l' →
  put_ikl i k l e s = (Ok tt, assign (sel_ikl i' k' l' x) s).
Proof.
  intros Hs -> Hi Hk Hl. unfold put_ikl.
  erewrite bind_ok by (by apply lift_ok). apply store_ok. unfold set_ikl.
  destruct (shape3_len _ _ _ _ Hs) as (-> & -> & ->); [lia..|].
  by rewrite Hi, Hk, Hl.
Qed.

Lemma stream_ok s :
  shape3 9 nx ny s → stream s = (Ok tt, (stream s).2) ∧ shape3 9 nx ny (stream s).2.
Proof.
  intros [Hn Hs].
  do 9 (destruct s as [|? s]; [done|]). destruct s; [|done].
  unfold stream, c_ic. rewrite stream_by_run. split; [done|]. cbn [snd].
  split; [done|].
  repeat (apply Forall_cons in Hs as [? Hs]).
  repeat (apply Forall_cons; split); auto using shape2_roll2.
Qed.
End run.

(** ** The writes of [stream_and_bounce_back], in order *)

Ltac shape_tac := repeat apply shape_assign; assumption.
Ltac index_tac :=
  first [ apply index_0; lia | apply index_m1; lia
        | apply (index_nat 9 1); lia | apply (index_nat 9 2); lia
        | apply (index_nat 9 3); lia | apply (index_nat 9 4); lia
        | apply (index_nat 9 5); lia | apply (index_nat 9 6); lia
        | apply (index_nat 9 7); lia | apply (index_nat 9 8); lia ].

Lemma stream_and_bounce_back_run nx ny (f : dist) (u0 : val) :
  0 < nx → 0 < ny → shape3 9 nx ny f →
  let top := ny - 1 in
  let right := nx - 1 in
  let fb := slice_l 0 f in
  let ft := slice_l top f in
  let fl := slice_k 0 f in
  let fr := slice_k right f in
  let s0 := (stream f).2 in
  let s1 := assign (sel_il 2 0 (fb !!! 4)) s0 in
  let s2 := assign (sel_il 5 0 (fb !!! 7)) s1 in
  let s3 := assign (sel_il 6 0 (fb !!! 8)) s2 in
  let row (i : nat) : vec := (λ c : vec, c !!! top) <$> (s3 !!! i) in
  let t_NW : vec := ft !!! 6 in
  let t_N : vec := ft !!! 2 in
  let t_NE : vec := ft !!! 5 in
  let f_NW := row 6 in let f_N := row 2 in let f_NE := row 5 in
  let f_W := row 3 in let f_0 := row 0 in let f_E := row 1 in
  let rho : vec := (t_NW + t_N + t_NE + f_NW + f_N + f_NE + f_W + f_0 + f_E)%arr in
  let s4 := assign (sel_il 4 top (ft !!! 2)) s3 in
  let s5 := assign (sel_il 8 top (t_NW + 6 * w_5678 ·* rho *· u0)%arr) s4 in
  let s6 := assign (sel_il 7 top (t_NE - 6 * w_5678 ·* rho *· u0)%arr) s5 in
  let s7 := assign (sel_ik 1 0 (fl !!! 3)) s6 in
  let s8 := assign (sel_ik 5 0 (fl !!! 7)) s7 in
  let s9 := assign (sel_ik 8 0 (fl !!! 6)) s8 in
  let s10 := assign (sel_ik 3 right (fr !!! 1)) s9 in
  let s11 := assign (sel_ik 6 right (fr !!! 8)) s10 in
  let s12 := assign (sel_ik 7 right (fr !!! 5)) s11 in
  let s13 := assign (sel_ikl 2 0 0 ((fb !!! 4) !!! 0)) s12 in
  let s14 := assign (sel_ikl 1 0 0 ((fb !!! 3) !!! 0)) s13 in
  let s15 := assign (sel_ikl 5 0 0 ((fb !!! 7) !!! 0)) s14 in
  let s16 := assign (sel_ikl 2 right 0 ((fb !!! 4) !!! right)) s15 in
  let s17 := assign (sel_ikl 3 right 0 ((fb !!! 1) !!! right)) s16 in
  let s18 := assign (sel_ikl 6 right 0 ((fb !!! 8) !!! right)) s17 in
  let s19 := assign (sel_ikl 4 0 top ((ft !!! 2) !!! 0)) s18 in
  let s20 := assign (sel_ikl 1 0 top ((ft !!! 3) !!! 0)) s19 in
  let s21 := assign (sel_ikl 8 0 top ((ft !!! 6) !!! 0)) s20 in
  let s22 := assign (sel_ikl 4 right top ((ft !!! 2) !!! right)) s21 in
  let s23 := assign (sel_ikl 3 right top ((ft !!! 1) !!! right)) s22 in
  let s24 := assign (sel_ikl 7 right top ((ft !!! 5) !!! right)) s23 in
  stream_and_bounce_back u0 f = (Ok tt, s24).
Proof.
  intros Hnx Hny Hf. intros.
  destruct (stream_ok nx ny f Hf) as [Hrun Hs0]. fold s0 in Hrun, Hs0.
  unfold stream_and_bounce_back.
  erewrite bind_ok by (apply (get_l_ok nx ny); [lia..|done|index_tac]).
  erewrite bind_ok by (apply (get_l_ok nx ny); [lia..|done|index_tac]).
  erewrite bind_ok by (apply (get_k_ok nx ny); [lia..|done|index_tac]).
  erewrite bind_ok by (apply (get_k_ok nx ny); [lia..|done|index_tac]).
  fold top right fb ft fl fr.
  erewrite bind_ok by exact Hrun.
  assert (Hlen_b : ∀ i, i < 9 → length (fb !!! i) = nx).
  { intros i Hi. unfold fb. rewrite (slice_l_total _ _ _ _ Hf) by lia.
    by apply (length_row_l _ _ _ _ Hf). }
  assert (Hlen_t : ∀ i, i < 9 → length (ft !!! i) = nx).
  { intros i Hi. unfold ft. rewrite (slice_l_total _ _ _ _ Hf) by lia.
    by apply (length_row_l _ _ _ _ Hf). }
  assert (Hlen_l : ∀ i, i < 9 → length (fl !!! i) = ny).
  { intros i Hi. unfold fl. rewrite (slice_k_total _ _ _ _ Hf) by lia.
    apply (length_row_k _ _ _ _ Hf); lia. }
  assert (Hlen_r : ∀ i, i < 9 → length (fr !!! i) = ny).
  { intros i Hi. unfold fr. rewrite (slice_k_total _ _ _ _ Hf) by lia.
    apply (length_row_k _ _ _ _ Hf); lia. }
  assert (Hb9 : length fb = 9) by apply (length_slice_l _ _ _ _ Hf).
  assert (Ht9 : length ft = 9) by apply (length_slice_l _ _ _ _ Hf).
  assert (Hl9 : length fl = 9) by apply (length_slice_k _ _ _ _ Hf).
  assert (Hr9 : length fr = 9) by apply (length_slice_k _ _ _ _ Hf).
  assert (Hitem : ∀ (x : list vec) (c : Z) (j : nat),
    length x = 9 → index 9 c = Ok j → x.[c] = Ok (x !!! j)).
  { intros x c j Hx Hj. apply getitem_ok. by rewrite Hx. }
  assert (Hitem2 : ∀ (x : list vec) (c k : Z) (j m n : nat),
    length x = 9 → index 9 c = Ok j → length (x !!! j) = n → index n k = Ok m →
    x.[c, k] = Ok ((x !!! j) !!! m)).
  { intros x c k j m n Hx Hj Hxj Hm. rewrite (Hitem x c j Hx Hj). cbn [obind].
    apply getitem_ok. by rewrite Hxj. }
  (* Bottom boundary *)
  erewrite bind_ok by
    (eapply (put_il_ok nx ny); [lia|lia|shape_tac|eapply Hitem; [done|index_tac]|apply Hlen_b; lia|index_tac..]).
  erewrite bind_ok by
    (eapply (put_il_ok nx ny); [lia|lia|shape_tac|eapply Hitem; [done|index_tac]|apply Hlen_b; lia|index_tac..]).
  erewrite bind_ok by
    (eapply (put_il_ok nx ny); [lia|lia|shape_tac|eapply Hitem; [done|index_tac]|apply Hlen_b; lia|index_tac..]).
  fold s1 s2 s3.
  assert (Hs3 : shape3 9 nx ny s3) by shape_tac.
  (* Top boundary - sliding lid *)
  do 3 erewrite bind_ok by (apply lift_ok; eapply Hitem; [done|index_tac]).
  do 6 erewrite bind_ok by (eapply (get_il_ok nx ny); [lia|lia|exact Hs3|index_tac..]).
  fold top row t_NW t_N t_NE. fold f_NW f_N f_NE f_W f_0 f_E. fold rho.
  assert (Hlen_row : ∀ i, i < 9 → length (row i) = nx).
  { intros i Hi. by apply (length_row_l _ _ _ _ Hs3). }
  assert (Hlen_rho : length rho = nx).
  { unfold rho, t_NW, t_N, t_NE, f_NW, f_N, f_NE, f_W, f_0, f_E.
    repeat apply length_ezip_vec_n; first [apply Hlen_t | apply Hlen_row]; lia. }
  erewrite bind_ok by
    (eapply (put_il_ok nx ny); [lia|lia|shape_tac|eapply Hitem; [done|index_tac]|apply Hlen_t; lia|index_tac..]).
  erewrite bind_ok by
    (eapply (put_il_ok nx ny);
     [lia|lia|shape_tac
     |rewrite (Hitem ft D.NW 6), (getitem_ok w_i D.SE 8) by (done || index_tac); reflexivity
     |apply length_ezip_vec_n; [apply Hlen_t; lia|by do 2 apply length_emap_vec_n]
     |index_tac..]).
  erewrite bind_ok by
    (eapply (put_il_ok nx ny);
     [lia|lia|shape_tac
     |rewrite (Hitem ft D.NE 5), (getitem_ok w_i D.SW 7) by (done || index_tac); reflexivity
     |apply length_ezip_vec_n; [apply Hlen_t; lia|by do 2 apply length_emap_vec_n]
     |index_tac..]).
  (* Left and right boundary *)
  do 3 erewrite bind_ok by
    (eapply (put_ik_ok nx ny);
     [lia|lia|shape_tac|eapply Hitem; [done|index_tac]|apply Hlen_l; lia|index_tac..]).
  do 3 erewrite bind_ok by
    (eapply (put_ik_ok nx ny);
     [lia|lia|shape_tac|eapply Hitem; [done|index_tac]|apply Hlen_r; lia|index_tac..]).
  (* Corners *)
  do 6 erewrite bind_ok by
    (eapply (put_ikl_ok nx ny);
     [lia|lia|shape_tac
     |eapply Hitem2; [done|index_tac|apply Hlen_b; lia|index_tac]
     |index_tac..]).
  do 5 erewrite bind_ok by
    (eapply (put_ikl_ok nx ny);
     [lia|lia|shape_tac
     |eapply Hitem2; [done|index_tac|apply Hlen_t; lia|index_tac]
     |index_tac..]).
  eapply (put_ikl_ok nx ny);
     [lia|lia|shape_tac
     |eapply Hitem2; [done|index_tac|apply Hlen_t; lia|index_tac]
     |index_tac..].
Qed.

Section slice_cells.
Context (n nx ny : nat) (f : dist) (Hf : shape3 n nx ny f).

Lemma slice_l_lookup j i k :
  i < n → j < ny → (slice_l j f !!! i) !! k = cell f i k j.
Proof.
  intros Hi Hj. rewrite (slice_l_total _ _ _ _ Hf) by done.
  by apply (row_l_lookup _ _ _ _ Hf).
Qed.

Lemma slice_k_lookup j i l :
  i < n → j < nx → (slice_k j f !!! i) !! l = cell f i j l.
Proof.
  intros Hi Hj. rewrite (slice_k_total _ _ _ _ Hf) by done.
  by apply (row_k_lookup _ _ _ _ Hf).
Qed.

Lemma slice_l_cellv j i k :
  i < n → j < ny → k < nx → (slice_l j f !!! i) !!! k = cellv f i k j.
Proof.
  intros Hi Hj Hk. apply list_lookup_total_correct.
  rewrite slice_l_lookup by done. by apply (cell_cellv n nx ny).
Qed.
End slice_cells.

Ltac sel_tac :=
  unfold sel_il, sel_ik, sel_ikl;
  repeat first [ rewrite decide_True by lia | rewrite decide_False by lia ].

(** C3 (amended): on an array of at least two rows, after
    stream_and_bounce_back(f, u0), at every cell of the top row channel S
    holds the pre-stream value of channel N; channel SE holds the pre-stream
    value of channel NW plus 6 w_SE rho_wall u0, except in the left corner
    (x = 0), where it holds the pre-stream value of NW alone; channel SW
    holds the pre-stream value of channel NE minus 6 w_SW rho_wall u0,
    except in the right corner (x = last), where it holds the pre-stream
    value of NE alone. *)
Theorem lid_top_row nx ny (f : dist) (u0 : val) (k : nat) :
  shape3 9 nx ny f → 2 ≤ ny → k < nx →
  let top := ny - 1 in
  let f' := (stream_and_bounce_back u0 f).2 in
  (stream_and_bounce_back u0 f).1 = Ok tt
  ∧ cell f' 4 k top = Some (cellv f 2 k top)
  ∧ cell f' 8 k top
    = Some (if decide (k = 0) then cellv f 6 k top
            else vadd (cellv f 6 k top) (lid_term f k top u0))
  ∧ cell f' 7 k top
    = Some (if decide (k = nx - 1) then cellv f 5 k top
            else vsub (cellv f 5 k top) (lid_term f k top u0)).
Proof.
  intros Hf Hny Hk top f'. unfold lid_term, rho_wall.
  set (s0 := (stream f).2).
  set (pre := λ i : nat, cellv f i k top).
  set (post := λ i : nat, cellv s0 i k top).
  change (cellv f 2 k top) with (pre 2). change (cellv f 6 k top) with (pre 6).
  change (cellv f 5 k top) with (pre 5).
  change (cellv s0 6 k top) with (post 6). change (cellv s0 2 k top) with (post 2).
  change (cellv s0 5 k top) with (post 5). change (cellv s0 3 k top) with (post 3).
  change (cellv s0 0 k top) with (post 0). change (cellv s0 1 k top) with (post 1).
  cbv zeta.
  assert (Hnx : 0 < nx) by lia.
  assert (Htop : top < ny) by (unfold top; lia).
  destruct (stream_ok nx ny f Hf) as [_ Hs0]. fold s0 in Hs0.
  pose proof (stream_and_bounce_back_run nx ny f u0 Hnx ltac:(lia) Hf) as Hrun.
  cbv zeta in Hrun. fold top s0 in Hrun.
  unfold f'. rewrite Hrun. cbn [fst snd]. clear Hrun f'.
  split; [done|].
  assert (Hpre : ∀ i, i < 9 → (slice_l top f !!! i) !! k = Some (pre i)).
  { intros i Hi. rewrite (slice_l_lookup _ _ _ _ Hf) by done. by apply (cell_cellv 9 nx ny). }
  assert (Hpost : ∀ i, i < 9 → cell s0 i k top = Some (post i)).
  { intros i Hi. by apply (cell_cellv 9 nx ny). }
  assert (Hrow : ∀ i, i < 9 →
    ((λ c : vec, c !!! top) <$>
       (assign (sel_il 6 0 (slice_l 0 f !!! 8))
          (assign (sel_il 5 0 (slice_l 0 f !!! 7))
             (assign (sel_il 2 0 (slice_l 0 f !!! 4)) s0)) !!! i)) !! k = Some (post i)).
  { intros i Hi. rewrite (row_l_lookup 9 nx ny) by (done || shape_tac).
    rewrite !cell_assign, Hpost by done. sel_tac. done. }
  assert (Hcorner : ∀ i m, i < 9 → m = k → (slice_l top f !!! i) !!! m = pre i).
  { intros i m Hi ->. by apply (slice_l_cellv 9 nx ny). }
  assert (Hleft : ∀ i, i < 9 → k = 0 → (slice_k 0 f !!! i) !! top = Some (pre i)).
  { intros i Hi Hk0. rewrite (slice_k_lookup _ _ _ _ Hf) by done.
    unfold pre. rewrite Hk0. apply (cell_cellv 9 nx ny); done || lia. }
  assert (Hright : ∀ i, i < 9 → k = nx - 1 →
    (slice_k (nx - 1) f !!! i) !! top = Some (pre i)).
  { intros i Hi Hkr. rewrite (slice_k_lookup _ _ _ _ Hf) by lia.
    unfold pre. rewrite Hkr. apply (cell_cellv 9 nx ny); done || lia. }
  assert (Htop0 : top ≠ 0) by (unfold top; lia).
  assert (Hsum : ∀ (v1 v2 v3 v4 v5 v6 v7 v8 v9 : vec) (a1 a2 a3 a4 a5 a6 a7 a8 a9 : val),
    v1 !! k = Some a1 → v2 !! k = Some a2 → v3 !! k = Some a3 →
    v4 !! k = Some a4 → v5 !! k = Some a5 → v6 !! k = Some a6 →
    v7 !! k = Some a7 → v8 !! k = Some a8 → v9 !! k = Some a9 →
    (v1 + v2 + v3 + v4 + v5 + v6 + v7 + v8 + v9)%arr !! k
    = Some (a1 + a2 + a3 + a4 + a5 + a6 + a7 + a8 + a9)%arr).
  { intros * H1 H2 H3 H4 H5 H6 H7 H8 H9.
    rewrite !lookup_ezip_vec, H1, H2, H3, H4, H5, H6, H7, H8, H9. done. }
  rewrite !cell_assign, !Hpost by lia. cbn [fmap option_fmap option_map].
  unfold sel_il, sel_ik, sel_ikl.
  split; [|split].
  - destruct (decide (k = 0)) as [Hk0|Hk0]; destruct (decide (k = nx - 1)) as [Hkr|Hkr];
    repeat first [ rewrite decide_True by lia | rewrite decide_False by lia ].
    all: rewrite ?Hpre, ?Hcorner by lia; cbn [default from_option].
    all: done.
  - destruct (decide (k = 0)) as [Hk0|Hk0]; destruct (decide (k = nx - 1)) as [Hkr|Hkr];
    repeat first [ rewrite decide_True by lia | rewrite decide_False by lia ].
    all: rewrite lookup_ezip_vec, !lookup_emap_vec;
      erewrite Hsum by (first [apply Hpre | apply Hrow]; lia).
    all: rewrite ?Hpre, ?Hcorner, ?Hleft, ?Hright by lia;
      cbn [default from_option mbind option_bind fmap option_fmap option_map].
    all: done.
  - destruct (decide (k = 0)) as [Hk0|Hk0]; destruct (decide (k = nx - 1)) as [Hkr|Hkr];
    repeat first [ rewrite decide_True by lia | rewrite decide_False by lia ].
    all: rewrite lookup_ezip_vec, !lookup_emap_vec;
      erewrite Hsum by (first [apply Hpre | apply Hrow]; lia).
    all: rewrite ?Hpre, ?Hcorner, ?Hleft, ?Hright by lia;
      cbn [default from_option mbind option_bind fmap option_fmap option_map].
    all: done.
Qed.

(** ** What a call leaves untouched *)

Section preserves.
Context {St : Type} (P : St → Prop).

Lemma preserves_ret {A} (a : A) : preserves P (ret a).
Proof. by intros s Hs. Qed.

Lemma preserves_lift {A} (e : outcome A) : preserves P (lift e).
Proof. by intros s Hs. Qed.

Lemma preserves_fetch {A} (rd : St → outcome A) : preserves P (fetch rd).
Proof. by intros s Hs. Qed.

Lemma preserves_get : preserves P get.
Proof. by intros s Hs. Qed.

Lemma preserves_bind {A B} (m : M St A) (k : A → M St B) :
  preserves P m → (∀ a, preserves P (k a)) → preserves P (bind m k).
Proof.
  intros Hm Hk s Hs. unfold bind. specialize (Hm s Hs).
  destruct (m s) as [[a|e] s']; cbn in *; [by apply Hk|done].
Qed.

Lemma preserves_store (wr : St → outcome St) :
  (∀ s s', P s → wr s = Ok s' → P s') → preserves P (store wr).
Proof.
  intros Hwr s Hs. unfold store. destruct (wr s) as [s'|e] eqn:Hw; cbn; eauto.
Qed.

Lemma preserves_for {B} (l : list B) (body : B → M St unit) :
  (∀ b, b ∈ l → preserves P (body b)) → preserves P (for_ l body).
Proof.
  induction l as [|b l IH]; intros Hb; cbn.
  - apply preserves_ret.
  - apply preserves_bind; [apply Hb; left|intros _; apply IH].
    intros b' Hb'. apply Hb. by right.
Qed.
End preserves.

Lemma index_pos n k j : index n k = Ok j → (0 < k)%Z → 0 < j.
Proof. unfold index. repeat case_decide; intros; simplify_eq; lia. Qed.

Section rest_channel.
Context (g0 : option grid).
Local Abbreviation P := (rest_is g0).

Lemma rest_assign sel (s : dist) :
  (∀ k l, sel 0 k l = None) → P s → P (assign sel s).
Proof. intros Hsel Hs. unfold rest_is. by rewrite assign_lookup_id. Qed.

Lemma rest_put_il i l e : (0 < i)%Z → preserves P (put_il i l e).
Proof.
  intros Hi. apply preserves_bind; [apply preserves_lift|]. intros v.
  apply preserves_store. intros s s' Hs. unfold set_il.
  destruct (index (len0 s) i) as [i'|] eqn:Hi'; [|done].
  destruct (index (len2 s) l) as [l'|]; [|done]. cbn.
  case_decide; [|done]. intros [= <-]. apply rest_assign; [|done].
  intros k' l''. unfold sel_il. apply index_pos in Hi'; [|done].
  rewrite decide_False; [done|lia].
Qed.

Lemma rest_put_ik i k e : (0 < i)%Z → preserves P (put_ik i k e).
Proof.
  intros Hi. apply preserves_bind; [apply preserves_lift|]. intros v.
  apply preserves_store. intros s s' Hs. unfold set_ik.
  destruct (index (len0 s) i) as [i'|] eqn:Hi'; [|done].
  destruct (index (len1 s) k) as [k'|]; [|done]. cbn.
  case_decide; [|done]. intros [= <-]. apply rest_assign; [|done].
  intros k'' l'. unfold sel_ik. apply index_pos in Hi'; [|done].
  rewrite decide_False; [done|lia].
Qed.

Lemma rest_put_ikl i k l e : (0 < i)%Z → preserves P (put_ikl i k l e).
Proof.
  intros Hi. apply preserves_bind; [apply preserves_lift|]. intros v.
  apply preserves_store. intros s s' Hs. unfold set_ikl.
  destruct (index (len0 s) i) as [i'|] eqn:Hi'; [|done].
  destruct (index (len1 s) k) as [k'|]; [|done].
  destruct (index (len2 s) l) as [l'|]; [|done]. cbn.
  intros [= <-]. apply rest_assign; [|done].
  intros k'' l''. unfold sel_ikl. apply index_pos in Hi'; [|done].
  rewrite decide_False; [done|lia].
Qed.

Lemma rest_stream_by c : preserves P (stream_by c).
Proof.
  apply preserves_for. intros i Hi.
  apply elem_of_seqZ in Hi.
  apply preserves_bind; [apply preserves_get|]. intros f.
  apply preserves_bind; [apply preserves_lift|]. intros f_i.
  apply preserves_bind; [apply preserves_lift|]. intros c_i.
  apply preserves_store. intros s s' Hs. unfold setitem.
  destruct (index (length s) i) as [j|] eqn:Hj; [|done]. cbn.
  intros [= <-]. apply index_pos in Hj; [|lia].
  unfold rest_is. rewrite list_lookup_insert_ne by lia. done.
Qed.

Lemma rest_stream_and_bounce_back u0 : preserves P (stream_and_bounce_back u0).
Proof.
  unfold stream_and_bounce_back, stream.
  repeat first
    [ apply rest_put_il; reflexivity
    | apply rest_put_ik; reflexivity
    | apply rest_put_ikl; reflexivity
    | apply rest_stream_by
    | apply preserves_fetch
    | apply preserves_lift
    | apply preserves_bind; [|intros ?] ].
Qed.
End rest_channel.

(** C10: stream_and_bounce_back never writes the rest channel: whatever the
    array and the lid speed, and whether the call returns or raises, channel
    0 of the array is afterwards what it was before. *)
Theorem stream_and_bounce_back_rest_channel (f : dist) (u0 : val) :
  (stream_and_bounce_back u0 f).2 !! 0 = f !! 0.
Proof. by apply (rest_stream_and_bounce_back (f !! 0) u0 f). Qed.

(** ** Every channel of a cell after [stream_and_bounce_back] *)

Lemma cell_assign_other sel (f : dist) i k l :
  sel i k l = None → cell (assign sel f) i k l = cell f i k l.
Proof. intros H. rewrite cell_assign, H. by destruct (cell f i k l). Qed.

Lemma sel_il_other i' l' v i k l : i ≠ i' → sel_il i' l' v i k l = None.
Proof. intros. unfold sel_il. by rewrite decide_False by tauto. Qed.
Lemma sel_ik_other i' k' v i k l : i ≠ i' → sel_ik i' k' v i k l = None.
Proof. intros. unfold sel_ik. by rewrite decide_False by tauto. Qed.
Lemma sel_ikl_other i' k' l' x i k l : i ≠ i' → sel_ikl i' k' l' x i k l = None.
Proof. intros. unfold sel_ikl. by rewrite decide_False by tauto. Qed.

Ltac other_channels :=
  repeat first
    [ rewrite cell_assign_other
        by (first [apply sel_il_other | apply sel_ik_other | apply sel_ikl_other]; discriminate)
    | rewrite cell_assign ].

Ltac decide_tac :=
  repeat first [ rewrite decide_True by lia | rewrite decide_False by lia ].

Lemma stream_and_bounce_back_cell nx ny (f : dist) (u0 : val) (k l : nat) :
  shape3 9 nx ny f → k < nx → l < ny →
  let top := ny - 1 in
  let rgt := nx - 1 in
  let pre (i : nat) := cellv f i k l in
  let post (i : nat) := cellv (stream f).2 i k l in
  let f' := (stream_and_bounce_back u0 f).2 in
  (stream_and_bounce_back u0 f).1 = Ok tt
  ∧ cell f' 0 k l = Some (post 0)
  ∧ cell f' 1 k l = Some (if decide (k = 0) then pre 3 else post 1)
  ∧ cell f' 2 k l = Some (if decide (l = 0) then pre 4 else post 2)
  ∧ cell f' 3 k l = Some (if decide (k = rgt) then pre 1 else post 3)
  ∧ cell f' 4 k l = Some (if decide (l = top) then pre 2 else post 4)
  ∧ cell f' 5 k l = Some (if decide (l = 0 ∨ k = 0) then pre 7 else post 5)
  ∧ cell f' 6 k l = Some (if decide (l = 0 ∨ k = rgt) then pre 8 else post 6)
  ∧ cell f' 7 k l
    = Some (if decide (k = rgt) then pre 5
            else if decide (l = top)
                 then default (post 7)
                        (ezip vsub (slice_l top f !!! 5) (lid_momentum f top u0) !! k)
                 else post 7)
  ∧ cell f' 8 k l
    = Some (if decide (k = 0) then pre 6
            else if decide (l = top)
                 then default (post 8)
                        (ezip vadd (slice_l top f !!! 6) (lid_momentum f top u0) !! k)
                 else post 8).
Proof.
  intros Hf Hk Hl top rgt pre post f'.
  assert (Hnx : 0 < nx) by lia. assert (Hny : 0 < ny) by lia.
  destruct (stream_ok nx ny f Hf) as [_ Hs0].
  pose proof (stream_and_bounce_back_run nx ny f u0 Hnx Hny Hf) as Hrun.
  cbv zeta in Hrun. unfold f'. rewrite Hrun. cbn [fst snd]. clear Hrun f'.
  split; [done|].
  set (s0 := (stream f).2) in *.
  match goal with |- context [sel_il 8 ?t ?v] =>
    change v with (ezip vadd (slice_l top f !!! 6) (lid_momentum f top u0)) end.
  match goal with |- context [sel_il 7 ?t ?v] =>
    change v with (ezip vsub (slice_l top f !!! 5) (lid_momentum f top u0)) end.
  assert (Hpre : ∀ i, i < 9 → cell f i k l = Some (pre i)).
  { intros i Hi. by apply (cell_cellv 9 nx ny). }
  assert (Hpost : ∀ i, i < 9 → cell s0 i k l = Some (post i)).
  { intros i Hi. by apply (cell_cellv 9 nx ny). }
  assert (Hrow : ∀ i j, i < 9 → j = l → (slice_l j f !!! i) !! k = Some (pre i)).
  { intros i j Hi ->. rewrite (slice_l_lookup _ _ _ _ Hf) by done. by apply Hpre. }
  assert (Hcol : ∀ i j, i < 9 → j = k → (slice_k j f !!! i) !! l = Some (pre i)).
  { intros i j Hi ->. rewrite (slice_k_lookup _ _ _ _ Hf) by done. by apply Hpre. }
  assert (Hcorner : ∀ i j m, i < 9 → j = l → m = k → (slice_l j f !!! i) !!! m = pre i).
  { intros i j m Hi -> ->. by apply (slice_l_cellv 9 nx ny). }
  generalize (lid_momentum f top u0). intros lid.
  repeat split; other_channels; rewrite Hpost by lia;
    cbn [fmap option_fmap option_map]; f_equal;
    unfold sel_il, sel_ik, sel_ikl.
  - destruct (decide (k = 0)) as [Hk0|Hk0];
      destruct (decide (l = 0)) as [Hl0|Hl0]; destruct (decide (l = top)) as [Hlt|Hlt].
    all: decide_tac.
    all: rewrite ?Hrow, ?Hcol, ?Hcorner by (unfold top, rgt in *; lia); cbn [default from_option id].
    all: done.
  - destruct (decide (l = 0)) as [Hl0|Hl0];
      destruct (decide (k = 0)) as [Hk0|Hk0]; destruct (decide (k = rgt)) as [Hkr|Hkr].
    all: decide_tac.
    all: rewrite ?Hrow, ?Hcol, ?Hcorner by (unfold top, rgt in *; lia); cbn [default from_option id].
    all: done.
  - destruct (decide (k = rgt)) as [Hkr|Hkr];
      destruct (decide (l = 0)) as [Hl0|Hl0]; destruct (decide (l = top)) as [Hlt|Hlt].
    all: decide_tac.
    all: rewrite ?Hrow, ?Hcol, ?Hcorner by (unfold top, rgt in *; lia); cbn [default from_option id].
    all: done.
  - destruct (decide (l = top)) as [Hlt|Hlt];
      destruct (decide (k = 0)) as [Hk0|Hk0]; destruct (decide (k = rgt)) as [Hkr|Hkr].
    all: decide_tac.
    all: rewrite ?Hrow, ?Hcol, ?Hcorner by (unfold top, rgt in *; lia); cbn [default from_option id].
    all: done.
  - destruct (decide (l = 0)) as [Hl0|Hl0]; destruct (decide (k = 0)) as [Hk0|Hk0].
    all: decide_tac.
    all: rewrite ?Hrow, ?Hcol, ?Hcorner by (unfold top, rgt in *; lia); cbn [default from_option id].
    all: done.
  - destruct (decide (l = 0)) as [Hl0|Hl0]; destruct (decide (k = rgt)) as [Hkr|Hkr].
    all: decide_tac.
    all: rewrite ?Hrow, ?Hcol, ?Hcorner by (unfold top, rgt in *; lia); cbn [default from_option id].
    all: done.
  - destruct (decide (k = rgt)) as [Hkr|Hkr]; destruct (decide (l = top)) as [Hlt|Hlt].
    all: decide_tac.
    all: rewrite ?Hrow, ?Hcol, ?Hcorner by (unfold top, rgt in *; lia); cbn [default from_option id].
    all: done.
  - destruct (decide (k = 0)) as [Hk0|Hk0]; destruct (decide (l = top)) as [Hlt|Hlt].
    all: decide_tac.
    all: rewrite ?Hrow, ?Hcol, ?Hcorner by (unfold top, rgt in *; lia); cbn [default from_option id].
    all: done.
Qed.

(** ** Wall logic and the cells a process owns *)

Lemma wall_channels_left nb nx ny k l i :
  (left_dst nb < 0)%Z → k = 0 → i ∈ [1; 5; 8] → i ∈ wall_channels nb nx ny k l.
Proof.
  intros ?? Hi. unfold wall_channels. rewrite decide_True by done.
  apply elem_of_app. by left.
Qed.
Lemma wall_channels_right nb nx ny k l i :
  (right_dst nb < 0)%Z → k = nx - 1 → i ∈ [3; 6; 7] → i ∈ wall_channels nb nx ny k l.
Proof.
  intros ?? Hi. unfold wall_channels. rewrite (decide_True (P := _ ∧ k = nx - 1)) by done.
  apply elem_of_app. right. apply elem_of_app. by left.
Qed.
Lemma wall_channels_bottom nb nx ny k l i :
  (bottom_dst nb < 0)%Z → l = 0 → i ∈ [2; 5; 6] → i ∈ wall_channels nb nx ny k l.
Proof.
  intros ?? Hi. unfold wall_channels. rewrite (decide_True (P := _ ∧ l = 0)) by done.
  do 2 (apply elem_of_app; right). apply elem_of_app. by left.
Qed.
Lemma wall_channels_top nb nx ny k l i :
  (top_dst nb < 0)%Z → l = ny - 1 → i ∈ [4; 7; 8] → i ∈ wall_channels nb nx ny k l.
Proof.
  intros ?? Hi. unfold wall_channels. rewrite (decide_True (P := _ ∧ l = ny - 1)) by done.
  do 3 (apply elem_of_app; right). done.
Qed.

(** C4: wall logic reaches the cells a process owns only at edges of its
    local array that are the boundary of the global domain.  For a process
    with any neighbours, at every cell of its local array that is not a
    ghost cell, every channel other than those the wall blocks of the sides
    without a neighbour write at that cell holds after
    stream_and_bounce_back what plain streaming alone gives.  The cells a
    process owns in the layer next to the ghost layer, at an edge that abuts
    a neighbouring process, are such cells: none of them gets a bounce-back
    override from that edge, and none gets any override unless it lies on a
    wall of the global domain. *)
Theorem wall_logic_only_at_walls (nb : neighbours) nx ny (f : dist) (u0 : val) (i k l : nat) :
  shape3 9 nx ny f → i < 9 → k < nx → l < ny →
  ¬ ghost_cell nb nx ny k l →
  i ∉ wall_channels nb nx ny k l →
  (stream_and_bounce_back u0 f).1 = Ok tt
  ∧ cell (stream_and_bounce_back u0 f).2 i k l = cell (stream f).2 i k l.
Proof.
  intros Hf Hi9 Hk Hl Hg Hi.
  destruct (stream_ok nx ny f Hf) as [_ Hs0].
  generalize (stream_and_bounce_back_cell nx ny f u0 k l Hf Hk Hl). cbv zeta.
  intros (Hrun & C0 & C1 & C2 & C3 & C4 & C5 & C6 & C7 & C8).
  split; [done|].
  rewrite (cell_cellv 9 nx ny (stream f).2 i k l) by done.
  assert (HL : k = 0 → (left_dst nb < 0)%Z).
  { intros ?. destruct (Z_lt_dec (left_dst nb) 0); [done|].
    destruct Hg. unfold ghost_cell. left. split; [lia|done]. }
  assert (HR : k = nx - 1 → (right_dst nb < 0)%Z).
  { intros ?. destruct (Z_lt_dec (right_dst nb) 0); [done|].
    destruct Hg. unfold ghost_cell. right; left. split; [lia|done]. }
  assert (HB : l = 0 → (bottom_dst nb < 0)%Z).
  { intros ?. destruct (Z_lt_dec (bottom_dst nb) 0); [done|].
    destruct Hg. unfold ghost_cell. do 2 right; left. split; [lia|done]. }
  assert (HT : l = ny - 1 → (top_dst nb < 0)%Z).
  { intros ?. destruct (Z_lt_dec (top_dst nb) 0); [done|].
    destruct Hg. unfold ghost_cell. do 3 right. split; [lia|done]. }
  assert (WL : k = 0 → i ∉ [1; 5; 8]).
  { intros ? ?. apply Hi. apply wall_channels_left; auto. }
  assert (WR : k = nx - 1 → i ∉ [3; 6; 7]).
  { intros ? ?. apply Hi. apply wall_channels_right; auto. }
  assert (WB : l = 0 → i ∉ [2; 5; 6]).
  { intros ? ?. apply Hi. apply wall_channels_bottom; auto. }
  assert (WT : l = ny - 1 → i ∉ [4; 7; 8]).
  { intros ? ?. apply Hi. apply wall_channels_top; auto. }
  clear Hi Hg HL HR HB HT.
  destruct i as [|[|[|[|[|[|[|[|[|i]]]]]]]]]; [..|lia].
  - by rewrite C0.
  - rewrite C1. clear C0 C1 C2 C3 C4 C5 C6 C7 C8. case_decide; [|done]. destruct WL; [done|repeat constructor].
  - rewrite C2. clear C0 C1 C2 C3 C4 C5 C6 C7 C8. case_decide; [|done]. destruct WB; [done|repeat constructor].
  - rewrite C3. clear C0 C1 C2 C3 C4 C5 C6 C7 C8. case_decide; [|done]. destruct WR; [done|repeat constructor].
  - rewrite C4. clear C0 C1 C2 C3 C4 C5 C6 C7 C8. case_decide; [|done]. destruct WT; [done|repeat constructor].
  - rewrite C5. clear C0 C1 C2 C3 C4 C5 C6 C7 C8. case_decide as H; [|done].
    destruct H; [destruct WB|destruct WL]; first [done | repeat constructor].
  - rewrite C6. clear C0 C1 C2 C3 C4 C5 C6 C7 C8. case_decide as H; [|done].
    destruct H; [destruct WB|destruct WR]; first [done | repeat constructor].
  - rewrite C7. clear C0 C1 C2 C3 C4 C5 C6 C7 C8. case_decide; [destruct WR; first [done | repeat constructor]|].
    case_decide; [|done]. destruct WT; first [done | repeat constructor].
  - rewrite C8. clear C0 C1 C2 C3 C4 C5 C6 C7 C8. case_decide; [destruct WL; first [done | repeat constructor]|].
    case_decide; [|done]. destruct WT; first [done | repeat constructor].
Qed.

(** ** Partitioning *)

Local Open Scope Z_scope.

Lemma right_dst_at ndx ndy px py :
  right_dst (neighbours_at ndx ndy px py) = cart_rank ndx ndy (px + 1) py.
Proof. reflexivity. Qed.
Lemma left_dst_at ndx ndy px py :
  left_dst (neighbours_at ndx ndy px py) = cart_rank ndx ndy (px + -1) py.
Proof. reflexivity. Qed.
Lemma top_dst_at ndx ndy px py :
  top_dst (neighbours_at ndx ndy px py) = cart_rank ndx ndy px (py + 1).
Proof. reflexivity. Qed.
Lemma bottom_dst_at ndx ndy px py :
  bottom_dst (neighbours_at ndx ndy px py) = cart_rank ndx ndy px (py + -1).
Proof. reflexivity. Qed.

Lemma cart_rank_inside ndx ndy px py :
  0 ≤ px < ndx → 0 ≤ py < ndy → 0 ≤ cart_rank ndx ndy px py.
Proof. intros ??. unfold cart_rank. rewrite decide_True by lia. nia. Qed.

Lemma cart_rank_outside ndx ndy px py :
  ¬ (0 ≤ px < ndx ∧ 0 ≤ py < ndy) → cart_rank ndx ndy px py < 0.
Proof. intros ?. unfold cart_rank, PROC_NULL. rewrite decide_False by done. lia. Qed.

Lemma sumZ_app l1 l2 : sumZ (l1 ++ l2) = sumZ l1 + sumZ l2.
Proof. induction l1 as [|a l1 IH]; cbn; [done|]. unfold sumZ in *. lia. Qed.

Lemma sumZ_const (h : Z → Z) c (m : nat) :
  (∀ q, 0 ≤ q < Z.of_nat m → h q = c) → sumZ (h <$> seqZ 0 (Z.of_nat m)) = Z.of_nat m * c.
Proof.
  induction m as [|m IH]; intros Hc; [done|].
  rewrite seqZ_S, fmap_app, sumZ_app, IH by (intros; apply Hc; lia).
  cbn. rewrite Hc by lia. lia.
Qed.

Lemma sumZ_share (h : Z → Z) (g p : Z) :
  1 ≤ p →
  (∀ q, 0 ≤ q < p - 1 → h q = g `div` p) →
  h (p - 1) = g - g `div` p * (p - 1) →
  sumZ (h <$> seqZ 0 p) = g.
Proof.
  intros Hp Hfirst Hlast.
  assert (seqZ 0 p = seqZ 0 (Z.of_nat (Z.to_nat (p - 1))) ++ [p - 1]) as ->.
  { replace p with (p - 1 + 1) at 1 by lia. rewrite seqZ_app by lia.
    rewrite Z2Nat.id by lia. done. }
  rewrite fmap_app, sumZ_app, sumZ_const with (c := g `div` p)
    by (intros; apply Hfirst; lia).
  cbn. rewrite Z2Nat.id by lia. rewrite Hlast. lia.
Qed.

(** C6: along each axis the owned extents are g div p for all ranks but
    the last and g - (g div p)(p - 1) for the last, and they sum to the
    global extent g, whether or not p divides g. *)
Theorem owned_extents_sum (nx ny ndx ndy px py : Z) :
  1 ≤ ndx → 1 ≤ ndy → 0 ≤ px < ndx → 0 ≤ py < ndy →
  (∀ qx, 0 ≤ qx < ndx - 1 →
     owned_extent nx ndx (right_dst (neighbours_at ndx ndy qx py)) = nx `div` ndx)
  ∧ owned_extent nx ndx (right_dst (neighbours_at ndx ndy (ndx - 1) py))
    = nx - nx `div` ndx * (ndx - 1)
  ∧ sumZ (owned_x nx ndx ndy py) = nx
  ∧ (∀ qy, 0 ≤ qy < ndy - 1 →
     owned_extent ny ndy (top_dst (neighbours_at ndx ndy px qy)) = ny `div` ndy)
  ∧ owned_extent ny ndy (top_dst (neighbours_at ndx ndy px (ndy - 1)))
    = ny - ny `div` ndy * (ndy - 1)
  ∧ sumZ (owned_y ny ndx ndy px) = ny.
Proof.
  intros Hndx Hndy Hpx Hpy.
  assert (Hx1 : ∀ qx, 0 ≤ qx < ndx - 1 →
     owned_extent nx ndx (right_dst (neighbours_at ndx ndy qx py)) = nx `div` ndx).
  { intros qx Hqx. rewrite right_dst_at. unfold owned_extent.
    pose proof (cart_rank_inside ndx ndy (qx + 1) py ltac:(lia) ltac:(lia)).
    by rewrite decide_False by lia. }
  assert (Hx2 : owned_extent nx ndx (right_dst (neighbours_at ndx ndy (ndx - 1) py))
    = nx - nx `div` ndx * (ndx - 1)).
  { rewrite right_dst_at. unfold owned_extent.
    pose proof (cart_rank_outside ndx ndy (ndx - 1 + 1) py ltac:(lia)).
    by rewrite decide_True by lia. }
  assert (Hy1 : ∀ qy, 0 ≤ qy < ndy - 1 →
     owned_extent ny ndy (top_dst (neighbours_at ndx ndy px qy)) = ny `div` ndy).
  { intros qy Hqy. rewrite top_dst_at. unfold owned_extent.
    pose proof (cart_rank_inside ndx ndy px (qy + 1) ltac:(lia) ltac:(lia)).
    by rewrite decide_False by lia. }
  assert (Hy2 : owned_extent ny ndy (top_dst (neighbours_at ndx ndy px (ndy - 1)))
    = ny - ny `div` ndy * (ndy - 1)).
  { rewrite top_dst_at. unfold owned_extent.
    pose proof (cart_rank_outside ndx ndy px (ndy - 1 + 1) ltac:(lia)).
    by rewrite decide_True by lia. }
  repeat split; try done.
  - unfold owned_x. by apply sumZ_share.
  - unfold owned_y. by apply sumZ_share.
Qed.

(** The ghost layers: the local extent is the owned extent plus one per
    neighbour along the axis, and the owned slice starts at 1 exactly when
    there is a lower neighbour. *)
Lemma partition_extents (nx ny ndx ndy : Z) (nb : neighbours) :
  let g := partition nx ny ndx ndy nb in
  local_nx g = owned_extent nx ndx (right_dst nb)
               + (if decide (right_dst nb >= 0) then 1 else 0)
               + (if decide (left_dst nb >= 0) then 1 else 0)
  ∧ local_ny g = owned_extent ny ndy (top_dst nb)
               + (if decide (top_dst nb >= 0) then 1 else 0)
               + (if decide (bottom_dst nb >= 0) then 1 else 0)
  ∧ start (without_ghosts_x g) = (if decide (left_dst nb >= 0) then 1 else 0)
  ∧ start (without_ghosts_y g) = (if decide (bottom_dst nb >= 0) then 1 else 0).
Proof.
  unfold partition.
  destruct (decide (right_dst nb >= 0)), (decide (left_dst nb >= 0)),
    (decide (top_dst nb >= 0)), (decide (bottom_dst nb >= 0)); cbn; repeat split; lia.
Qed.

(** With a lower neighbour the slice stops one past the end of the local
    array: it takes every position from 1 on, the upper ghost layer
    included when there is one. *)
Lemma partition_slice_x (nx ny ndx ndy : Z) (nb : neighbours) :
  let g := partition nx ny ndx ndy nb in
  left_dst nb >= 0 → stop (without_ghosts_x g) = local_nx g + 1.
Proof.
  intros g Hl. subst g. unfold partition.
  destruct (decide (right_dst nb >= 0)), (decide (left_dst nb >= 0)),
    (decide (top_dst nb >= 0)), (decide (bottom_dst nb >= 0)); cbn; lia.
Qed.

(** C7 (the code at a rank with both neighbours): of 3 ranks along x on 9
    points, rank 1 owns 3 points and has a local array of 5, but its
    [without_ghosts_x] is [slice(1, 6)], which selects the 4 positions 1..4
    of the local array, the right ghost layer among them. *)
Theorem without_ghosts_middle_rank :
  let nb := neighbours_at 3 1 1 0 in
  let g := partition 9 3 3 1 nb in
  owned_extent 9 3 (right_dst nb) = 3
  ∧ local_nx g = 5
  ∧ without_ghosts_x g = Slice 1 6
  ∧ apply_slice (without_ghosts_x g) (seqZ 0 (local_nx g)) = [1; 2; 3; 4].
Proof. repeat split. Qed.

Local Close Scope Z_scope.

(** ** Halo exchange between two processes *)

Lemma index_1 n : 2 ≤ n → index n 1 = Ok 1.
Proof. intros. unfold index. by rewrite decide_True by lia. Qed.

Lemma index_m2 n : 2 ≤ n → index n (-2) = Ok (n - 2).
Proof.
  intros. unfold index. rewrite decide_False, decide_True by lia. f_equal. lia.
Qed.

Lemma sel_k_eq j buf a b c :
  sel_k j buf a b c = if decide (b = j) then buf !! a ≫= (.!! c) else None.
Proof. done. Qed.
Lemma sel_l_eq j buf a b c :
  sel_l j buf a b c = if decide (c = j) then buf !! a ≫= (.!! b) else None.
Proof. done. Qed.

Section layers.
Context (nx ny : nat) (Hnx : 0 < nx) (Hny : 0 < ny).
Context (s : dist) (Hs : shape3 9 nx ny s).

Lemma get_k_run k j : index nx k = Ok j → get_k k s = Ok (slice_k j s).
Proof.
  intros Hj. unfold get_k.
  destruct (shape3_len _ _ _ _ Hs) as (_ & -> & _); [lia..|]. by rewrite Hj.
Qed.

Lemma get_l_run l j : index ny l = Ok j → get_l l s = Ok (slice_l j s).
Proof.
  intros Hj. unfold get_l.
  destruct (shape3_len _ _ _ _ Hs) as (_ & _ & ->); [lia..|]. by rewrite Hj.
Qed.

Lemma set_k_run k j (buf : list vec) :
  index nx k = Ok j → length <$> buf = replicate 9 ny →
  set_k k buf s = Ok (assign (sel_k j buf) s).
Proof.
  intros Hj Hbuf. unfold set_k.
  destruct (shape3_len _ _ _ _ Hs) as (-> & -> & ->); [lia..|].
  rewrite Hj. cbn. rewrite decide_True; [done|].
  split.
  - apply (f_equal length) in Hbuf. by rewrite length_fmap, length_replicate in Hbuf.
  - apply (Forall_fmap length (λ n, n = ny)). rewrite Hbuf. by apply Forall_replicate.
Qed.

Lemma set_l_run l j (buf : list vec) :
  index ny l = Ok j → length <$> buf = replicate 9 nx →
  set_l l buf s = Ok (assign (sel_l j buf) s).
Proof.
  intros Hj Hbuf. unfold set_l.
  destruct (shape3_len _ _ _ _ Hs) as (-> & -> & ->); [lia..|].
  rewrite Hj. cbn. rewrite decide_True; [done|].
  split.
  - apply (f_equal length) in Hbuf. by rewrite length_fmap, length_replicate in Hbuf.
  - apply (Forall_fmap length (λ n, n = nx)). rewrite Hbuf. by apply Forall_replicate.
Qed.

Lemma lengths_slice_k j : j < nx → length <$> slice_k j s = replicate 9 ny.
Proof.
  intros Hj. apply list_eq_same_length with 9.
  - by rewrite length_replicate.
  - rewrite length_fmap. apply (length_slice_k _ _ _ _ Hs).
  - intros i x y Hi. rewrite list_lookup_fmap, lookup_replicate_2 by done.
    unfold slice_k. rewrite list_lookup_fmap.
    destruct (s !! i) as [g|] eqn:Hg; [|done]. cbn. intros [= <-] [= <-].
    rewrite <-(list_lookup_total_correct _ _ _ Hg).
    by apply (length_row_k _ _ _ _ Hs).
Qed.

Lemma lengths_slice_l j : length <$> slice_l j s = replicate 9 nx.
Proof.
  apply list_eq_same_length with 9.
  - by rewrite length_replicate.
  - rewrite length_fmap. apply (length_slice_l _ _ _ _ Hs).
  - intros i x y Hi. rewrite list_lookup_fmap, lookup_replicate_2 by done.
    unfold slice_l. rewrite list_lookup_fmap.
    destruct (s !! i) as [g|] eqn:Hg; [|done]. cbn. intros [= <-] [= <-].
    rewrite length_fmap. by destruct (shape3_lookup _ _ _ _ _ _ Hs Hg).
Qed.

(** a layer of [s], read cell by cell *)
Lemma slice_k_cell j i l : j < nx → slice_k j s !! i ≫= (.!! l) = cell s i j l.
Proof.
  intros Hj. unfold slice_k, cell, gcell. rewrite list_lookup_fmap.
  destruct (s !! i) as [g|] eqn:Hg; [|done]. cbn.
  destruct (shape3_lookup _ _ _ _ _ _ Hs Hg) as [Hx _].
  destruct (lookup_lt_is_Some_2 g j) as [c Hc]; [lia|].
  by rewrite Hc, (list_lookup_total_correct _ _ _ Hc).
Qed.

Lemma slice_l_cell j i k : j < ny → slice_l j s !! i ≫= (.!! k) = cell s i k j.
Proof.
  intros Hj. unfold slice_l, cell, gcell. rewrite list_lookup_fmap.
  destruct (s !! i) as [g|] eqn:Hg; [|done]. cbn. rewrite list_lookup_fmap.
  destruct (g !! k) as [c|] eqn:Hc; [|done]. cbn.
  destruct (shape3_lookup _ _ _ _ _ _ Hs Hg) as [_ Hy].
  rewrite Forall_lookup in Hy.
  destruct (lookup_lt_is_Some_2 c j) as [a Ha]; [by rewrite (Hy _ _ Hc)|].
  by rewrite Ha, (list_lookup_total_correct _ _ _ Ha).
Qed.

(** storing a layer where it was read changes nothing *)
Lemma cell_assign_own_k j i k l :
  j < nx → cell (assign (sel_k j (slice_k j s)) s) i k l = cell s i k l.
Proof.
  intros Hj. rewrite cell_assign. rewrite sel_k_eq. case_decide as Hk.
  - subst k. rewrite slice_k_cell by done. by destruct (cell s i j l).
  - by destruct (cell s i k l).
Qed.

Lemma cell_assign_own_l j i k l :
  j < ny → cell (assign (sel_l j (slice_l j s)) s) i k l = cell s i k l.
Proof.
  intros Hj. rewrite cell_assign. rewrite sel_l_eq. case_decide as Hl.
  - subst l. rewrite slice_l_cell by done. by destruct (cell s i k j).
  - by destruct (cell s i k l).
Qed.
End layers.

Lemma cell_is_Some nx ny nx' ny' (s s' : dist) i k l k' l' :
  shape3 9 nx ny s → shape3 9 nx' ny' s' →
  (k < nx ∧ l < ny ↔ k' < nx' ∧ l' < ny') →
  is_Some (cell s i k l) ↔ is_Some (cell s' i k' l').
Proof.
  intros Hs Hs' Hiff. split; intros [a Ha].
  - apply (cell_Some_lt _ _ _ _ _ _ _ _ Hs) in Ha as (? & ? & ?).
    apply (cell_lt_Some _ _ _ _ _ _ _ Hs'); [done|tauto..].
  - apply (cell_Some_lt _ _ _ _ _ _ _ _ Hs') in Ha as (? & ? & ?).
    apply (cell_lt_Some _ _ _ _ _ _ _ Hs); [done|tauto..].
Qed.

Lemma exchange_two get set recv_at send_at (dst src : neighbours → Z)
    (nbA nbB : neighbours) (fA fB : dist) rA sA rB sB inA inB fA' fB' :
  get recv_at fA = Ok rA → get send_at fA = Ok sA →
  get recv_at fB = Ok rB → get send_at fB = Ok sB →
  let posts := [(sA, dst nbA, rA, src nbA); (sB, dst nbB, rB, src nbB)] in
  deliver posts 0 (sA, dst nbA, rA, src nbA) = Ok inA →
  deliver posts 1 (sB, dst nbB, rB, src nbB) = Ok inB →
  set recv_at inA fA = Ok fA' → set recv_at inB fB = Ok fB' →
  exchange get set recv_at send_at dst src [nbA; nbB] [fA; fB] = Ok [fA'; fB'].
Proof.
  intros HrA HsA HrB HsB posts HinA HinB HfA HfB.
  unfold exchange. cbn [zip_with sequence]. rewrite HrA, HsA, HrB, HsB.
  cbn [obind]. fold posts. unfold Sendrecv_all.
  change (imap (deliver posts) posts)
    with [deliver posts 0 (sA, dst nbA, rA, src nbA);
          deliver posts 1 (sB, dst nbB, rB, src nbB)].
  cbn [sequence]. rewrite HinA, HinB. cbn [obind zip_with sequence].
  by rewrite HfA, HfB.
Qed.

Lemma deliver_none posts rank (s r : list vec) d src :
  (src < 0)%Z → deliver posts rank (s, d, r, src) = Ok r.
Proof. intros Hsrc. unfold deliver. by rewrite decide_True. Qed.

Lemma deliver_from posts rank (s r s' r' : list vec) d src src' :
  (0 ≤ src)%Z →
  posts !! Z.to_nat src = Some (s', Z.of_nat rank, r', src') →
  length <$> s' = length <$> r →
  deliver posts rank (s, d, r, src) = Ok s'.
Proof.
  intros Hsrc Hpost Hlen. unfold deliver.
  rewrite decide_False by lia. rewrite Hpost. by rewrite decide_True.
Qed.

Ltac layer_index :=
  first [ apply index_m1; lia | apply index_1; lia | apply index_0; lia | apply index_m2; lia ].

Lemma topology_2_1 :
  topology 2 1 = [neighbours_at 2 1 0 0; neighbours_at 2 1 1 0].
Proof. reflexivity. Qed.

Lemma topology_1_2 :
  topology 1 2 = [neighbours_at 1 2 0 0; neighbours_at 1 2 0 1].
Proof. reflexivity. Qed.

Lemma communicate_2_1 (nxA nxB ny : nat) (fA fB : dist) :
  2 ≤ nxA → 2 ≤ nxB → 2 ≤ ny →
  shape3 9 nxA ny fA → shape3 9 nxB ny fB →
  let A1 := assign (sel_k (nxA - 1) (slice_k 1 fB)) fA in
  let B1 := assign (sel_k (nxB - 1) (slice_k (nxB - 1) fB)) fB in
  let A2 := assign (sel_k 0 (slice_k 0 A1)) A1 in
  let B2 := assign (sel_k 0 (slice_k (nxA - 2) A1)) B1 in
  let A3 := assign (sel_l (ny - 1) (slice_l (ny - 1) A2)) A2 in
  let B3 := assign (sel_l (ny - 1) (slice_l (ny - 1) B2)) B2 in
  let A4 := assign (sel_l 0 (slice_l 0 A3)) A3 in
  let B4 := assign (sel_l 0 (slice_l 0 B3)) B3 in
  communicate (topology 2 1) [fA; fB] = Ok [A4; B4].
Proof.
  intros HnxA HnxB Hny HA HB. intros.
  assert (HA1 : shape3 9 nxA ny A1) by shape_tac.
  assert (HB1 : shape3 9 nxB ny B1) by shape_tac.
  assert (HA2 : shape3 9 nxA ny A2) by shape_tac.
  assert (HB2 : shape3 9 nxB ny B2) by shape_tac.
  assert (HA3 : shape3 9 nxA ny A3) by shape_tac.
  assert (HB3 : shape3 9 nxB ny B3) by shape_tac.
  rewrite topology_2_1. unfold communicate.
  (* Send to left *)
  erewrite (exchange_two get_k set_k).
  2,3: (apply (get_k_run nxA ny); [lia|lia|done|layer_index]).
  2,3: (apply (get_k_run nxB ny); [lia|lia|done|layer_index]).
  2: { eapply deliver_from; [done|reflexivity|].
       rewrite (lengths_slice_k nxB ny), (lengths_slice_k nxA ny); done || lia. }
  2: by apply deliver_none.
  2: { apply (set_k_run nxA ny); [lia|lia|done|layer_index|].
       apply (lengths_slice_k nxB ny); done || lia. }
  2: { apply (set_k_run nxB ny); [lia|lia|done|layer_index|].
       apply (lengths_slice_k nxB ny); done || lia. }
  cbn [obind]. fold A1 B1.
  (* Send to right *)
  erewrite (exchange_two get_k set_k).
  2,3: (apply (get_k_run nxA ny); [lia|lia|done|layer_index]).
  2,3: (apply (get_k_run nxB ny); [lia|lia|done|layer_index]).
  2: by apply deliver_none.
  2: { eapply deliver_from; [done|reflexivity|].
       rewrite (lengths_slice_k nxA ny), (lengths_slice_k nxB ny); done || lia. }
  2: { apply (set_k_run nxA ny); [lia|lia|done|layer_index|].
       apply (lengths_slice_k nxA ny); done || lia. }
  2: { apply (set_k_run nxB ny); [lia|lia|done|layer_index|].
       apply (lengths_slice_k nxA ny); done || lia. }
  cbn [obind]. fold A2 B2.
  (* Send to bottom *)
  erewrite (exchange_two get_l set_l).
  2,3: (apply (get_l_run nxA ny); [lia|lia|done|layer_index]).
  2,3: (apply (get_l_run nxB ny); [lia|lia|done|layer_index]).
  2,3: by apply deliver_none.
  2: { apply (set_l_run nxA ny); [lia|lia|done|layer_index|].
       by apply (lengths_slice_l nxA ny). }
  2: { apply (set_l_run nxB ny); [lia|lia|done|layer_index|].
       by apply (lengths_slice_l nxB ny). }
  cbn [obind]. fold A3 B3.
  (* Send to top *)
  erewrite (exchange_two get_l set_l).
  2,3: (apply (get_l_run nxA ny); [lia|lia|done|layer_index]).
  2,3: (apply (get_l_run nxB ny); [lia|lia|done|layer_index]).
  2,3: by apply deliver_none.
  2: { apply (set_l_run nxA ny); [lia|lia|done|layer_index|].
       by apply (lengths_slice_l nxA ny). }
  2: { apply (set_l_run nxB ny); [lia|lia|done|layer_index|].
       by apply (lengths_slice_l nxB ny). }
  done.
Qed.

Lemma communicate_1_2 (nx nyA nyB : nat) (fA fB : dist) :
  2 ≤ nx → 2 ≤ nyA → 2 ≤ nyB →
  shape3 9 nx nyA fA → shape3 9 nx nyB fB →
  let A1 := assign (sel_k (nx - 1) (slice_k (nx - 1) fA)) fA in
  let B1 := assign (sel_k (nx - 1) (slice_k (nx - 1) fB)) fB in
  let A2 := assign (sel_k 0 (slice_k 0 A1)) A1 in
  let B2 := assign (sel_k 0 (slice_k 0 B1)) B1 in
  let A3 := assign (sel_l (nyA - 1) (slice_l 1 B2)) A2 in
  let B3 := assign (sel_l (nyB - 1) (slice_l (nyB - 1) B2)) B2 in
  let A4 := assign (sel_l 0 (slice_l 0 A3)) A3 in
  let B4 := assign (sel_l 0 (slice_l (nyA - 2) A3)) B3 in
  communicate (topology 1 2) [fA; fB] = Ok [A4; B4].
Proof.
  intros Hnx HnyA HnyB HA HB. intros.
  assert (HA1 : shape3 9 nx nyA A1) by shape_tac.
  assert (HB1 : shape3 9 nx nyB B1) by shape_tac.
  assert (HA2 : shape3 9 nx nyA A2) by shape_tac.
  assert (HB2 : shape3 9 nx nyB B2) by shape_tac.
  assert (HA3 : shape3 9 nx nyA A3) by shape_tac.
  assert (HB3 : shape3 9 nx nyB B3) by shape_tac.
  rewrite topology_1_2. unfold communicate.
  (* Send to left *)
  erewrite (exchange_two get_k set_k).
  2,3: (apply (get_k_run nx nyA); [lia|lia|done|layer_index]).
  2,3: (apply (get_k_run nx nyB); [lia|lia|done|layer_index]).
  2,3: by apply deliver_none.
  2: { apply (set_k_run nx nyA); [lia|lia|done|layer_index|].
       apply (lengths_slice_k nx nyA); done || lia. }
  2: { apply (set_k_run nx nyB); [lia|lia|done|layer_index|].
       apply (lengths_slice_k nx nyB); done || lia. }
  cbn [obind]. fold A1 B1.
  (* Send to right *)
  erewrite (exchange_two get_k set_k).
  2,3: (apply (get_k_run nx nyA); [lia|lia|done|layer_index]).
  2,3: (apply (get_k_run nx nyB); [lia|lia|done|layer_index]).
  2,3: by apply deliver_none.
  2: { apply (set_k_run nx nyA); [lia|lia|done|layer_index|].
       apply (lengths_slice_k nx nyA); done || lia. }
  2: { apply (set_k_run nx nyB); [lia|lia|done|layer_index|].
       apply (lengths_slice_k nx nyB); done || lia. }
  cbn [obind]. fold A2 B2.
  (* Send to bottom *)
  erewrite (exchange_two get_l set_l).
  2,3: (apply (get_l_run nx nyA); [lia|lia|done|layer_index]).
  2,3: (apply (get_l_run nx nyB); [lia|lia|done|layer_index]).
  2: { eapply deliver_from; [done|reflexivity|].
       by rewrite (lengths_slice_l nx nyB), (lengths_slice_l nx nyA). }
  2: by apply deliver_none.
  2: { apply (set_l_run nx nyA); [lia|lia|done|layer_index|].
       by apply (lengths_slice_l nx nyB). }
  2: { apply (set_l_run nx nyB); [lia|lia|done|layer_index|].
       by apply (lengths_slice_l nx nyB). }
  cbn [obind]. fold A3 B3.
  (* Send to top *)
  erewrite (exchange_two get_l set_l).
  2,3: (apply (get_l_run nx nyA); [lia|lia|done|layer_index]).
  2,3: (apply (get_l_run nx nyB); [lia|lia|done|layer_index]).
  2: by apply deliver_none.
  2: { eapply deliver_from; [done|reflexivity|].
       by rewrite (lengths_slice_l nx nyA), (lengths_slice_l nx nyB). }
  2: { apply (set_l_run nx nyA); [lia|lia|done|layer_index|].
       by apply (lengths_slice_l nx nyA). }
  2: { apply (set_l_run nx nyB); [lia|lia|done|layer_index|].
       by apply (lengths_slice_l nx nyA). }
  done.
Qed.

Lemma default_fmap_Some {A} (o1 o2 : option A) :
  (is_Some o1 ↔ is_Some o2) → (λ a, default a o2) <$> o1 = o2.
Proof.
  intros H. destruct o1 as [a|], o2 as [b|]; cbn; try done.
  - destruct H as [H _]. by destruct H.
  - destruct H as [_ H]. by destruct H.
Qed.

(** C9: with two processes side by side (2x1) or one above the other
    (1x2), one call of communicate in both leaves in each process's ghost
    layer that faces the other the layer one in from the facing edge of the
    other's array as it was before the call, all 9 channels, and leaves all
    other cells of both arrays as they were. *)
Theorem halo_exchange_two_processes
    (nxA nxB ny : nat) (fA fB : dist) (nx nyA nyB : nat) (gA gB : dist) :
  2 ≤ nxA → 2 ≤ nxB → 2 ≤ ny → shape3 9 nxA ny fA → shape3 9 nxB ny fB →
  2 ≤ nx → 2 ≤ nyA → 2 ≤ nyB → shape3 9 nx nyA gA → shape3 9 nx nyB gB →
  (∃ fA' fB', communicate (topology 2 1) [fA; fB] = Ok [fA'; fB']
     ∧ (∀ i k l, cell fA' i k l
          = if decide (k = nxA - 1) then cell fB i 1 l else cell fA i k l)
     ∧ (∀ i k l, cell fB' i k l
          = if decide (k = 0) then cell fA i (nxA - 2) l else cell fB i k l))
  ∧ (∃ gA' gB', communicate (topology 1 2) [gA; gB] = Ok [gA'; gB']
     ∧ (∀ i k l, cell gA' i k l
          = if decide (l = nyA - 1) then cell gB i k 1 else cell gA i k l)
     ∧ (∀ i k l, cell gB' i k l
          = if decide (l = 0) then cell gA i k (nyA - 2) else cell gB i k l)).
Proof.
  intros HnxA HnxB Hny HfA HfB Hnx HnyA HnyB HgA HgB. split.
  - pose proof (communicate_2_1 nxA nxB ny fA fB HnxA HnxB Hny HfA HfB) as Hrun.
    cbv zeta in Hrun. do 2 eexists. split; [exact Hrun|]. clear Hrun.
    assert (HA1 : shape3 9 nxA ny (assign (sel_k (nxA - 1) (slice_k 1 fB)) fA)) by shape_tac.
    assert (HA1c : ∀ i k l, cell (assign (sel_k (nxA - 1) (slice_k 1 fB)) fA) i k l
      = if decide (k = nxA - 1) then cell fB i 1 l else cell fA i k l).
    { intros i k l. rewrite cell_assign. rewrite sel_k_eq. case_decide as Hk.
      - subst k. rewrite (slice_k_cell nxB ny) by (done || lia).
        apply default_fmap_Some. apply (cell_is_Some nxA ny nxB ny); [done..|lia].
      - by destruct (cell fA i k l). }
    split; intros i k l.
    + rewrite (cell_assign_own_l nxA ny), (cell_assign_own_l nxA ny),
        (cell_assign_own_k nxA ny) by (lia || shape_tac).
      apply HA1c.
    + rewrite (cell_assign_own_l nxB ny), (cell_assign_own_l nxB ny) by (lia || shape_tac).
      rewrite cell_assign. rewrite sel_k_eq. case_decide as Hk.
      * subst k. rewrite (slice_k_cell nxA ny) by (done || lia).
        rewrite HA1c, decide_False by lia.
        rewrite (cell_assign_own_k nxB ny) by (done || lia).
        apply default_fmap_Some. apply (cell_is_Some nxB ny nxA ny); [done..|lia].
      * rewrite (cell_assign_own_k nxB ny) by (done || lia).
        by destruct (cell fB i k l).
  - pose proof (communicate_1_2 nx nyA nyB gA gB Hnx HnyA HnyB HgA HgB) as Hrun.
    cbv zeta in Hrun. do 2 eexists. split; [exact Hrun|]. clear Hrun.
    assert (HA2c : ∀ i k l,
      cell (assign (sel_k 0 (slice_k 0 (assign (sel_k (nx - 1) (slice_k (nx - 1) gA)) gA)))
              (assign (sel_k (nx - 1) (slice_k (nx - 1) gA)) gA)) i k l = cell gA i k l).
    { intros i k l.
      by rewrite (cell_assign_own_k nx nyA), (cell_assign_own_k nx nyA) by (lia || shape_tac). }
    assert (HB2c : ∀ i k l,
      cell (assign (sel_k 0 (slice_k 0 (assign (sel_k (nx - 1) (slice_k (nx - 1) gB)) gB)))
              (assign (sel_k (nx - 1) (slice_k (nx - 1) gB)) gB)) i k l = cell gB i k l).
    { intros i k l.
      by rewrite (cell_assign_own_k nx nyB), (cell_assign_own_k nx nyB) by (lia || shape_tac). }
    assert (HA3c : ∀ i k l,
      cell (assign (sel_l (nyA - 1)
              (slice_l 1 (assign (sel_k 0 (slice_k 0 (assign (sel_k (nx - 1) (slice_k (nx - 1) gB)) gB)))
                 (assign (sel_k (nx - 1) (slice_k (nx - 1) gB)) gB))))
              (assign (sel_k 0 (slice_k 0 (assign (sel_k (nx - 1) (slice_k (nx - 1) gA)) gA)))
                 (assign (sel_k (nx - 1) (slice_k (nx - 1) gA)) gA))) i k l
      = if decide (l = nyA - 1) then cell gB i k 1 else cell gA i k l).
    { intros i k l. rewrite cell_assign, HA2c. rewrite sel_l_eq. case_decide as Hl.
      - subst l. rewrite (slice_l_cell nx nyB) by (lia || shape_tac). rewrite HB2c.
        apply default_fmap_Some. apply (cell_is_Some nx nyA nx nyB); [done..|lia].
      - by destruct (cell gA i k l). }
    split; intros i k l.
    + rewrite (cell_assign_own_l nx nyA) by (lia || shape_tac). apply HA3c.
    + rewrite cell_assign. rewrite sel_l_eq. case_decide as Hl.
      * subst l. rewrite (slice_l_cell nx nyA) by (lia || shape_tac).
        rewrite HA3c, decide_False by lia.
        rewrite (cell_assign_own_l nx nyB) by (lia || shape_tac). rewrite HB2c.
        apply default_fmap_Some. apply (cell_is_Some nx nyB nx nyA); [done..|lia].
      * rewrite (cell_assign_own_l nx nyB) by (lia || shape_tac). rewrite HB2c.
        by destruct (cell gB i k l).
Qed.

Lemma full_emap (h : val → val) nx ny a : emap h (full nx ny a) = full nx ny (h a).
Proof. unfold full. cbn. by rewrite !fmap_replicate. Qed.

Lemma full_ezip (h : val → val → val) nx ny a b :
  ezip h (full nx ny a) (full nx ny b) = full nx ny (h a b).
Proof. unfold full. cbn. by rewrite !zip_with_replicate. Qed.

Lemma equilibrium_rest nx ny :
  equilibrium (full nx ny (val_of_Z 1)) (full nx ny (val_of_Z 0)) (full nx ny (val_of_Z 0))
  = full nx ny <$> w_i.
Proof.
  unfold equilibrium. rewrite ?full_emap, ?full_ezip, ?full_emap, ?full_ezip.
  rewrite ?full_emap, ?full_ezip, ?full_emap, ?full_ezip.
  unfold w_i. cbn [fmap list_fmap].
  repeat f_equal; compute_done.
Qed.

(** C2: for density and velocity fields of one shape, the 9 channels of
    equilibrium(rho, ux, uy) sum at every cell to rho at that cell; for
    rho = 1 and ux = uy = 0 every cell holds the weights
    (4/9, 1/9, 1/9, 1/9, 1/9, 1/36, 1/36, 1/36, 1/36). *)
Theorem equilibrium_zeroth_moment nx ny (rho ux uy : list (list Qc)) :
  shape2 nx ny rho → shape2 nx ny ux → shape2 nx ny uy →
  (∀ k l r, gcell rho k l = Some r →
     cellsum (equilibrium (num rho) (num ux) (num uy)) k l = Some (Num r))
  ∧ equilibrium (full nx ny (val_of_Z 1)) (full nx ny (val_of_Z 0)) (full nx ny (val_of_Z 0))
    = full nx ny <$> w_i
  ∧ w_i = Num <$> [Q2Qc (4 # 9); Q2Qc (1 # 9); Q2Qc (1 # 9); Q2Qc (1 # 9); Q2Qc (1 # 9);
                   Q2Qc (1 # 36); Q2Qc (1 # 36); Q2Qc (1 # 36); Q2Qc (1 # 36)].
Proof.
  intros Hrho Hux Huy. split; [|split].
  - intros k l r Hr. by apply (equilibrium_cellsum nx ny).
  - apply equilibrium_rest.
  - compute_done.
Qed.

(** ** The dump after the loop *)

(** C5 (the code after the loop): the final dump reads the name [u_ckl],
    which the program never binds: whatever the state the loop leaves, the
    dump raises NameError before [save_mpiio] is called and writes no
    file. *)
Theorem final_dump_raises (geo : list geometry) (st : prog) :
  final_dump geo st
  = (Raise (NameError (if loop_i st is Some _ then "u_ckl" else "i")), st).
Proof. destruct st as [w [r|] [i|] fs]; reflexivity. Qed.

(** ** The theorems at concrete arrays *)

Lemma collide_conserves_mass_witness :
  shape3 9 1 1 (uniform 1 1 (val_of_Z 1))
  ∧ cellsum (uniform 1 1 (val_of_Z 1)) 0 0 = Some (Num (Qc_of_Z 9))
  ∧ ∃ fields f', collide (Num (Q2Qc (17 # 10))) (uniform 1 1 (val_of_Z 1)) = (Ok fields, f')
      ∧ (Qc_of_Z 9 ≠ Q2Qc 0 → cellsum f' 0 0 = Some (Num (Qc_of_Z 9)))
      ∧ (Qc_of_Z 9 = Q2Qc 0 → ∀ i, i < 9 → cell f' i 0 0 = Some Undef).
Proof.
  assert (H1 : shape3 9 1 1 (uniform 1 1 (val_of_Z 1))) by compute_done.
  assert (H2 : cellsum (uniform 1 1 (val_of_Z 1)) 0 0 = Some (Num (Qc_of_Z 9))) by compute_done.
  exact (conj H1 (conj H2
    (collide_conserves_mass 1 1 _ (Q2Qc (17 # 10)) 0 0 _ H1 H2))).
Defined.

(** At a cell of density zero the velocity is a quotient by zero: the
    channels of the cell come out undefined, and so does their sum. *)
Lemma collide_zero_density :
  shape3 9 1 1 (uniform 1 1 (val_of_Z 0))
  ∧ cellsum (uniform 1 1 (val_of_Z 0)) 0 0 = Some (val_of_Z 0)
  ∧ cellsum (collide omega (uniform 1 1 (val_of_Z 0))).2 0 0 = Some Undef
  ∧ cellsum (collide omega (uniform 1 1 (val_of_Z 0))).2 0 0
    ≠ cellsum (uniform 1 1 (val_of_Z 0)) 0 0.
Proof. repeat apply conj; compute_done. Qed.

Lemma equilibrium_zeroth_moment_witness :
  shape2 1 2 [[Q2Qc (1 # 1); Q2Qc (2 # 1)]]
  ∧ shape2 1 2 [[Q2Qc (1 # 10); Q2Qc 0]]
  ∧ shape2 1 2 [[Q2Qc 0; Q2Qc (-1 # 5)]]
  ∧ cellsum (equilibrium (num [[Q2Qc (1 # 1); Q2Qc (2 # 1)]])
               (num [[Q2Qc (1 # 10); Q2Qc 0]]) (num [[Q2Qc 0; Q2Qc (-1 # 5)]])) 0 1
    = Some (Num (Q2Qc (2 # 1))).
Proof.
  assert (H1 : shape2 1 2 [[Q2Qc (1 # 1); Q2Qc (2 # 1)]]) by compute_done.
  assert (H2 : shape2 1 2 [[Q2Qc (1 # 10); Q2Qc 0]]) by compute_done.
  assert (H3 : shape2 1 2 [[Q2Qc 0; Q2Qc (-1 # 5)]]) by compute_done.
  exact (conj H1 (conj H2 (conj H3
    (proj1 (equilibrium_zeroth_moment 1 2 _ _ _ H1 H2 H3) 0 1 _ eq_refl)))).
Defined.

Lemma lid_top_row_witness :
  shape3 9 2 2 (by_channel 2 2) ∧ 2 ≤ 2 ∧ 1 < 2
  ∧ cell (stream_and_bounce_back (val_of_Z 1) (by_channel 2 2)).2 8 1 1
    = Some (vadd (cellv (by_channel 2 2) 6 1 1) (lid_term (by_channel 2 2) 1 1 (val_of_Z 1))).
Proof.
  assert (H1 : shape3 9 2 2 (by_channel 2 2)) by compute_done.
  assert (H2 : 2 ≤ 2) by lia.
  assert (H3 : 1 < 2) by lia.
  exact (conj H1 (conj H2 (conj H3
    (proj1 (proj2 (proj2 (lid_top_row 2 2 _ (val_of_Z 1) 1 H1 H2 H3))))))).
Defined.

(** In the top-left corner channel SE holds the pre-stream value of NW
    without the lid term: with 1 in every cell and lid speed 1 it is 1, not
    1 + 6 (1/36) 9 = 5/2. *)
Lemma lid_corner_without_term :
  shape3 9 2 2 (uniform 2 2 (val_of_Z 1))
  ∧ cell (stream_and_bounce_back (val_of_Z 1) (uniform 2 2 (val_of_Z 1))).2 8 0 1
    = Some (val_of_Z 1)
  ∧ vadd (cellv (uniform 2 2 (val_of_Z 1)) 6 0 1)
         (lid_term (uniform 2 2 (val_of_Z 1)) 0 1 (val_of_Z 1)) = Num (Q2Qc (5 # 2))
  ∧ cell (stream_and_bounce_back (val_of_Z 1) (uniform 2 2 (val_of_Z 1))).2 8 0 1
    ≠ Some (vadd (cellv (uniform 2 2 (val_of_Z 1)) 6 0 1)
                 (lid_term (uniform 2 2 (val_of_Z 1)) 0 1 (val_of_Z 1))).
Proof. repeat apply conj; compute_done. Qed.

Lemma wall_logic_only_at_walls_witness :
  (right_dst (neighbours_at 2 1 0 0) >= 0)%Z
  ∧ local_nx (partition 4 3 2 1 (neighbours_at 2 1 0 0)) = 3%Z
  ∧ local_ny (partition 4 3 2 1 (neighbours_at 2 1 0 0)) = 3%Z
  ∧ shape3 9 3 3 (numbered 3 3) ∧ 3 < 9 ∧ 1 < 3 ∧ 0 < 3
  ∧ (¬ ghost_cell (neighbours_at 2 1 0 0) 3 3 1 0)
  ∧ (3 ∉ wall_channels (neighbours_at 2 1 0 0) 3 3 1 0)
  ∧ cell (stream_and_bounce_back (val_of_Z 0) (numbered 3 3)).2 3 1 0
    = cell (stream (numbered 3 3)).2 3 1 0.
Proof.
  assert (H0 : (right_dst (neighbours_at 2 1 0 0) >= 0)%Z) by compute_done.
  assert (Hx : local_nx (partition 4 3 2 1 (neighbours_at 2 1 0 0)) = 3%Z) by reflexivity.
  assert (Hy : local_ny (partition 4 3 2 1 (neighbours_at 2 1 0 0)) = 3%Z) by reflexivity.
  assert (H1 : shape3 9 3 3 (numbered 3 3)) by compute_done.
  assert (H2 : 3 < 9) by lia. assert (H3 : 1 < 3) by lia. assert (H4 : 0 < 3) by lia.
  assert (H5 : ¬ ghost_cell (neighbours_at 2 1 0 0) 3 3 1 0) by compute_done.
  assert (H6 : 3 ∉ wall_channels (neighbours_at 2 1 0 0) 3 3 1 0) by compute_done.
  exact (conj H0 (conj Hx (conj Hy (conj H1 (conj H2 (conj H3 (conj H4 (conj H5 (conj H6
    (proj2 (wall_logic_only_at_walls _ 3 3 _ (val_of_Z 0) 3 1 0 H1 H2 H3 H4 H5 H6))))))))))).
Defined.

(** Rank 0 of two ranks along x on 4 by 3 points has a right neighbour and
    a local array of 3 by 3 whose layer x = 2 is the ghost layer, which the
    process does not own.  The right wall block writes into that layer:
    channel W holds 1 there, the pre-stream value of channel E, where plain
    streaming leaves 3. *)
Lemma wall_logic_on_ghost_layer :
  (right_dst (neighbours_at 2 1 0 0) >= 0)%Z
  ∧ local_nx (partition 4 3 2 1 (neighbours_at 2 1 0 0)) = 3%Z
  ∧ local_ny (partition 4 3 2 1 (neighbours_at 2 1 0 0)) = 3%Z
  ∧ shape3 9 3 3 (by_channel 3 3)
  ∧ cell (stream_and_bounce_back (val_of_Z 0) (by_channel 3 3)).2 3 2 1 = Some (val_of_Z 1)
  ∧ cell (stream (by_channel 3 3)).2 3 2 1 = Some (val_of_Z 3)
  ∧ cell (stream_and_bounce_back (val_of_Z 0) (by_channel 3 3)).2 3 2 1
    ≠ cell (stream (by_channel 3 3)).2 3 2 1.
Proof. repeat apply conj; compute_done. Qed.

Lemma owned_extents_sum_witness :
  (1 ≤ 3)%Z ∧ (1 ≤ 1)%Z ∧ (0 ≤ 0 < 3)%Z ∧ (0 ≤ 0 < 1)%Z
  ∧ owned_x 10 3 1 0 = [3; 3; 4]%Z ∧ sumZ (owned_x 10 3 1 0) = 10%Z.
Proof.
  assert (H1 : (1 ≤ 3)%Z) by lia. assert (H2 : (1 ≤ 1)%Z) by lia.
  assert (H3 : (0 ≤ 0 < 3)%Z) by lia. assert (H4 : (0 ≤ 0 < 1)%Z) by lia.
  assert (H5 : owned_x 10 3 1 0 = [3; 3; 4]%Z) by reflexivity.
  exact (conj H1 (conj H2 (conj H3 (conj H4 (conj H5
    (proj1 (proj2 (proj2 (owned_extents_sum 10 1 3 1 0 0 H1 H2 H3 H4))))))))).
Defined.

Lemma stream_inverse_witness :
  length (by_channel 2 2) = 9
  ∧ bind stream (λ _, stream_by neg_c_ic) (by_channel 2 2) = (Ok tt, by_channel 2 2).
Proof.
  assert (H1 : length (by_channel 2 2) = 9) by reflexivity.
  split; [assumption|]. exact (stream_inverse _ H1).
Defined.

Lemma halo_exchange_two_processes_witness :
  shape3 9 2 2 (by_channel 2 2) ∧ shape3 9 3 2 (uniform 3 2 (val_of_Z 7))
  ∧ ∃ fA' fB',
      communicate (topology 2 1) [by_channel 2 2; uniform 3 2 (val_of_Z 7)] = Ok [fA'; fB']
      ∧ (∀ i k l, cell fA' i k l
           = if decide (k = 2 - 1) then cell (uniform 3 2 (val_of_Z 7)) i 1 l
             else cell (by_channel 2 2) i k l)
      ∧ (∀ i k l, cell fB' i k l
           = if decide (k = 0) then cell (by_channel 2 2) i (2 - 2) l
             else cell (uniform 3 2 (val_of_Z 7)) i k l).
Proof.
  assert (HA : shape3 9 2 2 (by_channel 2 2)) by compute_done.
  assert (HB : shape3 9 3 2 (uniform 3 2 (val_of_Z 7))) by compute_done.
  exact (conj HA (conj HB
    (proj1 (halo_exchange_two_processes 2 3 2 _ _ 2 2 2 _ _
      ltac:(lia) ltac:(lia) ltac:(lia) HA HB ltac:(lia) ltac:(lia) ltac:(lia) HA HA)))).
Defined.

(** * Further properties *)

(** ** Momentum in [equilibrium] and [collide] *)

Lemma moment_Num (a0 a1 a2 a3 a4 a5 a6 a7 a8 : Qc) :
  moment fst [Num a0; Num a1; Num a2; Num a3; Num a4; Num a5; Num a6; Num a7; Num a8]
  = Num (a1 - a3 + a5 - a6 - a7 + a8)%Qc
  ∧ moment snd [Num a0; Num a1; Num a2; Num a3; Num a4; Num a5; Num a6; Num a7; Num a8]
  = Num (a2 - a4 + a5 + a6 - a7 - a8)%Qc.
Proof. split; cbn; f_equal; qc_field. Qed.

Lemma cells9_cells (f : dist) k l (vs : list val) :
  length vs = 9 →
  (∀ i, i < 9 → cell f i k l = vs !! i) →
  cells9 f k l = Some vs.
Proof.
  intros Hl H. unfold cells9. cbn [seq mapM].
  rewrite !H by lia.
  do 9 (destruct vs as [|? vs]; [done|]). by destruct vs.
Qed.

Lemma equilibrium_Num_moments (r u v : Qc) :
  ∃ e0 e1 e2 e3 e4 e5 e6 e7 e8 : Qc,
    equilibrium (Num r) (Num u) (Num v)
    = [Num e0; Num e1; Num e2; Num e3; Num e4; Num e5; Num e6; Num e7; Num e8]
    ∧ (e0 + e1 + e2 + e3 + e4 + e5 + e6 + e7 + e8)%Qc = r
    ∧ (e1 - e3 + e5 - e6 - e7 + e8)%Qc = (r * u)%Qc
    ∧ (e2 - e4 + e5 + e6 - e7 - e8)%Qc = (r * v)%Qc.
Proof.
  do 9 eexists. split; [|split; [|split]].
  - unfold equilibrium, w_0, w_1234, w_5678.
    cbn [ezip emap val_elementwise]. vdiv_consts.
    cbn [vadd vsub vmul vsq vopp lift2]. reflexivity.
  - qc_field.
  - qc_field.
  - qc_field.
Qed.

(** X1: the first moment of the equilibrium: at every cell the channels of
    equilibrium(rho, ux, uy), weighted with the x (the y) components of the
    channel velocities, sum to rho ux (to rho uy). *)
Theorem equilibrium_first_moment (rho ux uy : list (list Qc)) k l r u v :
  gcell rho k l = Some r → gcell ux k l = Some u → gcell uy k l = Some v →
  cellmom_x (equilibrium (num rho) (num ux) (num uy)) k l = Some (Num (r * u)%Qc)
  ∧ cellmom_y (equilibrium (num rho) (num ux) (num uy)) k l = Some (Num (r * v)%Qc).
Proof.
  intros Hr Hu Hv.
  destruct (equilibrium_Num_moments r u v) as (e0&e1&e2&e3&e4&e5&e6&e7&e8&He&_&Hx&Hy).
  assert (Hc : cells9 (equilibrium (num rho) (num ux) (num uy)) k l
               = Some [Num e0; Num e1; Num e2; Num e3; Num e4; Num e5; Num e6; Num e7; Num e8]).
  { apply cells9_cells; [done|]. intros i _.
    rewrite cell_equilibrium, !gcell_num, Hr, Hu, Hv. cbn. by rewrite He. }
  unfold cellmom_x, cellmom_y. rewrite Hc. cbn [fmap option_fmap option_map].
  destruct (moment_Num e0 e1 e2 e3 e4 e5 e6 e7 e8) as [-> ->].
  by rewrite Hx, Hy.
Qed.

Lemma collide_cell (f : dist) (w : Qc) k l (a0 a1 a2 a3 a4 a5 a6 a7 a8 : Qc) :
  length f = 9 →
  (∀ i, i < 9 → cell f i k l
     = [Num a0; Num a1; Num a2; Num a3; Num a4; Num a5; Num a6; Num a7; Num a8] !! i) →
  let s := (a0 + a1 + a2 + a3 + a4 + a5 + a6 + a7 + a8)%Qc in
  let u := ((a1 - a3 + a5 - a6 - a7 + a8) / s)%Qc in
  let v := ((a2 - a4 + a5 + a6 - a7 - a8) / s)%Qc in
  s ≠ Q2Qc 0 →
  ∃ rho ux uy f', collide (Num w) f = (Ok (rho, ux, uy), f')
    ∧ gcell rho k l = Some (Num s)
    ∧ gcell ux k l = Some (Num u)
    ∧ gcell uy k l = Some (Num v)
    ∧ ∀ e0 e1 e2 e3 e4 e5 e6 e7 e8 : Qc,
        equilibrium (Num s) (Num u) (Num v)
        = [Num e0; Num e1; Num e2; Num e3; Num e4; Num e5; Num e6; Num e7; Num e8] →
        ∀ i, i < 9 → cell f' i k l
          = ((λ ae : Qc * Qc, Num (ae.1 + w * (ae.2 - ae.1))%Qc) <$>
              [(a0,e0);(a1,e1);(a2,e2);(a3,e3);(a4,e4);(a5,e5);(a6,e6);(a7,e7);(a8,e8)]) !! i.
Proof.
  intros Hlen Hc s u v Hs.
  do 9 (destruct f as [|? f]; [done|]). destruct f; [|done].
  rewrite collide_run. do 4 eexists. split; [reflexivity|].
  pose proof (Hc 0 ltac:(lia)) as H0. pose proof (Hc 1 ltac:(lia)) as H1.
  pose proof (Hc 2 ltac:(lia)) as H2. pose proof (Hc 3 ltac:(lia)) as H3.
  pose proof (Hc 4 ltac:(lia)) as H4. pose proof (Hc 5 ltac:(lia)) as H5.
  pose proof (Hc 6 ltac:(lia)) as H6. pose proof (Hc 7 ltac:(lia)) as H7.
  pose proof (Hc 8 ltac:(lia)) as H8.
  cbn [cell lookup list_lookup mbind option_bind] in H0, H1, H2, H3, H4, H5, H6, H7, H8.
  set (rho := sum_axis0 _). set (ux := (_ / rho)%arr). set (uy := (_ / rho)%arr).
  assert (Hrho : gcell rho k l = Some (Num s)).
  { subst rho. cbn [sum_axis0 foldl]. rewrite !gcell_ezip, H0, H1, H2, H3, H4, H5, H6, H7, H8.
    reflexivity. }
  assert (Hu : gcell ux k l = Some (Num u)).
  { subst ux. rewrite !gcell_ezip, Hrho, H1, H3, H5, H6, H7, H8.
    cbn [mbind option_bind vadd vsub lift2]. by rewrite vdiv_Num by done. }
  assert (Hv : gcell uy k l = Some (Num v)).
  { subst uy. rewrite !gcell_ezip, Hrho, H2, H4, H5, H6, H7, H8.
    cbn [mbind option_bind vadd vsub lift2]. by rewrite vdiv_Num by done. }
  split; [done|]. split; [done|]. split; [done|].
  intros e0 e1 e2 e3 e4 e5 e6 e7 e8 He i Hi.
  rewrite cell_ezip, cell_emap, cell_ezip, cell_equilibrium, Hrho, Hu, Hv.
  cbn [mbind option_bind]. rewrite He.
  do 9 (destruct i as [|i];
    [cbn [cell lookup list_lookup mbind option_bind];
     rewrite ?H0, ?H1, ?H2, ?H3, ?H4, ?H5, ?H6, ?H7, ?H8; reflexivity|]).
  lia.
Qed.

(** X2: under exact arithmetic collide conserves momentum: over the
    rationals, at every cell of non-zero density the first moments of the
    array after the call are those before the call, for every relaxation
    rate. *)
Theorem collide_conserves_momentum nx ny (f : dist) (w : Qc) k l s :
  shape3 9 nx ny f →
  cellsum f k l = Some (Num s) → s ≠ Q2Qc 0 →
  ∃ fields f', collide (Num w) f = (Ok fields, f')
    ∧ cellmom_x f' k l = cellmom_x f k l
    ∧ cellmom_y f' k l = cellmom_y f k l.
Proof.
  intros [Hlen _] Hsum Hs.
  destruct (cells9_Num _ _ _ _ Hsum) as (a0&a1&a2&a3&a4&a5&a6&a7&a8&Hc&->).
  destruct (collide_cell f w k l _ _ _ _ _ _ _ _ _ Hlen Hc Hs)
    as (rho&ux&uy&f'&Hrun&_&_&_&Hf').
  exists (rho, ux, uy), f'. split; [done|].
  set (s := (a0 + a1 + a2 + a3 + a4 + a5 + a6 + a7 + a8)%Qc) in *.
  set (u := ((a1 - a3 + a5 - a6 - a7 + a8) / s)%Qc) in *.
  set (v := ((a2 - a4 + a5 + a6 - a7 - a8) / s)%Qc) in *.
  destruct (equilibrium_Num_moments s u v) as (e0&e1&e2&e3&e4&e5&e6&e7&e8&He&_&Hx&Hy).
  specialize (Hf' _ _ _ _ _ _ _ _ _ He).
  unfold cellmom_x, cellmom_y.
  pose proof (λ H, cells9_cells f' k l _ H Hf') as Hc'.
  pose proof (λ H, cells9_cells f k l _ H Hc) as Hc0.
  rewrite Hc', Hc0 by done.
  cbn [fmap list_fmap option_fmap option_map fst snd].
  destruct (moment_Num a0 a1 a2 a3 a4 a5 a6 a7 a8) as [-> ->].
  destruct (moment_Num (a0 + w * (e0 - a0)) (a1 + w * (e1 - a1)) (a2 + w * (e2 - a2))
    (a3 + w * (e3 - a3)) (a4 + w * (e4 - a4)) (a5 + w * (e5 - a5)) (a6 + w * (e6 - a6))
    (a7 + w * (e7 - a7)) (a8 + w * (e8 - a8))) as [-> ->].
  assert (Hxu : (s * u = a1 - a3 + a5 - a6 - a7 + a8)%Qc).
  { unfold u. field. done. }
  assert (Hyv : (s * v = a2 - a4 + a5 + a6 - a7 - a8)%Qc).
  { unfold v. field. done. }
  rewrite Hxu in Hx. rewrite Hyv in Hy.
  split; do 2 f_equal.
  - replace (a1 + w * (e1 - a1) - (a3 + w * (e3 - a3)) + (a5 + w * (e5 - a5))
             - (a6 + w * (e6 - a6)) - (a7 + w * (e7 - a7)) + (a8 + w * (e8 - a8)))%Qc
      with ((a1 - a3 + a5 - a6 - a7 + a8)
            + w * ((e1 - e3 + e5 - e6 - e7 + e8) - (a1 - a3 + a5 - a6 - a7 + a8)))%Qc by ring.
    rewrite Hx. ring.
  - replace (a2 + w * (e2 - a2) - (a4 + w * (e4 - a4)) + (a5 + w * (e5 - a5))
             + (a6 + w * (e6 - a6)) - (a7 + w * (e7 - a7)) - (a8 + w * (e8 - a8)))%Qc
      with ((a2 - a4 + a5 + a6 - a7 - a8)
            + w * ((e2 - e4 + e5 + e6 - e7 - e8) - (a2 - a4 + a5 + a6 - a7 - a8)))%Qc by ring.
    rewrite Hy. ring.
Qed.

(** X3: the fields collide returns, under exact arithmetic: over the
    rationals, at every cell of non-zero density, rho is the sum of the 9
    channels and rho ux, rho uy are the first moments of the array the call
    was given. *)
Theorem collide_returns_moments nx ny (f : dist) (w : Qc) k l s :
  shape3 9 nx ny f →
  cellsum f k l = Some (Num s) → s ≠ Q2Qc 0 →
  ∃ rho ux uy f' u v, collide (Num w) f = (Ok (rho, ux, uy), f')
    ∧ gcell rho k l = Some (Num s)
    ∧ gcell ux k l = Some (Num u)
    ∧ gcell uy k l = Some (Num v)
    ∧ cellmom_x f k l = Some (Num (s * u)%Qc)
    ∧ cellmom_y f k l = Some (Num (s * v)%Qc).
Proof.
  intros [Hlen _] Hsum Hs.
  destruct (cells9_Num _ _ _ _ Hsum) as (a0&a1&a2&a3&a4&a5&a6&a7&a8&Hc&->).
  destruct (collide_cell f w k l _ _ _ _ _ _ _ _ _ Hlen Hc Hs)
    as (rho&ux&uy&f'&Hrun&Hrho&Hux&Huy&_).
  exists rho, ux, uy, f'. do 2 eexists.
  split; [done|]. split; [done|]. split; [exact Hux|]. split; [exact Huy|].
  unfold cellmom_x, cellmom_y.
  pose proof (λ H, cells9_cells f k l _ H Hc) as Hc0.
  rewrite Hc0 by done. cbn [fmap option_fmap option_map].
  destruct (moment_Num a0 a1 a2 a3 a4 a5 a6 a7 a8) as [-> ->].
  split; do 2 f_equal; field; done.
Qed.

(** ** Shapes of elementwise expressions *)

Lemma grid_ext {A} nx ny (g g' : list (list A)) :
  shape2 nx ny g → shape2 nx ny g' →
  (∀ k l, k < nx → l < ny → gcell g k l = gcell g' k l) → g = g'.
Proof.
  intros [Hx Hy] [Hx' Hy'] H. apply list_eq. intros k.
  destruct (decide (k < nx)) as [Hk|Hk].
  - destruct (lookup_lt_is_Some_2 g k) as [c Hc]; [lia|].
    destruct (lookup_lt_is_Some_2 g' k) as [c' Hc']; [lia|].
    rewrite Hc, Hc'. f_equal. apply list_eq. intros l.
    rewrite Forall_lookup in Hy. rewrite Forall_lookup in Hy'.
    destruct (decide (l < ny)) as [Hl|Hl].
    + specialize (H k l Hk Hl). unfold gcell in H. by rewrite Hc, Hc' in H.
    + rewrite !lookup_ge_None_2; [done|rewrite (Hy' _ _ Hc'); lia|rewrite (Hy _ _ Hc); lia].
  - rewrite !lookup_ge_None_2; [done|lia..].
Qed.

Lemma dist_ext {A} n nx ny (f f' : list (list (list A))) :
  shape3 n nx ny f → shape3 n nx ny f' →
  (∀ i k l, i < n → k < nx → l < ny → cell f i k l = cell f' i k l) → f = f'.
Proof.
  intros [Hn Hf] [Hn' Hf'] H. apply list_eq. intros i.
  destruct (decide (i < n)) as [Hi|Hi].
  - destruct (lookup_lt_is_Some_2 f i) as [g Hg]; [lia|].
    destruct (lookup_lt_is_Some_2 f' i) as [g' Hg']; [lia|].
    rewrite Hg, Hg'. f_equal.
    rewrite Forall_lookup in Hf. rewrite Forall_lookup in Hf'.
    apply (grid_ext nx ny); eauto.
    intros k l Hk Hl. specialize (H i k l Hi Hk Hl). unfold cell in H.
    by rewrite Hg, Hg' in H.
  - rewrite !lookup_ge_None_2; [done|lia..].
Qed.

Lemma shape2_emap (h : val → val) nx ny (g : grid) :
  shape2 nx ny g → shape2 nx ny (emap h g).
Proof.
  intros [Hx Hy]. split; cbn; [by rewrite length_fmap|].
  apply Forall_fmap. eapply Forall_impl; [done|].
  intros c Hc. cbn. by rewrite length_fmap.
Qed.

Lemma shape2_ezip (h : val → val → val) nx ny (g1 g2 : grid) :
  shape2 nx ny g1 → shape2 nx ny g2 → shape2 nx ny (ezip h g1 g2).
Proof.
  intros [Hx1 Hy1] [Hx2 Hy2]. split; cbn; [rewrite length_zip_with; lia|].
  apply Forall_lookup. intros k c. rewrite lookup_zip_with.
  rewrite Forall_lookup in Hy1. rewrite Forall_lookup in Hy2.
  destruct (g1 !! k) as [c1|] eqn:H1; [|done]. cbn.
  destruct (g2 !! k) as [c2|] eqn:H2; [|done]. cbn.
  intros [= <-]. rewrite length_zip_with, (Hy1 _ _ H1), (Hy2 _ _ H2). lia.
Qed.

Lemma shape3_emap (h : val → val) n nx ny (f : dist) :
  shape3 n nx ny f → shape3 n nx ny (emap h f).
Proof.
  intros [Hn Hf]. split; cbn; [by rewrite length_fmap|].
  apply Forall_fmap. eapply Forall_impl; [done|].
  intros g Hg. by apply shape2_emap.
Qed.

Lemma shape3_ezip (h : val → val → val) n nx ny (f1 f2 : dist) :
  shape3 n nx ny f1 → shape3 n nx ny f2 → shape3 n nx ny (ezip h f1 f2).
Proof.
  intros [Hn1 Hf1] [Hn2 Hf2]. split; cbn; [rewrite length_zip_with; lia|].
  apply Forall_lookup. intros k c. rewrite lookup_zip_with.
  rewrite Forall_lookup in Hf1. rewrite Forall_lookup in Hf2.
  destruct (f1 !! k) as [c1|] eqn:H1; [|done]. cbn.
  destruct (f2 !! k) as [c2|] eqn:H2; [|done]. cbn.
  intros [= <-]. apply shape2_ezip; eauto.
Qed.

Lemma shape3_equilibrium nx ny (rho ux uy : grid) :
  shape2 nx ny rho → shape2 nx ny ux → shape2 nx ny uy →
  shape3 9 nx ny (equilibrium rho ux uy).
Proof.
  intros Hrho Hux Huy. unfold equilibrium. split; [done|].
  repeat apply Forall_cons_2; try apply Forall_nil_2;
    repeat first [ assumption | apply shape2_ezip | apply shape2_emap ].
Qed.

Lemma shape2_num nx ny (g : list (list Qc)) : shape2 nx ny g → shape2 nx ny (num g).
Proof.
  intros [Hx Hy]. unfold num. split; [by rewrite length_fmap|].
  apply Forall_fmap. eapply Forall_impl; [done|].
  intros c Hc. cbn. by rewrite length_fmap.
Qed.

(** [collide] returns on every array of 9 channels and keeps its shape. *)
Lemma collide_shape nx ny (f : dist) (omega : val) :
  shape3 9 nx ny f →
  ∃ rho ux uy f', collide omega f = (Ok (rho, ux, uy), f')
    ∧ shape2 nx ny rho ∧ shape2 nx ny ux ∧ shape2 nx ny uy ∧ shape3 9 nx ny f'.
Proof.
  intros Hf. pose proof Hf as [Hlen Hall].
  do 9 (destruct f as [|? f]; [done|]). destruct f; [|done].
  rewrite collide_run. do 4 eexists. split; [reflexivity|].
  repeat (apply Forall_cons in Hall as [? Hall]).
  assert (Hrho : shape2 nx ny (sum_axis0 [l; l0; l1; l2; l3; l4; l5; l6; l7])).
  { cbn [sum_axis0 foldl]. repeat apply shape2_ezip; assumption. }
  assert (Hux : shape2 nx ny ((l0 - l2 + l4 - l5 - l6 + l7) /
                 sum_axis0 [l; l0; l1; l2; l3; l4; l5; l6; l7])%arr).
  { repeat apply shape2_ezip; assumption. }
  assert (Huy : shape2 nx ny ((l1 - l3 + l4 + l5 - l6 - l7) /
                 sum_axis0 [l; l0; l1; l2; l3; l4; l5; l6; l7])%arr).
  { repeat apply shape2_ezip; assumption. }
  split; [done|]. split; [done|]. split; [done|].
  apply shape3_ezip; [done|]. apply shape3_emap. apply shape3_ezip; [|done].
  by apply shape3_equilibrium.
Qed.

Lemma gcell_Forall2 {A} (P : A → Prop) (g : list (list A)) k l a :
  Forall (Forall P) g → gcell g k l = Some a → P a.
Proof.
  intros Hg Ha. unfold gcell in Ha.
  destruct (g !! k) as [c|] eqn:Hc; [|done]. cbn in Ha.
  rewrite Forall_lookup in Hg. specialize (Hg _ _ Hc).
  rewrite Forall_lookup in Hg. eauto.
Qed.

(** X4: collide on an equilibrium, under exact arithmetic: for fields of
    rationals of one shape with no zero in rho, collide(equilibrium(rho, ux,
    uy), omega) returns (rho, ux, uy) and leaves the array as it is, for
    every relaxation rate. *)
Theorem collide_equilibrium_round_trip nx ny (rho ux uy : list (list Qc)) (w : Qc) :
  shape2 nx ny rho → shape2 nx ny ux → shape2 nx ny uy →
  Forall (Forall (λ r, r ≠ Q2Qc 0)) rho →
  collide (Num w) (equilibrium (num rho) (num ux) (num uy))
  = (Ok (num rho, num ux, num uy), equilibrium (num rho) (num ux) (num uy)).
Proof.
  intros Hrho Hux Huy Hnz.
  set (f := equilibrium (num rho) (num ux) (num uy)).
  assert (Hf : shape3 9 nx ny f) by (apply shape3_equilibrium; by apply shape2_num).
  destruct (collide_shape nx ny f (Num w) Hf) as (rho'&ux'&uy'&f'&Hrun&Hrho'&Hux'&Huy'&Hf').
  rewrite Hrun.
  assert (Hcell : ∀ k l, k < nx → l < ny →
    gcell rho' k l = gcell (num rho) k l ∧ gcell ux' k l = gcell (num ux) k l
    ∧ gcell uy' k l = gcell (num uy) k l ∧ ∀ i, i < 9 → cell f' i k l = cell f i k l).
  { intros k l Hk Hl.
    destruct (gcell_lt_Some _ _ _ k l Hrho Hk Hl) as [r Hr].
    destruct (gcell_lt_Some _ _ _ k l Hux Hk Hl) as [u Hu].
    destruct (gcell_lt_Some _ _ _ k l Huy Hk Hl) as [v Hv].
    pose proof (gcell_Forall2 _ _ _ _ _ Hnz Hr) as Hr0. cbn beta in Hr0.
    destruct (equilibrium_Num_moments r u v) as (e0&e1&e2&e3&e4&e5&e6&e7&e8&He&Hs&Hx&Hy).
    assert (Hc : ∀ i, i < 9 → cell f i k l
       = [Num e0; Num e1; Num e2; Num e3; Num e4; Num e5; Num e6; Num e7; Num e8] !! i).
    { intros i _. unfold f. rewrite cell_equilibrium, !gcell_num, Hr, Hu, Hv. cbn.
      by rewrite He. }
    destruct (collide_cell f w k l _ _ _ _ _ _ _ _ _ (proj1 Hf) Hc)
      as (rho''&ux''&uy''&f''&Hrun'&Hrho''&Hux''&Huy''&Hf'').
    { by rewrite Hs. }
    rewrite Hrun in Hrun'. injection Hrun' as <- <- <- <-.
    rewrite Hs in Hrho'', Hux'', Huy'', Hf''.
    rewrite Hx in Hux'', Hf''. rewrite Hy in Huy'', Hf''.
    assert (Hu' : (r * u / r = u)%Qc) by (field; done).
    assert (Hv' : (r * v / r = v)%Qc) by (field; done).
    rewrite Hu' in Hux'', Hf''. rewrite Hv' in Huy'', Hf''.
    rewrite !gcell_num, Hr, Hu, Hv. cbn [fmap option_fmap option_map].
    split; [done|]. split; [done|]. split; [done|].
    intros i Hi. rewrite (Hf'' _ _ _ _ _ _ _ _ _ He i Hi), (Hc i Hi).
    cbn [fmap list_fmap fst snd].
    do 9 (destruct i as [|i]; [cbn; do 2 f_equal; ring|]). lia. }
  f_equal; [do 2 f_equal; [f_equal|]|].
  - apply (grid_ext nx ny); [done|by apply shape2_num|]. intros k l Hk Hl. by apply Hcell.
  - apply (grid_ext nx ny); [done|by apply shape2_num|]. intros k l Hk Hl. by apply Hcell.
  - apply (grid_ext nx ny); [done|by apply shape2_num|]. intros k l Hk Hl. by apply Hcell.
  - apply (dist_ext 9 nx ny); [done..|]. intros i k l Hi Hk Hl. by apply Hcell.
Qed.

Lemma collide_equilibrium_round_trip_witness :
  shape2 1 2 [[Q2Qc (1 # 1); Q2Qc (2 # 1)]]
  ∧ shape2 1 2 [[Q2Qc (1 # 10); Q2Qc 0]]
  ∧ shape2 1 2 [[Q2Qc 0; Q2Qc (-1 # 5)]]
  ∧ collide omega (equilibrium (num [[Q2Qc (1 # 1); Q2Qc (2 # 1)]])
               (num [[Q2Qc (1 # 10); Q2Qc 0]]) (num [[Q2Qc 0; Q2Qc (-1 # 5)]]))
    = (Ok (num [[Q2Qc (1 # 1); Q2Qc (2 # 1)]], num [[Q2Qc (1 # 10); Q2Qc 0]],
           num [[Q2Qc 0; Q2Qc (-1 # 5)]]),
       equilibrium (num [[Q2Qc (1 # 1); Q2Qc (2 # 1)]])
               (num [[Q2Qc (1 # 10); Q2Qc 0]]) (num [[Q2Qc 0; Q2Qc (-1 # 5)]])).
Proof.
  assert (H1 : shape2 1 2 [[Q2Qc (1 # 1); Q2Qc (2 # 1)]]) by compute_done.
  assert (H2 : shape2 1 2 [[Q2Qc (1 # 10); Q2Qc 0]]) by compute_done.
  assert (H3 : shape2 1 2 [[Q2Qc 0; Q2Qc (-1 # 5)]]) by compute_done.
  assert (H4 : Forall (Forall (λ r, r ≠ Q2Qc 0)) [[Q2Qc (1 # 1); Q2Qc (2 # 1)]]).
  { repeat constructor; intros HH; apply (f_equal this) in HH; discriminate HH. }
  exact (conj H1 (conj H2 (conj H3
    (collide_equilibrium_round_trip 1 2 _ _ _ (Q2Qc (17 # 10)) H1 H2 H3 H4)))).
Defined.

(** ** Where streaming takes a value *)

Section roll_lookup.
Context {A : Type}.
Implicit Types (l : list A) (g : list (list A)).

Lemma roll_lookup l s i :
  i < length l →
  roll l s !! i = l !! Z.to_nat ((Z.of_nat i - s) `mod` Z.of_nat (length l)).
Proof.
  intros Hi. unfold roll. rewrite lookup_rotate_r by done. f_equal.
  unfold rotate_nat_add. f_equal.
  rewrite Z2Nat.id by (apply Z.mod_pos_bound; lia).
  rewrite Zplus_mod_idemp_l. f_equal. lia.
Qed.

Lemma roll_Permutation l s : roll l s ≡ₚ l.
Proof.
  unfold roll, rotate.
  rewrite Permutation_app_comm. by rewrite take_drop.
Qed.

Lemma fmap_roll {B} (h : A → B) l s : h <$> roll l s = roll (h <$> l) s.
Proof. unfold roll, rotate. by rewrite fmap_app, fmap_drop, fmap_take, length_fmap. Qed.
End roll_lookup.

Section roll2_lookup.
Context {A : Type}.
Implicit Types (g : list (list A)).

Lemma gcell_roll2 nx ny g (c : Z * Z) k l :
  shape2 nx ny g → k < nx → l < ny →
  gcell (roll2 g c) k l
  = gcell g (Z.to_nat ((Z.of_nat k - c.1) `mod` Z.of_nat nx))
            (Z.to_nat ((Z.of_nat l - c.2) `mod` Z.of_nat ny)).
Proof.
  intros [Hx Hy] Hk Hl. unfold gcell, roll2.
  rewrite roll_lookup by (by rewrite length_fmap, Hx).
  rewrite length_fmap, Hx, list_lookup_fmap.
  destruct (g !! _) as [col|] eqn:Hcol; [|done]. cbn.
  rewrite Forall_lookup in Hy. specialize (Hy _ _ Hcol).
  rewrite roll_lookup by lia. by rewrite Hy.
Qed.

Lemma concat_fmap_Permutation (h : list A → list A) g :
  (∀ c, h c ≡ₚ c) → concat (h <$> g) ≡ₚ concat g.
Proof.
  intros Hh. induction g as [|c g IH]; [done|]. cbn. by rewrite Hh, IH.
Qed.

Lemma concat_Permutation_proper g g' : g ≡ₚ g' → concat g ≡ₚ concat g'.
Proof.
  induction 1 as [|c g g' _ IH|c c' g|g g' g'' _ IH1 _ IH2]; cbn.
  - done.
  - by rewrite IH.
  - rewrite !(assoc app). by rewrite (Permutation_app_comm c c').
  - by rewrite IH1.
Qed.

Lemma roll2_Permutation g c : concat (roll2 g c) ≡ₚ concat g.
Proof.
  unfold roll2. rewrite (concat_Permutation_proper _ _ (roll_Permutation _ _)).
  apply concat_fmap_Permutation. intros col. apply roll_Permutation.
Qed.
End roll2_lookup.

Lemma stream_cell nx ny (f : dist) i k l :
  shape3 9 nx ny f → i < 9 → k < nx → l < ny →
  cell (stream f).2 i k l
  = cell f i (Z.to_nat ((Z.of_nat k - (c_ic !!! i).1) `mod` Z.of_nat nx))
             (Z.to_nat ((Z.of_nat l - (c_ic !!! i).2) `mod` Z.of_nat ny)).
Proof.
  intros [Hn Hs] Hi Hk Hl.
  do 9 (destruct f as [|? f]; [done|]). destruct f; [|done].
  unfold stream, c_ic. rewrite stream_by_run. cbn [snd].
  repeat (apply Forall_cons in Hs as [? Hs]).
  destruct i as [|i].
  { cbn. rewrite !Z.sub_0_r, !Z.mod_small, !Nat2Z.id by lia. done. }
  do 8 (destruct i as [|i];
    [rewrite !cell_cons_S, !cell_cons_0; by apply gcell_roll2|]).
  lia.
Qed.

(** X7: where streaming takes a value: the value of channel i at cell
    (k, l) is afterwards at ((k + cx) mod nx, (l + cy) mod ny), with
    (cx, cy) the velocity of the channel. *)
Theorem stream_moves_cells nx ny (f : dist) i k l :
  shape3 9 nx ny f → i < 9 → k < nx → l < ny →
  let c := c_ic !!! i in
  (stream f).1 = Ok tt
  ∧ cell (stream f).2 i (Z.to_nat ((Z.of_nat k + c.1) `mod` Z.of_nat nx))
                        (Z.to_nat ((Z.of_nat l + c.2) `mod` Z.of_nat ny))
    = cell f i k l.
Proof.
  intros Hf Hi Hk Hl c.
  assert (Hnx : 0 < nx) by lia. assert (Hny : 0 < ny) by lia.
  destruct (stream_ok nx ny f Hf) as [Hrun _].
  split; [by rewrite Hrun|].
  pose proof (Z.mod_pos_bound (Z.of_nat k + c.1) (Z.of_nat nx) ltac:(lia)).
  pose proof (Z.mod_pos_bound (Z.of_nat l + c.2) (Z.of_nat ny) ltac:(lia)).
  rewrite (stream_cell nx ny) by (done || lia). fold c.
  rewrite !Z2Nat.id by lia.
  rewrite !Zminus_mod_idemp_l.
  replace (Z.of_nat k + c.1 - c.1)%Z with (Z.of_nat k) by lia.
  replace (Z.of_nat l + c.2 - c.2)%Z with (Z.of_nat l) by lia.
  rewrite !Z.mod_small, !Nat2Z.id by lia. done.
Qed.

Lemma stream_moves_cells_witness :
  shape3 9 3 2 (by_channel 3 2) ∧ 5 < 9 ∧ 2 < 3 ∧ 1 < 2
  ∧ cell (stream (by_channel 3 2)).2 5 0 0 = cell (by_channel 3 2) 5 2 1.
Proof.
  assert (H1 : shape3 9 3 2 (by_channel 3 2)) by compute_done.
  assert (H2 : 5 < 9) by lia. assert (H3 : 2 < 3) by lia. assert (H4 : 1 < 2) by lia.
  exact (conj H1 (conj H2 (conj H3 (conj H4
    (proj2 (stream_moves_cells 3 2 _ 5 2 1 H1 H2 H3 H4)))))).
Defined.

(** X8: streaming moves values without making or losing any: every
    channel is afterwards a permutation of what it was. *)
Theorem stream_permutes_channels (f : dist) i g :
  length f = 9 → f !! i = Some g →
  ∃ g', stream f = (Ok tt, (stream f).2)
    ∧ (stream f).2 !! i = Some g' ∧ concat g' ≡ₚ concat g.
Proof.
  intros Hn Hg.
  do 9 (destruct f as [|? f]; [done|]). destruct f; [|done].
  unfold stream, c_ic. rewrite stream_by_run. cbn [snd].
  destruct i as [|i]; [eexists; split; [done|]; split; [exact Hg|done]|].
  do 8 (destruct i as [|i];
    [injection Hg as <-; eexists; split; [done|]; split; [reflexivity|];
     apply roll2_Permutation|]).
  done.
Qed.

Lemma stream_permutes_channels_witness :
  length (by_channel 2 2) = 9
  ∧ by_channel 2 2 !! 5 = Some (full 2 2 (val_of_Z 5))
  ∧ ∃ g', stream (by_channel 2 2) = (Ok tt, (stream (by_channel 2 2)).2)
    ∧ (stream (by_channel 2 2)).2 !! 5 = Some g'
    ∧ concat g' ≡ₚ concat (full 2 2 (val_of_Z 5)).
Proof.
  assert (H1 : length (by_channel 2 2) = 9) by reflexivity.
  assert (H2 : by_channel 2 2 !! 5 = Some (full 2 2 (val_of_Z 5))) by reflexivity.
  exact (conj H1 (conj H2 (stream_permutes_channels _ 5 _ H1 H2))).
Defined.

(** ** Every cell after [stream_and_bounce_back] *)



(** ** Sums over a grid *)

Lemma qsum_ext n c c' : (∀ j, j < n → c j = c' j) → qsum n c = qsum n c'.
Proof.
  induction n as [|n IH]; intros H; [done|]. cbn.
  rewrite IH by (intros; apply H; lia). by rewrite H by lia.
Qed.

Lemma qsum_first n c : qsum (S n) c = (c O + qsum n (λ j, c (S j)))%Qc.
Proof.
  induction n as [|n IH]; [cbn; ring|].
  change (qsum (S (S n)) c) with (qsum (S n) c + c (S n))%Qc.
  rewrite IH. cbn. ring.
Qed.

Lemma qsum2_ext nx ny c c' :
  (∀ k l, k < nx → l < ny → c k l = c' k l) → qsum2 nx ny c = qsum2 nx ny c'.
Proof. intros H. apply qsum_ext. intros k Hk. apply qsum_ext. intros l Hl. by apply H. Qed.

Lemma qsum_plus n c c' : qsum n (λ j, c j + c' j)%Qc = (qsum n c + qsum n c')%Qc.
Proof. induction n as [|n IH]; cbn; [ring|]. rewrite IH. ring. Qed.

Lemma qsum2_k_first mx ny c :
  qsum2 (S mx) ny c = (qsum ny (c O) + qsum2 mx ny (λ k l, c (S k) l))%Qc.
Proof. unfold qsum2. by rewrite qsum_first. Qed.

Lemma qsum2_k_last mx ny c :
  qsum2 (S mx) ny c = (qsum2 mx ny c + qsum ny (c mx))%Qc.
Proof. done. Qed.

Lemma qsum2_l_first nx my c :
  qsum2 nx (S my) c = (qsum nx (λ k, c k O) + qsum2 nx my (λ k l, c k (S l)))%Qc.
Proof.
  unfold qsum2. rewrite <-qsum_plus. apply qsum_ext. intros k _. apply qsum_first.
Qed.

Lemma qsum2_l_last nx my c :
  qsum2 nx (S my) c = (qsum2 nx my c + qsum nx (λ k, c k my))%Qc.
Proof. unfold qsum2. rewrite <-qsum_plus. apply qsum_ext. intros k _. reflexivity. Qed.

Lemma vsum_Num (v : vec) (c : nat → Qc) :
  (∀ j, j < length v → v !! j = Some (Num (c j))) → vsum v = Num (qsum (length v) c).
Proof.
  revert c. induction v as [|a v IH]; intros c H.
  { cbn. unfold val_of_Z. f_equal. by apply Qc_is_canon. }
  cbn [length]. rewrite qsum_first. cbn [vsum foldr].
  specialize (IH (λ j, c (S j))). unfold vsum in IH. rewrite IH.
  - specialize (H 0 ltac:(cbn; lia)). cbn in H. by injection H as ->.
  - intros j Hj. apply (H (S j)). cbn. lia.
Qed.

Lemma total_Num n nx ny (f : dist) (a : nat → nat → nat → Qc) :
  shape3 n nx ny f →
  (∀ i k l, i < n → k < nx → l < ny → cell f i k l = Some (Num (a i k l))) →
  total_mass f = Num (qsum n (λ i, qsum2 nx ny (a i))).
Proof.
  intros [Hn Hf] H. unfold total_mass. rewrite <-Hn, <-(length_fmap (λ g : grid, vsum (vsum <$> g))).
  apply vsum_Num. intros i. rewrite length_fmap, Hn, list_lookup_fmap. intros Hi.
  destruct (lookup_lt_is_Some_2 f i) as [g Hg]; [lia|]. rewrite Hg. cbn. f_equal.
  rewrite Forall_lookup in Hf. destruct (Hf _ _ Hg) as [Hx Hy].
  unfold qsum2. rewrite <-Hx, <-(length_fmap vsum).
  apply vsum_Num. intros k. rewrite length_fmap, Hx, list_lookup_fmap. intros Hk.
  destruct (lookup_lt_is_Some_2 g k) as [c Hc]; [lia|]. rewrite Hc. cbn. f_equal.
  rewrite Forall_lookup in Hy. rewrite <-(Hy _ _ Hc).
  apply vsum_Num. intros l Hl. rewrite (Hy _ _ Hc) in Hl.
  specialize (H i k l Hi Hk Hl). unfold cell in H. rewrite Hg in H. cbn in H.
  unfold gcell in H. by rewrite Hc in H.
Qed.

Lemma numeric_cell (f : dist) i k l x :
  numeric f → cell f i k l = Some x → x ≠ Undef.
Proof.
  intros Hf Hx. unfold cell, gcell in Hx.
  destruct (f !! i) as [g|] eqn:Hg; [|done]. cbn in Hx.
  destruct (g !! k) as [c|] eqn:Hc; [|done]. cbn in Hx.
  unfold numeric in Hf. rewrite Forall_lookup in Hf. specialize (Hf _ _ Hg).
  rewrite Forall_lookup in Hf. specialize (Hf _ _ Hc).
  rewrite Forall_lookup in Hf. eauto.
Qed.

(** The four ways to split a sum over a grid along its first or last row
    and its first or last column. *)

Ltac shifted :=
  intros; cbn beta; repeat case_decide; try lia; try reflexivity; f_equal; lia.

Lemma qsum2_FF mx my c :
  qsum2 (S mx) (S my) c
  = (c O O + qsum my (λ l, c O (S l)) + qsum mx (λ k, c (S k) O)
     + qsum2 mx my (λ k l, c (S k) (S l)))%Qc.
Proof.
  rewrite qsum2_k_first, qsum_first, qsum2_l_first. ring.
Qed.

Lemma qsum2_LL mx my c :
  qsum2 (S mx) (S my) c
  = (qsum2 mx my c + qsum mx (λ k, c k my) + qsum my (c mx) + c mx my)%Qc.
Proof.
  rewrite qsum2_k_last, qsum2_l_last. cbn [qsum]. ring.
Qed.

Lemma qsum2_LF mx my c :
  qsum2 (S mx) (S my) c
  = (qsum mx (λ k, c k O) + c mx O + qsum my (λ l, c mx (S l))
     + qsum2 mx my (λ k l, c k (S l)))%Qc.
Proof.
  rewrite qsum2_k_last, qsum2_l_first, qsum_first. ring.
Qed.

Lemma qsum2_FL mx my c :
  qsum2 (S mx) (S my) c
  = (c O my + qsum my (c O) + qsum mx (λ k, c (S k) my)
     + qsum2 mx my (λ k l, c (S k) l))%Qc.
Proof.
  rewrite qsum2_k_first, qsum2_l_last. cbn [qsum]. ring.
Qed.

(** What leaves through a wall comes back through it: the sums of a pair of
    opposite channels after streaming with bounce-back. *)

Lemma bounce_pair_x mx ny (aE aW : nat → nat → Qc) :
  Qcplus (qsum2 (S mx) ny (λ k l, if decide (k = 0) then aW k l else aE (k - 1) l))
         (qsum2 (S mx) ny (λ k l, if decide (k = mx) then aE k l else aW (k + 1) l))
  = Qcplus (qsum2 (S mx) ny aE) (qsum2 (S mx) ny aW).
Proof.
  rewrite (qsum2_k_first mx ny (λ k l, if decide (k = 0) then _ else _)).
  rewrite (qsum2_k_last mx ny (λ k l, if decide (k = mx) then _ else _)).
  rewrite (qsum2_k_last mx ny aE), (qsum2_k_first mx ny aW).
  rewrite (qsum2_ext mx ny (λ k l, if decide (S k = 0) then _ else _) aE) by shifted.
  rewrite (qsum2_ext mx ny (λ k l, if decide (k = mx) then _ else _)
             (λ k l, aW (S k) l)) by shifted.
  rewrite (qsum_ext ny (λ l, if decide (0 = 0) then _ else _) (aW O)) by shifted.
  rewrite (qsum_ext ny (λ l, if decide (mx = mx) then _ else _) (aE mx)) by shifted.
  ring.
Qed.

Lemma bounce_pair_y nx my (aN aS : nat → nat → Qc) :
  Qcplus (qsum2 nx (S my) (λ k l, if decide (l = 0) then aS k l else aN k (l - 1)))
         (qsum2 nx (S my) (λ k l, if decide (l = my) then aN k l else aS k (l + 1)))
  = Qcplus (qsum2 nx (S my) aN) (qsum2 nx (S my) aS).
Proof.
  rewrite (qsum2_l_first nx my (λ k l, if decide (l = 0) then _ else _)).
  rewrite (qsum2_l_last nx my (λ k l, if decide (l = my) then _ else _)).
  rewrite (qsum2_l_last nx my aN), (qsum2_l_first nx my aS).
  rewrite (qsum2_ext nx my (λ k l, if decide (S l = 0) then _ else _) aN) by shifted.
  rewrite (qsum2_ext nx my (λ k l, if decide (l = my) then _ else _)
             (λ k l, aS k (S l))) by shifted.
  rewrite (qsum_ext nx (λ k, if decide (0 = 0) then _ else _) (λ k, aS k O)) by shifted.
  rewrite (qsum_ext nx (λ k, if decide (my = my) then _ else _) (λ k, aN k my)) by shifted.
  ring.
Qed.

Lemma qsum_minus n c c' : qsum n (λ j, c j - c' j)%Qc = (qsum n c - qsum n c')%Qc.
Proof. induction n as [|n IH]; cbn; [ring|]. rewrite IH. ring. Qed.

(** On the diagonals the lid takes [t k] from channel SW and adds it to
    channel SE above column [k], except where the side walls overwrite the
    top row. *)

Lemma bounce_pair_NE_SW mx my (aNE aSW : nat → nat → Qc) (t : nat → Qc) :
  Qcplus
    (qsum2 (S mx) (S my)
       (λ k l, if decide (l = 0 ∨ k = 0) then aSW k l else aNE (k - 1) (l - 1)))
    (qsum2 (S mx) (S my)
       (λ k l, if decide (k = mx) then aNE k l
               else if decide (l = my) then Qcminus (aNE k l) (t k)
               else aSW (k + 1) (l + 1)))
  = Qcminus (Qcplus (qsum2 (S mx) (S my) aNE) (qsum2 (S mx) (S my) aSW)) (qsum mx t).
Proof.
  rewrite (qsum2_FF mx my (λ k l, if decide (l = 0 ∨ k = 0) then _ else _)).
  rewrite (qsum2_LL mx my (λ k l, if decide (k = mx) then _ else _)).
  rewrite (qsum2_LL mx my aNE), (qsum2_FF mx my aSW).
  cbn beta.
  rewrite (qsum_ext my (λ l, if decide (S l = 0 ∨ 0 = 0) then _ else _)
             (λ l, aSW O (S l))) by shifted.
  rewrite (qsum_ext mx (λ k, if decide (0 = 0 ∨ S k = 0) then _ else _)
             (λ k, aSW (S k) O)) by shifted.
  rewrite (qsum2_ext mx my (λ k l, if decide (S l = 0 ∨ S k = 0) then _ else _) aNE)
    by shifted.
  rewrite (qsum2_ext mx my (λ k l, if decide (k = mx) then _ else _)
             (λ k l, aSW (S k) (S l))) by shifted.
  rewrite (qsum_ext mx (λ k, if decide (k = mx) then _ else _)
             (λ k, Qcminus (aNE k my) (t k))) by shifted.
  rewrite (qsum_ext my (λ l, if decide (mx = mx) then _ else _)
             (aNE mx)) by shifted.
  rewrite (qsum_minus mx (λ k, aNE k my) t).
  rewrite (decide_True (P := 0 = 0 ∨ 0 = 0)) by lia.
  rewrite (decide_True (P := mx = mx)) by lia.
  ring.
Qed.

Lemma bounce_pair_NW_SE mx my (aNW aSE : nat → nat → Qc) (t : nat → Qc) :
  Qcplus
    (qsum2 (S mx) (S my)
       (λ k l, if decide (l = 0 ∨ k = mx) then aSE k l else aNW (k + 1) (l - 1)))
    (qsum2 (S mx) (S my)
       (λ k l, if decide (k = 0) then aNW k l
               else if decide (l = my) then Qcplus (aNW k l) (t k)
               else aSE (k - 1) (l + 1)))
  = Qcplus (Qcplus (qsum2 (S mx) (S my) aNW) (qsum2 (S mx) (S my) aSE))
           (qsum mx (λ k, t (S k))).
Proof.
  rewrite (qsum2_LF mx my (λ k l, if decide (l = 0 ∨ k = mx) then _ else _)).
  rewrite (qsum2_FL mx my (λ k l, if decide (k = 0) then _ else _)).
  rewrite (qsum2_FL mx my aNW), (qsum2_LF mx my aSE).
  cbn beta.
  rewrite (qsum_ext mx (λ k, if decide (0 = 0 ∨ k = mx) then _ else _)
             (λ k, aSE k O)) by shifted.
  rewrite (qsum_ext my (λ l, if decide (S l = 0 ∨ mx = mx) then _ else _)
             (λ l, aSE mx (S l))) by shifted.
  rewrite (qsum2_ext mx my (λ k l, if decide (S l = 0 ∨ k = mx) then _ else _)
             (λ k l, aNW (S k) l)) by shifted.
  rewrite (qsum_ext my (λ l, if decide (0 = 0) then _ else _)
             (aNW O)) by shifted.
  rewrite (qsum_ext mx (λ k, if decide (S k = 0) then _ else _)
             (λ k, Qcplus (aNW (S k) my) (t (S k)))) by shifted.
  rewrite (qsum2_ext mx my (λ k l, if decide (S k = 0) then _ else _)
             (λ k l, aSE k (S l))) by shifted.
  rewrite (qsum_plus mx (λ k, aNW (S k) my) (λ k, t (S k))).
  rewrite (decide_True (P := 0 = 0 ∨ mx = mx)) by lia.
  rewrite (decide_True (P := 0 = 0)) by lia.
  ring.
Qed.

(** ** Numbers stay numbers *)

Lemma num_at_add k (v1 v2 : vec) : num_at k v1 → num_at k v2 → num_at k (ezip vadd v1 v2).
Proof.
  intros [q1 H1] [q2 H2]. exists (q1 + q2)%Qc.
  by rewrite lookup_ezip_vec, H1, H2.
Qed.

Lemma num_cell_assign_il (s : dist) i' l' v i k l :
  (∃ q, cell s i k l = Some (Num q)) → num_at k v →
  ∃ q, cell (assign (sel_il i' l' v) s) i k l = Some (Num q).
Proof.
  intros [q Hq] [q' Hq']. rewrite cell_assign, Hq. cbn. unfold sel_il.
  case_decide; [rewrite Hq'|]; cbn; eauto.
Qed.

Lemma six_w : ∃ cw : Qc, (6 * w_5678)%arr = Num cw.
Proof.
  unfold w_5678. cbn [ezip val_elementwise]. vdiv_consts. by eexists.
Qed.

Lemma Qc_of_Z_0 : Qc_of_Z 0 = Q2Qc 0.
Proof. by apply Qc_is_canon. Qed.

Lemma lid_momentum_num (f : dist) top (u : Qc) k :
  num_at k (rhobottom_k f top) → num_at k (lid_momentum f top (Num u)).
Proof.
  intros [r Hr]. destruct six_w as [cw Hcw]. unfold num_at, lid_momentum.
  rewrite !lookup_emap_vec, Hr, Hcw. cbn. eauto.
Qed.

Lemma lid_momentum_rest (f : dist) top k q :
  lid_momentum f top (val_of_Z 0) !! k = Some (Num q) → q = Q2Qc 0.
Proof.
  unfold lid_momentum. rewrite !lookup_emap_vec.
  destruct (rhobottom_k f top !! k) as [y|]; [|done].
  cbn [fmap option_fmap option_map].
  destruct (vmul _ y) as [q'|]; [|done]. cbn. intros [= <-].
  rewrite Qc_of_Z_0. ring.
Qed.

(** ** The mass on the grid *)

(** The balance of one call, for every lid speed: each pair of opposite
    channels keeps its sum but for the lid terms; the two theorems after it
    read it at a moving lid and at a lid at rest. *)
Lemma bounce_back_total nx ny (f : dist) (u : Qc) :
  shape3 9 nx ny f → 0 < nx → 0 < ny → numeric f →
  ∃ m t0 t1,
    total_mass f = Num m
    ∧ lid_momentum f (ny - 1) (Num u) !! 0 = Some (Num t0)
    ∧ lid_momentum f (ny - 1) (Num u) !! (nx - 1) = Some (Num t1)
    ∧ (stream_and_bounce_back (Num u) f).1 = Ok tt
    ∧ total_mass (stream_and_bounce_back (Num u) f).2 = Num (m - t0 + t1)%Qc.
Proof.
  intros Hf Hnx Hny Hnum.
  destruct nx as [|mx]; [lia|]. destruct ny as [|my]; [lia|].
  set (nx := S mx) in *. set (ny := S my) in *.
  assert (Hmx : nx - 1 = mx) by (unfold nx; lia).
  assert (Hmy : ny - 1 = my) by (unfold ny; lia).
  rewrite Hmx, Hmy.
  set (a := λ i k l : nat, qval (cellv f i k l)).
  assert (Ha : ∀ i k l, i < 9 → k < nx → l < ny → cell f i k l = Some (Num (a i k l))).
  { intros i k l Hi Hk Hl. pose proof (cell_cellv 9 nx ny f i k l Hf Hi Hk Hl) as Hc.
    rewrite Hc. f_equal. unfold a.
    pose proof (numeric_cell f i k l _ Hnum Hc). by destruct (cellv f i k l). }
  destruct (stream_ok nx ny f Hf) as [_ Hs0].
  set (s0 := (stream f).2) in *.
  assert (Hpost : ∀ i k l k' l', i < 9 → k < nx → l < ny → k' < nx → l' < ny →
    Z.of_nat k' = (Z.of_nat k - (c_ic !!! i).1)%Z →
    Z.of_nat l' = (Z.of_nat l - (c_ic !!! i).2)%Z →
    cell s0 i k l = Some (Num (a i k' l'))).
  { intros i k l k' l' Hi Hk Hl Hk' Hl' Ek El. unfold s0.
    rewrite (stream_cell nx ny) by done. rewrite <-Ek, <-El.
    rewrite !Z.mod_small, !Nat2Z.id by lia. by apply Ha. }
  assert (Hnum0 : ∀ i k l, i < 9 → k < nx → l < ny → ∃ q, cell s0 i k l = Some (Num q)).
  { intros i k l Hi Hk Hl. unfold s0. rewrite (stream_cell nx ny) by done.
    eexists. apply Ha; [done|..].
    - pose proof (Z.mod_pos_bound (Z.of_nat k - (c_ic !!! i).1) (Z.of_nat nx) ltac:(lia)). lia.
    - pose proof (Z.mod_pos_bound (Z.of_nat l - (c_ic !!! i).2) (Z.of_nat ny) ltac:(lia)). lia. }
  assert (Ht : ∀ j k, j < 9 → k < nx → (slice_l my f !!! j) !! k = Some (Num (a j k my))).
  { intros j k Hj Hk. rewrite (slice_l_lookup _ _ _ _ Hf) by (done || lia).
    apply Ha; done || lia. }
  assert (Hrho : ∀ k, k < nx → num_at k (rhobottom_k f my)).
  { intros k Hk. unfold rhobottom_k. cbv zeta.
    repeat apply num_at_add.
    1-3: eexists; apply Ht; done || lia.
    all: unfold num_at; rewrite (row_l_lookup 9 nx ny) by
           (done || lia || (repeat apply shape_assign; exact Hs0)).
    all: repeat apply num_cell_assign_il.
    all: first [ apply Hnum0; done || lia
               | eexists; rewrite (slice_l_lookup _ _ _ _ Hf) by (done || lia);
                 apply Ha; done || lia ]. }
  set (lid := lid_momentum f my (Num u)).
  set (t := λ k : nat, qval (lid !!! k)).
  assert (Hlid : ∀ k, k < nx → lid !! k = Some (Num (t k))).
  { intros k Hk. destruct (lid_momentum_num f my u k (Hrho k Hk)) as [q Hq].
    fold lid in Hq. unfold t. by rewrite (list_lookup_total_correct _ _ _ Hq). }
  set (b := λ i k l : nat,
    match i with
    | 0 => a 0 k l
    | 1 => if decide (k = 0) then a 3 k l else a 1 (k - 1) l
    | 2 => if decide (l = 0) then a 4 k l else a 2 k (l - 1)
    | 3 => if decide (k = mx) then a 1 k l else a 3 (k + 1) l
    | 4 => if decide (l = my) then a 2 k l else a 4 k (l + 1)
    | 5 => if decide (l = 0 ∨ k = 0) then a 7 k l else a 5 (k - 1) (l - 1)
    | 6 => if decide (l = 0 ∨ k = mx) then a 8 k l else a 6 (k + 1) (l - 1)
    | 7 => if decide (k = mx) then a 5 k l
           else if decide (l = my) then Qcminus (a 5 k l) (t k)
           else a 7 (k + 1) (l + 1)
    | _ => if decide (k = 0) then a 6 k l
           else if decide (l = my) then Qcplus (a 6 k l) (t k)
           else a 8 (k - 1) (l + 1)
    end).
  set (f' := (stream_and_bounce_back (Num u) f).2).
  assert (Hrun : (stream_and_bounce_back (Num u) f).1 = Ok tt).
  { by destruct (stream_and_bounce_back_cell nx ny f (Num u) 0 0 Hf Hnx Hny) as [? _]. }
  assert (Hf' : shape3 9 nx ny f').
  { unfold f'. rewrite (stream_and_bounce_back_run nx ny f _ Hnx Hny Hf). cbn [snd].
    repeat apply shape_assign. exact Hs0. }
  assert (Hb : ∀ i k l, i < 9 → k < nx → l < ny → cell f' i k l = Some (Num (b i k l))).
  { intros i k l Hi Hk Hl.
    assert (Hpre : ∀ j, j < 9 → cellv f j k l = Num (a j k l)).
    { intros j Hj. pose proof (Ha j k l Hj Hk Hl) as E.
      rewrite (cell_cellv 9 nx ny) in E by done. by injection E. }
    assert (Hpo : ∀ j k' l', j < 9 → k' < nx → l' < ny →
      Z.of_nat k' = (Z.of_nat k - (c_ic !!! j).1)%Z →
      Z.of_nat l' = (Z.of_nat l - (c_ic !!! j).2)%Z →
      cellv s0 j k l = Num (a j k' l')).
    { intros j k' l' Hj Hk' Hl' Ek El. pose proof (Hpost j k l k' l' Hj Hk Hl Hk' Hl' Ek El) as E.
      rewrite (cell_cellv 9 nx ny) in E by done. by injection E. }
    generalize (stream_and_bounce_back_cell nx ny f (Num u) k l Hf Hk Hl).
    cbv zeta. fold s0 f'. rewrite Hmx, Hmy. fold lid.
    intros (_ & C0 & C1 & C2 & C3 & C4 & C5 & C6 & C7 & C8).
    unfold b.
    destruct i as [|[|[|[|[|[|[|[|[|i]]]]]]]]]; [..|lia].
    - rewrite C0. f_equal. apply Hpo; cbn; lia.
    - rewrite C1. f_equal. destruct (decide (k = 0)); [apply Hpre; lia|].
      apply Hpo; cbn; lia.
    - rewrite C2. f_equal. destruct (decide (l = 0)); [apply Hpre; lia|].
      apply Hpo; cbn; lia.
    - rewrite C3. f_equal. destruct (decide (k = mx)); [apply Hpre; lia|].
      apply Hpo; cbn; lia.
    - rewrite C4. f_equal. destruct (decide (l = my)); [apply Hpre; lia|].
      apply Hpo; cbn; lia.
    - rewrite C5. f_equal. destruct (decide (l = 0 ∨ k = 0)); [apply Hpre; lia|].
      apply Hpo; cbn; lia.
    - rewrite C6. f_equal. destruct (decide (l = 0 ∨ k = mx)); [apply Hpre; lia|].
      apply Hpo; cbn; lia.
    - rewrite C7. f_equal.
      destruct (decide (k = mx)) as [Ek|Ek]; [apply Hpre; lia|].
      destruct (decide (l = my)) as [->|El]; [|apply Hpo; cbn; lia].
      by rewrite lookup_ezip_vec, Ht, Hlid by (done || lia).
    - rewrite C8. f_equal.
      destruct (decide (k = 0)) as [Ek|Ek]; [apply Hpre; lia|].
      destruct (decide (l = my)) as [->|El]; [|apply Hpo; cbn; lia].
      by rewrite lookup_ezip_vec, Ht, Hlid by (done || lia). }
  exists (qsum 9 (λ i, qsum2 nx ny (a i))), (t 0), (t mx).
  split; [by apply (total_Num 9 nx ny)|].
  split; [apply Hlid; lia|]. split; [apply Hlid; unfold nx; lia|]. split; [done|].
  rewrite (total_Num 9 nx ny f' b Hf' Hb). f_equal.
  clearbody a t. clear -b. subst b. cbn [qsum]. unfold nx, ny.
  pose proof (bounce_pair_x mx (S my) (a 1) (a 3)) as P13.
  pose proof (bounce_pair_y (S mx) my (a 2) (a 4)) as P24.
  pose proof (bounce_pair_NE_SW mx my (a 5) (a 7) t) as P57.
  pose proof (bounce_pair_NW_SE mx my (a 6) (a 8) t) as P68.
  match type of P13 with Qcplus ?x ?y = _ => set (B1 := x) in *; set (B3 := y) in * end.
  match type of P24 with Qcplus ?x ?y = _ => set (B2 := x) in *; set (B4 := y) in * end.
  match type of P57 with Qcplus ?x ?y = _ => set (B5 := x) in *; set (B7 := y) in * end.
  match type of P68 with Qcplus ?x ?y = _ => set (B6 := x) in *; set (B8 := y) in * end.
  clearbody B1 B2 B3 B4 B5 B6 B7 B8.
  change (λ k l : nat, a 0 k l) with (a 0).
  transitivity (Q2Qc 0 + qsum2 (S mx) (S my) (a O) + (B1 + B3) + (B2 + B4) + (B5 + B7) + (B6 + B8))%Qc;
    [ring|].
  rewrite P13, P24, P57, P68.
  pose proof (qsum_first mx t) as Hfirst. cbn [qsum] in Hfirst.
  set (T := qsum mx (λ k, t (S k))) in *.
  replace T with (qsum mx t + t mx - t O)%Qc by (rewrite Hfirst; ring).
  ring.
Qed.

(** X11: the mass balance of one call of stream_and_bounce_back, under
    exact arithmetic: on an array of rationals and with a rational lid speed
    the total changes by the lid term above the last column minus the lid
    term above the first column, the two columns where the side walls
    overwrite what the lid block wrote. *)
Theorem lid_mass_balance nx ny (f : dist) (u : Qc) :
  shape3 9 nx ny f → 0 < nx → 0 < ny → numeric f →
  ∃ m t0 t1,
    total_mass f = Num m
    ∧ lid_momentum f (ny - 1) (Num u) !! 0 = Some (Num t0)
    ∧ lid_momentum f (ny - 1) (Num u) !! (nx - 1) = Some (Num t1)
    ∧ (stream_and_bounce_back (Num u) f).1 = Ok tt
    ∧ total_mass (stream_and_bounce_back (Num u) f).2 = Num (m - t0 + t1)%Qc.
Proof. apply bounce_back_total. Qed.

(** X12: with the lid at rest (u0 = 0) stream_and_bounce_back conserves
    the total mass of an array of numbers: nothing leaves through the four
    walls. *)
Theorem closed_cavity_conserves_mass nx ny (f : dist) :
  shape3 9 nx ny f → 0 < nx → 0 < ny → numeric f →
  (stream_and_bounce_back (val_of_Z 0) f).1 = Ok tt
  ∧ ∃ m, total_mass f = Num m ∧ total_mass (stream_and_bounce_back (val_of_Z 0) f).2 = Num m.
Proof.
  intros Hf Hnx Hny Hnum.
  destruct (bounce_back_total nx ny f (Qc_of_Z 0) Hf Hnx Hny Hnum)
    as (m & t0 & t1 & Hm & H0 & H1 & Hrun & Htot).
  change (Num (Qc_of_Z 0)) with (val_of_Z 0) in *.
  apply lid_momentum_rest in H0 as ->. apply lid_momentum_rest in H1 as ->.
  split; [done|]. exists m. split; [done|]. rewrite Htot. f_equal. ring.
Qed.

(** ** A single process *)

Lemma assign_own_k nx ny (s : dist) j :
  0 < nx → 0 < ny → shape3 9 nx ny s → j < nx → assign (sel_k j (slice_k j s)) s = s.
Proof.
  intros Hnx Hny Hs Hj. apply (dist_ext 9 nx ny); [by apply shape_assign|done|].
  intros i k l _ _ _. by apply (cell_assign_own_k nx ny).
Qed.

Lemma assign_own_l nx ny (s : dist) j :
  0 < nx → 0 < ny → shape3 9 nx ny s → j < ny → assign (sel_l j (slice_l j s)) s = s.
Proof.
  intros Hnx Hny Hs Hj. apply (dist_ext 9 nx ny); [by apply shape_assign|done|].
  intros i k l _ _ _. by apply (cell_assign_own_l nx ny).
Qed.

Lemma exchange_alone get set recv_at send_at (dst src : neighbours → Z)
    (nb : neighbours) (f : dist) r s f' :
  get recv_at f = Ok r → get send_at f = Ok s → (src nb < 0)%Z →
  set recv_at r f = Ok f' →
  exchange get set recv_at send_at dst src [nb] [f] = Ok [f'].
Proof.
  intros Hr Hs Hsrc Hset. unfold exchange. cbn [zip_with sequence].
  rewrite Hr, Hs. cbn [obind]. unfold Sendrecv_all. cbn [imap sequence].
  rewrite deliver_none by done. cbn [obind zip_with sequence]. by rewrite Hset.
Qed.

Lemma topology_1_1 : topology 1 1 = [neighbours_at 1 1 0 0].
Proof. reflexivity. Qed.

(** X13: a single process has no neighbour: communicate leaves its array,
    of at least two layers along each axis, as it is. *)
Theorem communicate_single_process nx ny (f : dist) :
  shape3 9 nx ny f → 2 ≤ nx → 2 ≤ ny →
  communicate (topology 1 1) [f] = Ok [f].
Proof.
  intros Hf Hnx Hny. rewrite topology_1_1. unfold communicate.
  erewrite (exchange_alone get_k set_k).
  2,3: (apply (get_k_run nx ny); [lia|lia|done|layer_index]).
  2: done.
  2: { apply (set_k_run nx ny); [lia|lia|done|layer_index|].
       apply (lengths_slice_k nx ny); done || lia. }
  cbn [obind]. rewrite (assign_own_k nx ny) by (done || lia).
  erewrite (exchange_alone get_k set_k).
  2,3: (apply (get_k_run nx ny); [lia|lia|done|layer_index]).
  2: done.
  2: { apply (set_k_run nx ny); [lia|lia|done|layer_index|].
       apply (lengths_slice_k nx ny); done || lia. }
  cbn [obind]. rewrite (assign_own_k nx ny) by (done || lia).
  erewrite (exchange_alone get_l set_l).
  2,3: (apply (get_l_run nx ny); [lia|lia|done|layer_index]).
  2: done.
  2: { apply (set_l_run nx ny); [lia|lia|done|layer_index|].
       by apply (lengths_slice_l nx ny). }
  cbn [obind]. rewrite (assign_own_l nx ny) by (done || lia).
  erewrite (exchange_alone get_l set_l).
  2,3: (apply (get_l_run nx ny); [lia|lia|done|layer_index]).
  2: done.
  2: { apply (set_l_run nx ny); [lia|lia|done|layer_index|].
       by apply (lengths_slice_l nx ny). }
  by rewrite (assign_own_l nx ny) by (done || lia).
Qed.

Lemma communicate_single_process_witness :
  shape3 9 2 2 (by_channel 2 2) ∧ 2 ≤ 2 ∧ 2 ≤ 2
  ∧ communicate (topology 1 1) [by_channel 2 2] = Ok [by_channel 2 2].
Proof.
  assert (H1 : shape3 9 2 2 (by_channel 2 2)) by compute_done.
  assert (H2 : 2 ≤ 2) by lia.
  exact (conj H1 (conj H2 (conj H2 (communicate_single_process 2 2 _ H1 H2 H2)))).
Defined.

Lemma index_1_out : index 1 1 = Raise IndexError.
Proof. reflexivity. Qed.

(** X14: communicate reads the layers 1 and -2 also where there is no
    neighbour: on an array with a single layer along x or along y it raises
    IndexError. *)
Theorem communicate_single_layer nx ny (f : dist) :
  shape3 9 nx ny f → 0 < nx → 0 < ny → nx = 1 ∨ ny = 1 →
  communicate (topology 1 1) [f] = Raise IndexError.
Proof.
  intros Hf Hnx Hny Hone. rewrite topology_1_1. unfold communicate.
  destruct (decide (nx = 1)) as [->|Hx].
  { unfold exchange at 1. cbn [zip_with sequence].
    rewrite (get_k_run 1 ny Hnx Hny f Hf (-1) 0) by done.
    unfold get_k at 1. destruct (shape3_len _ _ _ _ Hf) as (_ & -> & _); [lia..|].
    by rewrite index_1_out. }
  assert (ny = 1) as -> by lia.
  erewrite (exchange_alone get_k set_k).
  2,3: (apply (get_k_run nx 1); [lia|lia|done|layer_index]).
  2: done.
  2: { apply (set_k_run nx 1); [lia|lia|done|layer_index|].
       apply (lengths_slice_k nx 1); done || lia. }
  cbn [obind]. rewrite (assign_own_k nx 1) by (done || lia).
  erewrite (exchange_alone get_k set_k).
  2,3: (apply (get_k_run nx 1); [lia|lia|done|layer_index]).
  2: done.
  2: { apply (set_k_run nx 1); [lia|lia|done|layer_index|].
       apply (lengths_slice_k nx 1); done || lia. }
  cbn [obind]. rewrite (assign_own_k nx 1) by (done || lia).
  unfold exchange at 1. cbn [zip_with sequence].
  rewrite (get_l_run nx 1 Hnx Hny f Hf (-1) 0) by done.
  unfold get_l at 1. destruct (shape3_len _ _ _ _ Hf) as (_ & _ & ->); [lia..|].
  by rewrite index_1_out.
Qed.

Lemma communicate_single_layer_witness :
  shape3 9 1 3 (by_channel 1 3) ∧ 0 < 1 ∧ 0 < 3 ∧ (1 = 1 ∨ 3 = 1)
  ∧ communicate (topology 1 1) [by_channel 1 3] = Raise IndexError.
Proof.
  assert (H1 : shape3 9 1 3 (by_channel 1 3)) by compute_done.
  assert (H2 : 0 < 1) by lia. assert (H3 : 0 < 3) by lia.
  assert (H4 : 1 = 1 ∨ 3 = 1) by (left; reflexivity).
  exact (conj H1 (conj H2 (conj H3 (conj H4 (communicate_single_layer 1 3 _ H1 H2 H3 H4))))).
Defined.

(** ** The main loop of a single process *)

Lemma shape2_full nx ny (a : val) : shape2 nx ny (full nx ny a).
Proof.
  unfold full. split; [by rewrite length_replicate|].
  apply Forall_replicate. by rewrite length_replicate.
Qed.

Lemma run_all_one {A} (m : M dist A) (f : dist) a f' :
  m f = (Ok a, f') → run_all m [f] = Ok ([a], [f']).
Proof. intros H. unfold run_all. cbn. by rewrite H. Qed.

Lemma stream_and_bounce_back_shape nx ny (f : dist) (u0 : val) :
  shape3 9 nx ny f → 0 < nx → 0 < ny →
  ∃ f', stream_and_bounce_back u0 f = (Ok tt, f') ∧ shape3 9 nx ny f'.
Proof.
  intros Hf Hnx Hny. eexists. split.
  - apply (stream_and_bounce_back_run nx ny); done.
  - repeat apply shape_assign. by apply (stream_ok nx ny).
Qed.

Lemma loop_body_single nx ny geo (i : Z) (st : prog) (f : dist) :
  world st = [f] → shape3 9 nx ny f → 2 ≤ nx → 2 ≤ ny →
  ∃ st' f', loop_body (topology 1 1) geo i st = (Ok tt, st')
    ∧ world st' = [f'] ∧ shape3 9 nx ny f'
    ∧ loop_i st' = Some i
    ∧ (files st').*1 = (files st).*1 ++ dump_names [i].
Proof.
  intros Hw Hf Hnx Hny. unfold loop_body. rewrite Hw.
  rewrite (communicate_single_process nx ny) by done. cbn [obind].
  destruct (stream_and_bounce_back_shape nx ny f u0_default Hf) as (f1 & Hrun1 & Hf1); [lia..|].
  rewrite (run_all_one _ _ _ _ Hrun1). cbn [obind snd].
  destruct (collide_shape nx ny f1 omega Hf1) as (rho & ux & uy & f2 & Hrun2 & _ & _ & _ & Hf2).
  rewrite (run_all_one _ _ _ _ Hrun2). cbn [obind].
  unfold dump_names. cbn [filter list_filter].
  destruct (decide (i `mod` dump_freq = 0)%Z) as [Hi|Hi].
  - do 2 eexists. split; [reflexivity|]. cbn.
    split; [done|]. split; [done|]. split; [done|].
    by rewrite !fmap_app, <-(assoc app).
  - do 2 eexists. split; [reflexivity|]. cbn.
    split; [done|]. split; [done|]. split; [done|].
    by rewrite app_nil_r.
Qed.

Lemma dump_names_cons i l : dump_names (i :: l) = dump_names [i] ++ dump_names l.
Proof.
  unfold dump_names. cbn [filter list_filter].
  destruct (decide (i `mod` dump_freq = 0)%Z); cbn; [done|done].
Qed.

Lemma loop_single nx ny geo (l : list Z) :
  2 ≤ nx → 2 ≤ ny →
  ∀ (st : prog) (f : dist), world st = [f] → shape3 9 nx ny f →
  ∃ st', for_ l (loop_body (topology 1 1) geo) st = (Ok tt, st')
    ∧ loop_i st' = from_option Some (loop_i st) (last l)
    ∧ (files st').*1 = (files st).*1 ++ dump_names l.
Proof.
  intros Hnx Hny. induction l as [|i l IH]; intros st f Hw Hf.
  - exists st. cbn. by rewrite app_nil_r.
  - destruct (loop_body_single nx ny geo i st f Hw Hf Hnx Hny)
      as (st1 & f1 & Hrun & Hw1 & Hf1 & Hi1 & Hfiles1).
    destruct (IH st1 f1 Hw1 Hf1) as (st2 & Hrun2 & Hi2 & Hfiles2).
    exists st2. split; [|split].
    + cbn [for_]. unfold bind. by rewrite Hrun.
    + rewrite Hi2, Hi1. destruct l as [|z l]; [done|].
      change (last (i :: z :: l)) with (last (z :: l)).
      destruct (last (z :: l)) eqn:E; [done|]. by apply last_None in E.
    + rewrite Hfiles2, Hfiles1, (dump_names_cons i l). by rewrite <-(assoc app).
Qed.

(** X17: the program on a single process, on a grid of at least 2 by 2
    points: the loop runs through all its steps, writes ux and uy at every
    step that is a multiple of dump_freq, and the dump after the loop
    raises NameError (for u_ckl when the loop ran, for i when it did not). *)
Theorem main_single_process (steps nx ny : Z) :
  (2 ≤ nx)%Z → (2 ≤ ny)%Z →
  (main_for steps 1 1 nx ny).1
  = Raise (NameError (if decide (0 < steps)%Z then "u_ckl" else "i"))
  ∧ (files (main_for steps 1 1 nx ny).2).*1 = dump_names (seqZ 0 steps).
Proof.
  intros Hnx Hny. unfold main_for. rewrite topology_1_1. cbn [fmap list_fmap].
  set (g := partition nx ny 1 1 (neighbours_at 1 1 0 0)).
  destruct (partition_extents nx ny 1 1 (neighbours_at 1 1 0 0)) as (Hgx & Hgy & _).
  fold g in Hgx, Hgy.
  change (right_dst (neighbours_at 1 1 0 0)) with (-1)%Z in Hgx.
  change (left_dst (neighbours_at 1 1 0 0)) with (-1)%Z in Hgx.
  change (top_dst (neighbours_at 1 1 0 0)) with (-1)%Z in Hgy.
  change (bottom_dst (neighbours_at 1 1 0 0)) with (-1)%Z in Hgy.
  unfold owned_extent in Hgx, Hgy.
  rewrite decide_True, !decide_False in Hgx by lia.
  rewrite decide_True, !decide_False in Hgy by lia.
  replace (local_nx g) with nx by lia. replace (local_ny g) with ny by lia.
  clear Hgx Hgy. clearbody g.
  set (f0 := equilibrium _ _ _).
  assert (Hf0 : shape3 9 (Z.to_nat nx) (Z.to_nat ny) f0).
  { apply shape3_equilibrium; apply shape2_full. }
  set (st0 := {| world := [f0]; fields := None; loop_i := None; files := [] |}).
  destruct (loop_single (Z.to_nat nx) (Z.to_nat ny) [g] (seqZ 0 steps)
              ltac:(lia) ltac:(lia) st0 f0 eq_refl Hf0) as (st' & Hrun & Hi & Hfiles).
  rewrite topology_1_1 in Hrun. unfold bind. rewrite !Hrun. cbn in Hfiles. cbn [loop_i st0] in Hi.
  assert (Hlast : is_Some (loop_i st') ↔ (0 < steps)%Z).
  { rewrite Hi. destruct (last (seqZ 0 steps)) as [i|] eqn:E; cbn.
    - split; [intros _|eauto].
      destruct (decide (0 < steps)%Z) as [Hs|Hs]; [done|].
      by rewrite seqZ_nil in E by lia.
    - split; [by intros [? ?]|]. intros Hs.
      apply last_None in E. apply (f_equal length) in E.
      rewrite length_seqZ in E. cbn in E. lia. }
  destruct st' as [w [r|] [i|] fs]; cbn in Hlast, Hfiles |- *.
  - rewrite decide_True by (apply Hlast; eauto). done.
  - rewrite decide_False by (intros ?%Hlast; by destruct H). done.
  - rewrite decide_True by (apply Hlast; eauto). done.
  - rewrite decide_False by (intros ?%Hlast; by destruct H). done.
Qed.

(** ** What the owned slice selects *)

(** X16: what the owned slice selects of an axis of the local array:
    without a lower neighbour the owned positions, with a lower neighbour
    everything but position 0. *)
Theorem without_ghosts_selects {A} (nx ny ndx ndy : Z) (nb : neighbours)
    (xs ys : list A) :
  let g := partition nx ny ndx ndy nb in
  length xs = Z.to_nat (local_nx g) → length ys = Z.to_nat (local_ny g) →
  apply_slice (without_ghosts_x g) xs
  = (if decide (left_dst nb >= 0)%Z then drop 1 xs
     else take (Z.to_nat (owned_extent nx ndx (right_dst nb))) xs)
  ∧ apply_slice (without_ghosts_y g) ys
  = (if decide (bottom_dst nb >= 0)%Z then drop 1 ys
     else take (Z.to_nat (owned_extent ny ndy (top_dst nb))) ys).
Proof.
  intros g Hxs Hys. subst g. revert Hxs Hys. unfold partition, apply_slice.
  destruct (decide (right_dst nb >= 0)%Z), (decide (left_dst nb >= 0)%Z),
    (decide (top_dst nb >= 0)%Z), (decide (bottom_dst nb >= 0)%Z);
    cbn [local_nx local_ny without_ghosts_x without_ghosts_y start stop];
    intros Hxs Hys; split;
    first [ rewrite Z.sub_0_r; reflexivity
          | apply take_ge; rewrite length_drop; lia ].
Qed.

Lemma without_ghosts_selects_witness :
  length [10; 11; 12; 13; 14] = Z.to_nat (local_nx (partition 9 3 3 1 (neighbours_at 3 1 1 0)))
  ∧ length [20; 21; 22] = Z.to_nat (local_ny (partition 9 3 3 1 (neighbours_at 3 1 1 0)))
  ∧ apply_slice (without_ghosts_x (partition 9 3 3 1 (neighbours_at 3 1 1 0)))
      [10; 11; 12; 13; 14] = [11; 12; 13; 14]
  ∧ apply_slice (without_ghosts_y (partition 9 3 3 1 (neighbours_at 3 1 1 0)))
      [20; 21; 22] = [20; 21; 22].
Proof.
  assert (H1 : length [10; 11; 12; 13; 14]
    = Z.to_nat (local_nx (partition 9 3 3 1 (neighbours_at 3 1 1 0)))) by reflexivity.
  assert (H2 : length [20; 21; 22]
    = Z.to_nat (local_ny (partition 9 3 3 1 (neighbours_at 3 1 1 0)))) by reflexivity.
  exact (conj H1 (conj H2 (without_ghosts_selects 9 3 3 1 _ _ _ H1 H2))).
Defined.

(** ** Arrays with too few channels *)

(** X5: on an array with fewer than 9 channels collide raises IndexError
    and leaves the array as it is; stream and stream_and_bounce_back raise
    IndexError too. *)
Theorem too_few_channels (f : dist) (omega u0 : val) :
  length f < 9 →
  collide omega f = (Raise IndexError, f)
  ∧ (stream f).1 = Raise IndexError
  ∧ (stream_and_bounce_back u0 f).1 = Raise IndexError.
Proof.
  intros Hlen.
  assert (Hstream : (stream f).1 = Raise IndexError).
  { do 9 (destruct f as [|? f]; [reflexivity|]). cbn in Hlen. lia. }
  split; [|split; [done|]].
  - do 9 (destruct f as [|? f]; [reflexivity|]). cbn in Hlen. lia.
  - unfold stream_and_bounce_back.
    unfold bind at 1. unfold fetch at 1.
    destruct (get_l 0 f) as [fb|e] eqn:E1.
    2: { unfold get_l in E1. destruct (index (len2 f) 0) eqn:E; [done|].
         unfold index in E. repeat case_decide; simplify_eq. by injection E1 as <-. }
    unfold bind at 1. unfold fetch at 1.
    destruct (get_l (-1) f) as [ft|e] eqn:E2.
    2: { unfold get_l in E2. destruct (index (len2 f) (-1)) eqn:E; [done|].
         unfold index in E. repeat case_decide; simplify_eq. by injection E2 as <-. }
    unfold bind at 1. unfold fetch at 1.
    destruct (get_k 0 f) as [fl|e] eqn:E3.
    2: { unfold get_k in E3. destruct (index (len1 f) 0) eqn:E; [done|].
         unfold index in E. repeat case_decide; simplify_eq. by injection E3 as <-. }
    unfold bind at 1. unfold fetch at 1.
    destruct (get_k (-1) f) as [fr|e] eqn:E4.
    2: { unfold get_k in E4. destruct (index (len1 f) (-1)) eqn:E; [done|].
         unfold index in E. repeat case_decide; simplify_eq. by injection E4 as <-. }
    unfold bind at 1. destruct (stream f) as [[[]|e] s] eqn:E5; cbn in Hstream; [done|].
    by rewrite Hstream.
Qed.

Lemma too_few_channels_witness :
  length (replicate 5 (full 2 2 (val_of_Z 1))) < 9
  ∧ collide omega (replicate 5 (full 2 2 (val_of_Z 1)))
    = (Raise IndexError, replicate 5 (full 2 2 (val_of_Z 1))).
Proof.
  assert (H1 : length (replicate 5 (full 2 2 (val_of_Z 1))) < 9) by (cbn; lia).
  exact (conj H1 (proj1 (too_few_channels _ omega u0_default H1))).
Defined.

(** ** Streaming again and again *)

Section roll_add.
Context {A : Type}.
Implicit Types (l : list A) (g : list (list A)).

Lemma roll_roll l s1 s2 : roll (roll l s1) s2 = roll l (s1 + s2).
Proof.
  unfold roll. rewrite length_rotate, rotate_rotate.
  destruct (decide (length l = 0)) as [Hl|Hl].
  { apply nil_length_inv in Hl as ->. by rewrite !rotate_nil. }
  set (n := Z.of_nat (length l)). assert (0 < n)%Z by lia.
  pose proof (Z.mod_pos_bound (- s1) n ltac:(done)).
  pose proof (Z.mod_pos_bound (- s2) n ltac:(done)).
  pose proof (Z.mod_pos_bound (- (s1 + s2)) n ltac:(done)).
  apply list_eq. intros i.
  destruct (decide (i < length l)) as [Hi|Hi].
  - rewrite !lookup_rotate_r by done. f_equal. unfold rotate_nat_add. f_equal.
    rewrite Nat2Z.inj_add, !Z2Nat.id by lia. fold n.
    rewrite (Z.mod_eq (- s1) n), (Z.mod_eq (- s2) n), (Z.mod_eq (- (s1 + s2)) n) by lia.
    set (q1 := Z.div (- s1) n). set (q2 := Z.div (- s2) n).
    set (q3 := Z.div (- (s1 + s2)) n).
    replace (- s2 - n * q2 + (- s1 - n * q1) + Z.of_nat i)%Z
      with (Z.of_nat i - s1 - s2 + (- (q1 + q2)) * n)%Z by lia.
    replace (- (s1 + s2) - n * q3 + Z.of_nat i)%Z
      with (Z.of_nat i - s1 - s2 + (- q3) * n)%Z by lia.
    by rewrite !Z_mod_plus_full.
  - rewrite !lookup_ge_None_2; [done|rewrite ?length_rotate; lia..].
Qed.

Lemma roll_whole l (p : Z) : roll l (p * Z.of_nat (length l)) = l.
Proof.
  unfold roll.
  destruct (decide (length l = 0)) as [Hl|Hl].
  { apply nil_length_inv in Hl as ->. apply rotate_nil. }
  apply rotate_multiple.
  replace (- (p * Z.of_nat (length l)))%Z with ((- p) * Z.of_nat (length l))%Z by lia.
  rewrite Z_mod_mult. apply Nat.Div0.mod_0_l.
Qed.

End roll_add.

Section roll2_add.
Context {A : Type}.
Implicit Types (g : list (list A)).

Lemma roll2_roll2 g (c1 c2 : Z * Z) :
  roll2 (roll2 g c1) c2 = roll2 g (c1.1 + c2.1, c1.2 + c2.2)%Z.
Proof.
  unfold roll2. cbn [fst snd].
  rewrite fmap_roll, roll_roll, <-list_fmap_compose. f_equal.
  apply list_fmap_ext. intros _ c _. apply roll_roll.
Qed.

Lemma roll2_0 g : roll2 g (0, 0)%Z = g.
Proof.
  unfold roll2. cbn [fst snd].
  rewrite (roll_whole _ 0). rewrite <-(list_fmap_id g) at 2.
  apply list_fmap_ext. intros _ c _. apply (roll_whole c 0).
Qed.

Lemma roll2_whole nx ny g (p q : Z) :
  shape2 nx ny g → roll2 g (p * Z.of_nat nx, q * Z.of_nat ny)%Z = g.
Proof.
  intros [Hx Hy]. unfold roll2. cbn [fst snd].
  rewrite <-Hx at 1. rewrite <-(length_fmap (λ c, roll c (q * Z.of_nat ny))), roll_whole.
  rewrite <-(list_fmap_id g) at 2.
  apply list_fmap_ext. intros i c Hc. rewrite Forall_lookup in Hy.
  rewrite <-(Hy _ _ Hc). apply roll_whole.
Qed.
End roll2_add.

Lemma times_stream (n : nat) (g0 g1 g2 g3 g4 g5 g6 g7 g8 : grid) :
  let by_n (c : Z * Z) := (Z.of_nat n * c.1, Z.of_nat n * c.2)%Z in
  times n stream [g0; g1; g2; g3; g4; g5; g6; g7; g8]
  = (Ok tt, [g0; roll2 g1 (by_n (1, 0)%Z); roll2 g2 (by_n (0, 1)%Z);
             roll2 g3 (by_n (-1, 0)%Z); roll2 g4 (by_n (0, -1)%Z);
             roll2 g5 (by_n (1, 1)%Z); roll2 g6 (by_n (-1, 1)%Z);
             roll2 g7 (by_n (-1, -1)%Z); roll2 g8 (by_n (1, -1)%Z)]).
Proof.
  intros by_n. unfold times.
  assert (H : ∀ m (h1 h2 h3 h4 h5 h6 h7 h8 : grid),
    for_ (seq m n) (λ _, stream) [g0; h1; h2; h3; h4; h5; h6; h7; h8]
    = (Ok tt, [g0; roll2 h1 (by_n (1, 0)%Z); roll2 h2 (by_n (0, 1)%Z);
               roll2 h3 (by_n (-1, 0)%Z); roll2 h4 (by_n (0, -1)%Z);
               roll2 h5 (by_n (1, 1)%Z); roll2 h6 (by_n (-1, 1)%Z);
               roll2 h7 (by_n (-1, -1)%Z); roll2 h8 (by_n (1, -1)%Z)])).
  { subst by_n. induction n as [|n IH]; intros m h1 h2 h3 h4 h5 h6 h7 h8.
    - cbn [seq for_ fst snd]. unfold ret. rewrite !Z.mul_0_l. by rewrite !roll2_0.
    - cbn [seq for_]. unfold bind. unfold stream at 1, c_ic. rewrite stream_by_run.
      rewrite IH. rewrite !roll2_roll2. cbn [fst snd].
      repeat f_equal; lia. }
  apply H.
Qed.

(** X9: streaming is periodic: after a number of calls that nx and ny
    both divide the array is what it was. *)
Theorem stream_period nx ny (f : dist) (n : nat) :
  shape3 9 nx ny f → (nx | n) → (ny | n) →
  times n stream f = (Ok tt, f).
Proof.
  intros [Hlen Hf] [p Hp] [q Hq].
  do 9 (destruct f as [|? f]; [done|]). destruct f; [|done].
  rewrite times_stream. cbn [fst snd].
  repeat (apply Forall_cons in Hf as [? Hf]).
  assert (Hw : ∀ (g : grid) (a b : Z), shape2 nx ny g →
    roll2 g (Z.of_nat n * a, Z.of_nat n * b)%Z = g).
  { intros g a b Hg.
    replace (Z.of_nat n * a)%Z with ((Z.of_nat p * a) * Z.of_nat nx)%Z
      by (rewrite Hp, Nat2Z.inj_mul; ring).
    replace (Z.of_nat n * b)%Z with ((Z.of_nat q * b) * Z.of_nat ny)%Z
      by (rewrite Hq, Nat2Z.inj_mul; ring).
    by apply roll2_whole. }
  by rewrite !Hw by done.
Qed.

Lemma stream_period_witness :
  shape3 9 2 3 (by_channel 2 3) ∧ (2 | 6) ∧ (3 | 6)
  ∧ times 6 stream (by_channel 2 3) = (Ok tt, by_channel 2 3).
Proof.
  assert (H1 : shape3 9 2 3 (by_channel 2 3)) by compute_done.
  assert (H2 : (2 | 6)) by (exists 3; reflexivity).
  assert (H3 : (3 | 6)) by (exists 2; reflexivity).
  exact (conj H1 (conj H2 (conj H3 (stream_period 2 3 _ 6 H1 H2 H3)))).
Defined.

(** ** One time step keeps the shape *)

(** X6: on an array of 9 channels on a grid that is not empty, collide,
    stream and stream_and_bounce_back return and keep the shape of the
    array; the fields collide returns have the shape of the grid. *)
Theorem step_functions_keep_shape nx ny (f : dist) (omega u0 : val) :
  shape3 9 nx ny f → 0 < nx → 0 < ny →
  (∃ fields f', collide omega f = (Ok fields, f') ∧ shape3 9 nx ny f'
     ∧ shape2 nx ny fields.1.1 ∧ shape2 nx ny fields.1.2 ∧ shape2 nx ny fields.2)
  ∧ (∃ f', stream f = (Ok tt, f') ∧ shape3 9 nx ny f')
  ∧ (∃ f', stream_and_bounce_back u0 f = (Ok tt, f') ∧ shape3 9 nx ny f').
Proof.
  intros Hf Hnx Hny. split; [|split].
  - destruct (collide_shape nx ny f omega Hf) as (rho & ux & uy & f' & Hrun & ? & ? & ? & ?).
    by exists (rho, ux, uy), f'.
  - destruct (stream_ok nx ny f Hf) as [Hrun Hs]. eauto.
  - by apply stream_and_bounce_back_shape.
Qed.

Lemma step_functions_keep_shape_witness :
  shape3 9 2 3 (by_channel 2 3) ∧ 0 < 2 ∧ 0 < 3
  ∧ ∃ f', stream_and_bounce_back u0_default (by_channel 2 3) = (Ok tt, f') ∧ shape3 9 2 3 f'.
Proof.
  assert (H1 : shape3 9 2 3 (by_channel 2 3)) by compute_done.
  assert (H2 : 0 < 2) by lia. assert (H3 : 0 < 3) by lia.
  exact (conj H1 (conj H2 (conj H3
    (proj2 (proj2 (step_functions_keep_shape 2 3 _ omega u0_default H1 H2 H3)))))).
Defined.

(** ** Exchanging twice *)

Lemma halo_2_1 (nxA nxB ny : nat) (fA fB : dist) :
  2 ≤ nxA → 2 ≤ nxB → 2 ≤ ny → shape3 9 nxA ny fA → shape3 9 nxB ny fB →
  ∃ fA' fB', communicate (topology 2 1) [fA; fB] = Ok [fA'; fB']
    ∧ shape3 9 nxA ny fA' ∧ shape3 9 nxB ny fB'
    ∧ (∀ i k l, cell fA' i k l
         = if decide (k = nxA - 1) then cell fB i 1 l else cell fA i k l)
    ∧ (∀ i k l, cell fB' i k l
         = if decide (k = 0) then cell fA i (nxA - 2) l else cell fB i k l).
Proof.
  intros HnxA HnxB Hny HfA HfB.
  pose proof (communicate_2_1 nxA nxB ny fA fB HnxA HnxB Hny HfA HfB) as Hrun.
  cbv zeta in Hrun. do 2 eexists. split; [exact Hrun|]. clear Hrun.
  split; [shape_tac|]. split; [shape_tac|].
  assert (HA1 : shape3 9 nxA ny (assign (sel_k (nxA - 1) (slice_k 1 fB)) fA)) by shape_tac.
  assert (HA1c : ∀ i k l, cell (assign (sel_k (nxA - 1) (slice_k 1 fB)) fA) i k l
    = if decide (k = nxA - 1) then cell fB i 1 l else cell fA i k l).
  { intros i k l. rewrite cell_assign. rewrite sel_k_eq. case_decide as Hk.
    - subst k. rewrite (slice_k_cell nxB ny) by (done || lia).
      apply default_fmap_Some. apply (cell_is_Some nxA ny nxB ny); [done..|lia].
    - by destruct (cell fA i k l). }
  split; intros i k l.
  - rewrite (cell_assign_own_l nxA ny), (cell_assign_own_l nxA ny),
      (cell_assign_own_k nxA ny) by (lia || shape_tac).
    apply HA1c.
  - rewrite (cell_assign_own_l nxB ny), (cell_assign_own_l nxB ny) by (lia || shape_tac).
    rewrite cell_assign. rewrite sel_k_eq. case_decide as Hk.
    + subst k. rewrite (slice_k_cell nxA ny) by (done || lia).
      rewrite HA1c, decide_False by lia.
      rewrite (cell_assign_own_k nxB ny) by (done || lia).
      apply default_fmap_Some. apply (cell_is_Some nxB ny nxA ny); [done..|lia].
    + rewrite (cell_assign_own_k nxB ny) by (done || lia).
      by destruct (cell fB i k l).
Qed.

Lemma halo_1_2 (nx nyA nyB : nat) (gA gB : dist) :
  2 ≤ nx → 2 ≤ nyA → 2 ≤ nyB → shape3 9 nx nyA gA → shape3 9 nx nyB gB →
  ∃ gA' gB', communicate (topology 1 2) [gA; gB] = Ok [gA'; gB']
    ∧ shape3 9 nx nyA gA' ∧ shape3 9 nx nyB gB'
    ∧ (∀ i k l, cell gA' i k l
         = if decide (l = nyA - 1) then cell gB i k 1 else cell gA i k l)
    ∧ (∀ i k l, cell gB' i k l
         = if decide (l = 0) then cell gA i k (nyA - 2) else cell gB i k l).
Proof.
  intros Hnx HnyA HnyB HgA HgB.
  pose proof (communicate_1_2 nx nyA nyB gA gB Hnx HnyA HnyB HgA HgB) as Hrun.
  cbv zeta in Hrun. do 2 eexists. split; [exact Hrun|]. clear Hrun.
  split; [shape_tac|]. split; [shape_tac|].
  assert (HA2c : ∀ i k l,
    cell (assign (sel_k 0 (slice_k 0 (assign (sel_k (nx - 1) (slice_k (nx - 1) gA)) gA)))
            (assign (sel_k (nx - 1) (slice_k (nx - 1) gA)) gA)) i k l = cell gA i k l).
  { intros i k l.
    by rewrite (cell_assign_own_k nx nyA), (cell_assign_own_k nx nyA) by (lia || shape_tac). }
  assert (HB2c : ∀ i k l,
    cell (assign (sel_k 0 (slice_k 0 (assign (sel_k (nx - 1) (slice_k (nx - 1) gB)) gB)))
            (assign (sel_k (nx - 1) (slice_k (nx - 1) gB)) gB)) i k l = cell gB i k l).
  { intros i k l.
    by rewrite (cell_assign_own_k nx nyB), (cell_assign_own_k nx nyB) by (lia || shape_tac). }
  assert (HA3c : ∀ i k l,
    cell (assign (sel_l (nyA - 1)
            (slice_l 1 (assign (sel_k 0 (slice_k 0 (assign (sel_k (nx - 1) (slice_k (nx - 1) gB)) gB)))
               (assign (sel_k (nx - 1) (slice_k (nx - 1) gB)) gB))))
            (assign (sel_k 0 (slice_k 0 (assign (sel_k (nx - 1) (slice_k (nx - 1) gA)) gA)))
               (assign (sel_k (nx - 1) (slice_k (nx - 1) gA)) gA))) i k l
    = if decide (l = nyA - 1) then cell gB i k 1 else cell gA i k l).
  { intros i k l. rewrite cell_assign, HA2c. rewrite sel_l_eq. case_decide as Hl.
    - subst l. rewrite (slice_l_cell nx nyB) by (lia || shape_tac). rewrite HB2c.
      apply default_fmap_Some. apply (cell_is_Some nx nyA nx nyB); [done..|lia].
    - by destruct (cell gA i k l). }
  split; intros i k l.
  - rewrite (cell_assign_own_l nx nyA) by (lia || shape_tac). apply HA3c.
  - rewrite cell_assign. rewrite sel_l_eq. case_decide as Hl.
    + subst l. rewrite (slice_l_cell nx nyA) by (lia || shape_tac).
      rewrite HA3c, decide_False by lia.
      rewrite (cell_assign_own_l nx nyB) by (lia || shape_tac). rewrite HB2c.
      apply default_fmap_Some. apply (cell_is_Some nx nyB nx nyA); [done..|lia].
    + rewrite (cell_assign_own_l nx nyB) by (lia || shape_tac). rewrite HB2c.
      by destruct (cell gB i k l).
Qed.

(** X15: between two processes (2x1 or 1x2) a second call of communicate
    changes nothing. *)
Theorem halo_exchange_idempotent
    (nxA nxB ny : nat) (fA fB : dist) (nx nyA nyB : nat) (gA gB : dist) :
  2 ≤ nxA → 2 ≤ nxB → 2 ≤ ny → shape3 9 nxA ny fA → shape3 9 nxB ny fB →
  2 ≤ nx → 2 ≤ nyA → 2 ≤ nyB → shape3 9 nx nyA gA → shape3 9 nx nyB gB →
  (∃ w, communicate (topology 2 1) [fA; fB] = Ok w ∧ communicate (topology 2 1) w = Ok w)
  ∧ (∃ w, communicate (topology 1 2) [gA; gB] = Ok w ∧ communicate (topology 1 2) w = Ok w).
Proof.
  intros HnxA HnxB Hny HfA HfB Hnx HnyA HnyB HgA HgB. split.
  - destruct (halo_2_1 nxA nxB ny fA fB) as (A1 & B1 & Hrun1 & HA1 & HB1 & HA1c & HB1c);
      [done..|].
    destruct (halo_2_1 nxA nxB ny A1 B1) as (A2 & B2 & Hrun2 & HA2 & HB2 & HA2c & HB2c);
      [done..|].
    exists [A1; B1]. split; [done|]. rewrite Hrun2. do 2 f_equal; [|f_equal].
    + apply (dist_ext 9 nxA ny); [done..|]. intros i k l _ _ _.
      rewrite HA2c, HA1c, HB1c. case_decide; [|done]. by rewrite decide_False by lia.
    + apply (dist_ext 9 nxB ny); [done..|]. intros i k l _ _ _.
      rewrite HB2c, HB1c, HA1c. case_decide; [|done]. by rewrite decide_False by lia.
  - destruct (halo_1_2 nx nyA nyB gA gB) as (A1 & B1 & Hrun1 & HA1 & HB1 & HA1c & HB1c);
      [done..|].
    destruct (halo_1_2 nx nyA nyB A1 B1) as (A2 & B2 & Hrun2 & HA2 & HB2 & HA2c & HB2c);
      [done..|].
    exists [A1; B1]. split; [done|]. rewrite Hrun2. do 2 f_equal; [|f_equal].
    + apply (dist_ext 9 nx nyA); [done..|]. intros i k l _ _ _.
      rewrite HA2c, HA1c, HB1c. case_decide; [|done]. by rewrite decide_False by lia.
    + apply (dist_ext 9 nx nyB); [done..|]. intros i k l _ _ _.
      rewrite HB2c, HB1c, HA1c. case_decide; [|done]. by rewrite decide_False by lia.
Qed.

Lemma halo_exchange_idempotent_witness :
  shape3 9 2 2 (by_channel 2 2) ∧ shape3 9 3 2 (uniform 3 2 (val_of_Z 7))
  ∧ ∃ w, communicate (topology 2 1) [by_channel 2 2; uniform 3 2 (val_of_Z 7)] = Ok w
       ∧ communicate (topology 2 1) w = Ok w.
Proof.
  assert (HA : shape3 9 2 2 (by_channel 2 2)) by compute_done.
  assert (HB : shape3 9 3 2 (uniform 3 2 (val_of_Z 7))) by compute_done.
  exact (conj HA (conj HB
    (proj1 (halo_exchange_idempotent 2 3 2 _ _ 2 2 2 _ _
      ltac:(lia) ltac:(lia) ltac:(lia) HA HB ltac:(lia) ltac:(lia) ltac:(lia) HA HA)))).
Defined.

(** ** The further theorems at concrete arrays *)

Lemma equilibrium_first_moment_witness :
  gcell [[Q2Qc (1 # 1); Q2Qc (2 # 1)]] 0 1 = Some (Q2Qc (2 # 1))
  ∧ gcell [[Q2Qc (1 # 10); Q2Qc (3 # 10)]] 0 1 = Some (Q2Qc (3 # 10))
  ∧ gcell [[Q2Qc 0; Q2Qc (-1 # 5)]] 0 1 = Some (Q2Qc (-1 # 5))
  ∧ cellmom_x (equilibrium (num [[Q2Qc (1 # 1); Q2Qc (2 # 1)]])
                 (num [[Q2Qc (1 # 10); Q2Qc (3 # 10)]]) (num [[Q2Qc 0; Q2Qc (-1 # 5)]])) 0 1
    = Some (Num (Q2Qc (2 # 1) * Q2Qc (3 # 10))%Qc).
Proof.
  assert (H1 : gcell [[Q2Qc (1 # 1); Q2Qc (2 # 1)]] 0 1 = Some (Q2Qc (2 # 1))) by reflexivity.
  assert (H2 : gcell [[Q2Qc (1 # 10); Q2Qc (3 # 10)]] 0 1 = Some (Q2Qc (3 # 10)))
    by reflexivity.
  assert (H3 : gcell [[Q2Qc 0; Q2Qc (-1 # 5)]] 0 1 = Some (Q2Qc (-1 # 5))) by reflexivity.
  exact (conj H1 (conj H2 (conj H3
    (proj1 (equilibrium_first_moment _ _ _ 0 1 _ _ _ H1 H2 H3))))).
Defined.

Lemma collide_conserves_momentum_witness :
  shape3 9 1 1 (by_channel 1 1)
  ∧ cellsum (by_channel 1 1) 0 0 = Some (Num (Qc_of_Z 36))
  ∧ Qc_of_Z 36 ≠ Q2Qc 0
  ∧ ∃ fields f', collide omega (by_channel 1 1) = (Ok fields, f')
      ∧ cellmom_x f' 0 0 = cellmom_x (by_channel 1 1) 0 0
      ∧ cellmom_y f' 0 0 = cellmom_y (by_channel 1 1) 0 0.
Proof.
  assert (H1 : shape3 9 1 1 (by_channel 1 1)) by compute_done.
  assert (H2 : cellsum (by_channel 1 1) 0 0 = Some (Num (Qc_of_Z 36))) by compute_done.
  assert (H3 : Qc_of_Z 36 ≠ Q2Qc 0) by (by apply Qc_of_Z_neq_0).
  exact (conj H1 (conj H2 (conj H3
    (collide_conserves_momentum 1 1 _ (Q2Qc (17 # 10)) 0 0 _ H1 H2 H3)))).
Defined.

Lemma collide_returns_moments_witness :
  shape3 9 1 1 (by_channel 1 1)
  ∧ cellsum (by_channel 1 1) 0 0 = Some (Num (Qc_of_Z 36))
  ∧ Qc_of_Z 36 ≠ Q2Qc 0
  ∧ ∃ rho ux uy f' u v, collide omega (by_channel 1 1) = (Ok (rho, ux, uy), f')
      ∧ gcell rho 0 0 = Some (Num (Qc_of_Z 36))
      ∧ gcell ux 0 0 = Some (Num u)
      ∧ gcell uy 0 0 = Some (Num v)
      ∧ cellmom_x (by_channel 1 1) 0 0 = Some (Num (Qc_of_Z 36 * u)%Qc)
      ∧ cellmom_y (by_channel 1 1) 0 0 = Some (Num (Qc_of_Z 36 * v)%Qc).
Proof.
  assert (H1 : shape3 9 1 1 (by_channel 1 1)) by compute_done.
  assert (H2 : cellsum (by_channel 1 1) 0 0 = Some (Num (Qc_of_Z 36))) by compute_done.
  assert (H3 : Qc_of_Z 36 ≠ Q2Qc 0) by (by apply Qc_of_Z_neq_0).
  exact (conj H1 (conj H2 (conj H3
    (collide_returns_moments 1 1 _ (Q2Qc (17 # 10)) 0 0 _ H1 H2 H3)))).
Defined.

Lemma lid_mass_balance_witness :
  shape3 9 2 2 (by_channel 2 2) ∧ 0 < 2 ∧ 0 < 2 ∧ numeric (by_channel 2 2)
  ∧ ∃ m t0 t1,
      total_mass (by_channel 2 2) = Num m
      ∧ lid_momentum (by_channel 2 2) (2 - 1) u0_default !! 0 = Some (Num t0)
      ∧ lid_momentum (by_channel 2 2) (2 - 1) u0_default !! (2 - 1) = Some (Num t1)
      ∧ (stream_and_bounce_back u0_default (by_channel 2 2)).1 = Ok tt
      ∧ total_mass (stream_and_bounce_back u0_default (by_channel 2 2)).2 = Num (m - t0 + t1)%Qc.
Proof.
  assert (H1 : shape3 9 2 2 (by_channel 2 2)) by compute_done.
  assert (H2 : 0 < 2) by lia.
  assert (H3 : numeric (by_channel 2 2)) by (unfold numeric; compute_done).
  exact (conj H1 (conj H2 (conj H2 (conj H3
    (lid_mass_balance 2 2 _ (Q2Qc (1 # 10)) H1 H2 H2 H3))))).
Defined.

Lemma closed_cavity_conserves_mass_witness :
  shape3 9 2 2 (by_channel 2 2) ∧ 0 < 2 ∧ 0 < 2 ∧ numeric (by_channel 2 2)
  ∧ (stream_and_bounce_back (val_of_Z 0) (by_channel 2 2)).1 = Ok tt
  ∧ ∃ m, total_mass (by_channel 2 2) = Num m
       ∧ total_mass (stream_and_bounce_back (val_of_Z 0) (by_channel 2 2)).2 = Num m.
Proof.
  assert (H1 : shape3 9 2 2 (by_channel 2 2)) by compute_done.
  assert (H2 : 0 < 2) by lia.
  assert (H3 : numeric (by_channel 2 2)) by (unfold numeric; compute_done).
  exact (conj H1 (conj H2 (conj H2 (conj H3
    (closed_cavity_conserves_mass 2 2 _ H1 H2 H2 H3))))).
Defined.

Lemma main_single_process_witness :
  (2 ≤ 2)%Z ∧ (2 ≤ 3)%Z
  ∧ (main 1 1 2 3).1 = Raise (NameError "u_ckl")
  ∧ (files (main 1 1 2 3).2).*1 = dump_names (seqZ 0 nsteps).
Proof.
  assert (H1 : (2 ≤ 2)%Z) by lia. assert (H2 : (2 ≤ 3)%Z) by lia.
  exact (conj H1 (conj H2 (main_single_process nsteps 2 3 H1 H2))).
Defined.
